(** * word-to-markdown: the conversion pipeline of [main.ts]

    A shallow embedding of the post-processing pipeline that turns the HTML
    extracted from a Word document into Markdown: extension validation,
    entity decoding, the DOM rewrites (table headers, bullet glyphs), the
    renderer cache, and the text normalisation passes.

    JavaScript strings are sequences of UTF-16 code units; they are
    modelled as lists of integers in [0, 65535]. *)

From Stdlib Require Import ZArith List String Ascii Lia Bool.
From stdpp Require Import gmap strings.
Import ListNotations.
Open Scope Z_scope.

(** ** Strings of UTF-16 code units *)

Module Js.

Definition jsstring : Type := list Z.

(** An ASCII literal as a JavaScript string. *)
Definition js (s : string) : jsstring :=
  map (fun a => Z.of_nat (nat_of_ascii a)) (list_ascii_of_string s).

Definition str_eqb (a b : jsstring) : bool := bool_decide (a = b).

(** [String.prototype.includes] for a one-unit needle. *)
Definition includes (c : Z) (s : jsstring) : bool := existsb (Z.eqb c) s.

Definition in_range (lo hi c : Z) : bool := (lo <=? c) && (c <=? hi).

(** Regular-expression class [\d]. *)
Definition isDigit (c : Z) : bool := in_range 48 57 c.

(** Regular-expression class [\w]: letters, digits and the underscore. *)
Definition isWord (c : Z) : bool :=
  in_range 97 122 c || in_range 65 90 c || isDigit c || (c =? 95).

(** ECMAScript LineTerminator: LF, CR, U+2028, U+2029. *)
Definition isLineTerminator (c : Z) : bool :=
  (c =? 10) || (c =? 13) || (c =? 8232) || (c =? 8233).

(** Regular-expression class [\s] (WhiteSpace and LineTerminator): TAB, VT,
    FF, the space separators of Unicode (U+0020, U+00A0, U+1680,
    U+2000..U+200A, U+202F, U+205F, U+3000), U+FEFF and the line
    terminators. *)
Definition isSpace (c : Z) : bool :=
  (c =? 9) || (c =? 11) || (c =? 12) || (c =? 32) || (c =? 160)
  || (c =? 5760) || in_range 8192 8202 c || (c =? 8239) || (c =? 8287)
  || (c =? 12288) || (c =? 65279) || isLineTerminator c.

(** The longest prefix of [s] whose units satisfy [p], and what follows:
    a greedy [p*] of a regular expression. *)
Fixpoint span (p : Z -> bool) (s : jsstring) : jsstring * jsstring :=
  match s with
  | c :: t => if p c then let (a, b) := span p t in (c :: a, b) else ([], s)
  | [] => ([], [])
  end.

(** [String.prototype.toLowerCase] on the ASCII range.  Outside it the
    Unicode mapping is not modelled: no unit outside [A-Z] lower-cases to
    an ASCII letter of the literals this program compares with, so the
    comparisons against ".doc" are exact. *)
Definition lower_unit (c : Z) : Z := if in_range 65 90 c then c + 32 else c.
Definition toLowerCase (s : jsstring) : jsstring := map lower_unit s.

(** [String.prototype.trim]: strips [\s] units at both ends. *)
Fixpoint trimStart (s : jsstring) : jsstring :=
  match s with
  | c :: t => if isSpace c then trimStart t else s
  | [] => []
  end.
Definition trim (s : jsstring) : jsstring := rev (trimStart (rev (trimStart s))).

(** The value of a hexadecimal digit, 0 for any other unit. *)
Definition digit_value (c : Z) : Z :=
  if isDigit c then c - 48
  else if in_range 97 102 c then c - 87
  else if in_range 65 70 c then c - 55
  else 0.

(** The mathematical integer that a string of digits of [radix] denotes:
    the [mathInt] of the algorithm of [parseInt]. *)
Definition mathInt (s : jsstring) (radix : Z) : Z :=
  fold_left (fun acc c => acc * radix + digit_value c) s 0.

(** A Number as [parseInt] returns it for a string of digits: an integer
    that is a double, or [Infinity]. *)
Inductive number : Type :=
  | Finite (value : Z)
  | Infinity.

(** The Number value of a mathematical integer [n >= 0]: [n] itself below
    2^53, otherwise the double nearest to it (a significand of 53 bits, a
    tie going to the even significand), and [Infinity] from
    2^1024 - 2^970 on. *)
Definition toNumber (n : Z) : number :=
  if n <? 2 ^ 53 then Finite n
  else
    let e := Z.log2 n - 52 in
    let q := n / 2 ^ e in
    let r := n mod 2 ^ e in
    let half := 2 ^ (e - 1) in
    let significand :=
      if (half <? r) || ((r =? half) && Z.odd q) then q + 1 else q in
    if significand * 2 ^ e <? 2 ^ 1024 then Finite (significand * 2 ^ e) else Infinity.

(** [parseInt(s, radix)] on a string made of digits of that radix: the
    Number value of the integer the digits denote.  For radix 16 the
    language fixes this rounding; for radix 10 it leaves the digits after
    the twentieth to the implementation, and Node's engine rounds the
    exact integer, as here. *)
Definition parseInt (s : jsstring) (radix : Z) : number :=
  toNumber (mathInt s radix).

(** ToUint16: a finite integer modulo 2^16, and 0 for [Infinity]. *)
Definition toUint16 (x : number) : Z :=
  match x with
  | Finite n => n mod 65536
  | Infinity => 0
  end.

(** [String.fromCharCode] with one argument: the unit ToUint16 gives. *)
Definition fromCharCode (x : number) : jsstring := [toUint16 x].

End Js.
Import Js.

(** ** Entity decoder: [decodeHtmlEntities] *)

Module Entities.

(** The table of named entities; [&lt;] and [&gt;] are left out on
    purpose. *)
Definition decodeMap : list (jsstring * jsstring) :=
  [ (js "&amp;", js "&");
    (js "&quot;", [34]);
    (js "&#39;", js "'");
    (js "&#x27;", js "'");
    (js "&apos;", js "'");
    (js "&nbsp;", js " ");
    (js "&copy;", [169]);
    (js "&reg;", [174]);
    (js "&trade;", [8482]);
    (js "&hellip;", [8230]);
    (js "&mdash;", [8212]);
    (js "&ndash;", [8211]);
    (js "&lsquo;", [8216]);
    (js "&rsquo;", [8217]);
    (js "&ldquo;", [8220]);
    (js "&rdquo;", [8221]) ].

Fixpoint assoc (k : jsstring) (m : list (jsstring * jsstring)) : option jsstring :=
  match m with
  | (k', v) :: m' => if str_eqb k k' then Some v else assoc k m'
  | [] => None
  end.

(** Class [[#\w]] of the scanning expression. *)
Definition isEntityChar (c : Z) : bool := (c =? 35) || isWord c.

Definition isHexDigit (c : Z) : bool :=
  isDigit c || in_range 97 102 c || in_range 65 70 c.

(** [/&[#\w]+;/] anchored at the head of [s]: the matched entity and the
    text after it.  The class excludes [;], so the greedy run is the only
    candidate. *)
Definition match_entity (s : jsstring) : option (jsstring * jsstring) :=
  match s with
  | 38 :: t =>
      match span isEntityChar t with
      | ((_ :: _) as body, 59 :: rest) => Some (38 :: body ++ [59], rest)
      | _ => None
      end
  | _ => None
  end.

(** [entity.match(/^&#(\d+);$/)]: the captured digits. *)
Definition numericMatch (entity : jsstring) : option jsstring :=
  match entity with
  | 38 :: 35 :: t =>
      match span isDigit t with
      | ((_ :: _) as ds, [59]) => Some ds
      | _ => None
      end
  | _ => None
  end.

(** [entity.match(/^&#x([0-9a-fA-F]+);$/i)]: the captured digits. *)
Definition hexMatch (entity : jsstring) : option jsstring :=
  match entity with
  | 38 :: 35 :: x :: t =>
      if (x =? 120) || (x =? 88) then
        match span isHexDigit t with
        | ((_ :: _) as hs, [59]) => Some hs
        | _ => None
        end
      else None
  | _ => None
  end.

(** The replacement callback of the scan. *)
Definition decodeEntity (entity : jsstring) : jsstring :=
  match assoc entity decodeMap with
  | Some v => v
  | None =>
      match numericMatch entity with
      | Some ds => fromCharCode (parseInt ds 10)
      | None =>
          match hexMatch entity with
          | Some hs => fromCharCode (parseInt hs 16)
          | None => entity
          end
      end
  end.

(** [s.replace(/&[#\w]+;/g, decodeEntity)]: one left-to-right pass.  After
    a match the scan resumes behind it; [skip] counts the units of the
    current match that are still to be passed over. *)
Fixpoint replaceEntities (skip : nat) (s : jsstring) : jsstring :=
  match s with
  | [] => []
  | c :: t =>
      match skip with
      | S k => replaceEntities k t
      | O =>
          match match_entity s with
          | Some (entity, _) =>
              decodeEntity entity ++ replaceEntities (Nat.pred (List.length entity)) t
          | None => c :: replaceEntities 0 t
          end
      end
  end.

Definition decodePass (s : jsstring) : jsstring := replaceEntities 0 s.

(** The [while (hasEntities && maxIterations > 0)] loop.  The result lists
    the value of [decoded] after each executed pass, in order. *)
Fixpoint decodeLoop (maxIterations : nat) (hasEntities : bool) (decoded : jsstring)
  : list jsstring :=
  match hasEntities, maxIterations with
  | true, S m =>
      let prevDecoded := decoded in
      let decoded := decodePass prevDecoded in
      decoded
        :: decodeLoop m (negb (str_eqb decoded prevDecoded) && includes 38 decoded) decoded
  | _, _ => []
  end.

Definition decodePasses (html : jsstring) : list jsstring :=
  decodeLoop 3 (includes 38 html) html.

Definition decodeHtmlEntities (html : jsstring) : jsstring :=
  List.last (decodePasses html) html.

End Entities.
Import Entities.

(** ** Text normaliser: [convertNumberedListsToBullets], [normalizeText] *)

Module Normalizer.

(** The pattern of [numberedListRegex] without its anchor (a run of white
    space captured as the first group, one or more digits, a period, one
    white space unit), at the head of [s]: the first group and the whole
    matched text.  White space, digits and the period
    are disjoint classes, so the greedy runs are the only candidates. *)
Definition match_numbered (s : jsstring) : option (jsstring * jsstring) :=
  let (ws, r) := span isSpace s in
  match span isDigit r with
  | ((_ :: _) as ds, dot :: sp :: _) =>
      if (dot =? 46) && isSpace sp then Some (ws, ws ++ ds ++ [dot; sp]) else None
  | _ => None
  end.

(** The anchor [^] under the [m] flag: the position is the start of the
    text or follows a line terminator.  [prev] is the unit before the
    position. *)
Definition atLineStart (prev : option Z) : bool :=
  match prev with
  | None => true
  | Some c => isLineTerminator c
  end.

(** [md.replace(numberedListRegex, '$1- ')], scanning from a position
    whose preceding unit is [prev]; [skip] counts the units of the current
    match still to be passed over. *)
Fixpoint replaceNumbered (prev : option Z) (skip : nat) (s : jsstring) : jsstring :=
  match s with
  | [] => []
  | c :: t =>
      match skip with
      | S k => replaceNumbered (Some c) k t
      | O =>
          match (if atLineStart prev then match_numbered s else None) with
          | Some (g1, m) =>
              g1 ++ js "- " ++ replaceNumbered (Some c) (Nat.pred (List.length m)) t
          | None => c :: replaceNumbered (Some c) 0 t
          end
      end
  end.

Definition convertNumberedListsToBullets (md : jsstring) : jsstring :=
  replaceNumbered None 0 md.

(** [nonBreakingSpacesRegex] and [smartQuotesRegex]: one character class
    each. *)
Definition nonBreakingSpacesRegex (c : Z) : bool :=
  (c =? 160) || (c =? 8199) || (c =? 8239) || (c =? 8288) || (c =? 65279).
Definition smartQuotesRegex (c : Z) : bool :=
  (c =? 8220) || (c =? 8221) || (c =? 8216) || (c =? 8217) || (c =? 8211) || (c =? 8212).

Definition nonBreakingSpaceMap : list (Z * jsstring) :=
  [ (160, js " "); (8199, js " "); (8239, js " "); (8288, []); (65279, []) ].
Definition smartQuoteMap : list (Z * jsstring) :=
  [ (8220, [34]); (8221, [34]); (8216, js "'"); (8217, js "'");
    (8211, js "-"); (8212, js "-") ].

(** Property lookup [map[char]]; a missing key reads as [undefined], which
    [replace] would insert as text. *)
Fixpoint lookupChar (c : Z) (m : list (Z * jsstring)) : jsstring :=
  match m with
  | (k, v) :: m' => if c =? k then v else lookupChar c m'
  | [] => js "undefined"
  end.

(** [s.replace(/[class]/g, (char) => map[char])]. *)
Definition replaceChars (cls : Z -> bool) (m : list (Z * jsstring)) (s : jsstring) : jsstring :=
  flat_map (fun c => if cls c then lookupChar c m else [c]) s.

Definition normalizeText (md : jsstring) : jsstring :=
  replaceChars smartQuotesRegex smartQuoteMap
    (replaceChars nonBreakingSpacesRegex nonBreakingSpaceMap md).

(** The Text Normalizer of the pipeline: the two calls [convert] makes, in
    its order. *)
Definition textNormalizer (md : jsstring) : jsstring :=
  normalizeText (convertNumberedListsToBullets md).

(** The unit before the position reached after passing over [m] from a
    position whose preceding unit is [prev]. *)
Definition lastOr (prev : option Z) (m : jsstring) : option Z :=
  fold_left (fun _ c => Some c) m prev.

(** After at least one digit, what the expression still needs: more
    digits, then a period and a white space unit. *)
Definition periodFollows (s : jsstring) : bool :=
  match (span isDigit s).2 with
  | dot :: sp :: _ => (dot =? 46) && isSpace sp
  | _ => false
  end.

(** The two zero-width units that [normalizeText] deletes: U+2060 and
    U+FEFF. *)
Definition zeroWidth (c : Z) : bool := (c =? 8288) || (c =? 65279).

(** What [normalizeText] makes of a unit that it does not delete. *)
Definition normalizeUnit (c : Z) : Z :=
  if (c =? 160) || (c =? 8199) || (c =? 8239) then 32
  else if (c =? 8220) || (c =? 8221) then 34
  else if (c =? 8216) || (c =? 8217) then 39
  else if (c =? 8211) || (c =? 8212) then 45
  else c.

(** A document as its lines: each line with the line terminator that
    ends it, and the last line, which has none. *)
Fixpoint joinLines (ls : list (jsstring * Z)) (final : jsstring) : jsstring :=
  match ls with
  | [] => final
  | (l, t) :: more => l ++ t :: joinLines more final
  end.

(** The rewrite of one line on its own: the expression applied at the
    start of the line. *)
Definition rewriteLine (line : jsstring) : jsstring :=
  match match_numbered line with
  | Some (g, m) => g ++ js "- " ++ skipn (List.length m) line
  | None => line
  end.

(** A line that is a number and a period and nothing more: white space,
    digits, and a period at the end of the line. *)
Definition numberThenPeriod (line : jsstring) : bool :=
  let (ds, r2) := span isDigit (span isSpace line).2 in
  match ds, r2 with
  | _ :: _, [dot] => dot =? 46
  | _, _ => false
  end.

Definition noTerminator (line : jsstring) : bool :=
  forallb (fun c => negb (isLineTerminator c)) line.

(** A line and its terminator, as the per-line account needs them: no
    terminator inside the line, a terminator after it, and the line is
    not a bare number and period. *)
Definition plainLine (lt : jsstring * Z) : bool :=
  noTerminator lt.1 && isLineTerminator lt.2 && negb (numberThenPeriod lt.1).

(** What the scan does behind a line: nothing at the end of the text, and
    at a terminator it copies it and goes on at a line start. *)
Definition behind (tail : jsstring) : jsstring :=
  match tail with
  | [] => []
  | t :: d => t :: replaceNumbered (Some t) 0 d
  end.

End Normalizer.
Import Normalizer.

(** ** Extension validation: [validateFileExtension] *)

Module Validation.

(** The state of the backward scan of Node's [path.extname] (POSIX). *)
Record extState : Type := ExtState {
  startDot : Z;
  startPart : Z;
  endIdx : Z;
  matchedSlash : bool;
  preDotState : Z
}.

(** The loop [for (i = path.length - 1; i >= 0; --i)] of [path.extname]:
    [units] holds the code units from index [i] down to index 0. *)
Fixpoint extnameScan (units : list Z) (i : Z) (st : extState) : extState :=
  match units with
  | [] => st
  | code :: more =>
      if code =? 47 then
        if negb (matchedSlash st) then
          ExtState (startDot st) (i + 1) (endIdx st) (matchedSlash st) (preDotState st)
        else extnameScan more (i - 1) st
      else
        let st1 :=
          if endIdx st =? -1
          then ExtState (startDot st) (startPart st) (i + 1) false (preDotState st)
          else st in
        let st2 :=
          if code =? 46 then
            if startDot st1 =? -1
            then ExtState i (startPart st1) (endIdx st1) (matchedSlash st1) (preDotState st1)
            else if negb (preDotState st1 =? 1)
            then ExtState (startDot st1) (startPart st1) (endIdx st1) (matchedSlash st1) 1
            else st1
          else if negb (startDot st1 =? -1)
          then ExtState (startDot st1) (startPart st1) (endIdx st1) (matchedSlash st1) (-1)
          else st1 in
        extnameScan more (i - 1) st2
  end.

(** The state [extname] starts its scan from. *)
Definition scanStart : extState := ExtState (-1) 0 (-1) true 0.

(** [String.prototype.slice] for indices within the string. *)
Definition slice (s : jsstring) (from to : Z) : jsstring :=
  firstn (Z.to_nat (to - from)) (skipn (Z.to_nat from) s).

(** Node's [path.extname] on POSIX: the extension of the last portion of
    the path, from its last period; empty when that portion has no period
    or only a leading one, or is "..". *)
Definition extname (path : jsstring) : jsstring :=
  let st :=
    extnameScan (rev path) (Z.of_nat (List.length path) - 1) scanStart in
  if (startDot st =? -1) || (endIdx st =? -1) || (preDotState st =? 0)
     || ((preDotState st =? 1) && (startDot st =? endIdx st - 1)
         && (startDot st =? startPart st + 1))
  then []
  else slice path (startDot st) (endIdx st).

(** [String.prototype.lastIndexOf] for a one-unit needle. *)
Fixpoint lastIndexOf (c : Z) (s : jsstring) : option nat :=
  match s with
  | [] => None
  | x :: t =>
      match lastIndexOf c t with
      | Some i => Some (S i)
      | None => if x =? c then Some O else None
      end
  end.

Inductive error : Type :=
  | UnsupportedFileError (message : string).

Definition unsupportedMessage : string :=
  "This tool only supports .docx files, not .doc files. Please save your document as a .docx file and try again.".

(** A call that returns or throws. *)
Inductive outcome (A : Type) : Type :=
  | Returns (a : A)
  | Throws (e : error).
Arguments Returns {A} a.
Arguments Throws {A} e.

(** The extension the function compares.  [pathModule] is the [path]
    import: [Some] of its [extname] under Node, [None] where the module is
    not available and the name is parsed by hand. *)
Definition fileExtension (pathModule : option (jsstring -> jsstring)) (filePath : jsstring)
  : jsstring :=
  match pathModule with
  | Some path_extname => toLowerCase (path_extname filePath)
  | None =>
      let filename := toLowerCase filePath in
      match lastIndexOf 46 filename with
      | Some lastDotIndex => skipn lastDotIndex filename
      | None => []
      end
  end.

Definition validateFileExtension (pathModule : option (jsstring -> jsstring))
    (filePath : jsstring) : outcome unit :=
  if str_eqb (fileExtension pathModule filePath) (js ".doc")
  then Throws (UnsupportedFileError unsupportedMessage)
  else Returns tt.

(** The Node runtime, where [path.extname] exists. *)
Definition onNode : option (jsstring -> jsstring) := Some extname.
(** A runtime without the [path] module. *)
Definition inBrowser : option (jsstring -> jsstring) := None.

(** [s.endsWith(suffix)]. *)
Definition endsWith (suffix s : jsstring) : bool :=
  str_eqb (skipn (List.length s - List.length suffix) s) suffix.

(** A path whose last portion, trailing slashes aside, is a name that is
    not empty followed by ".doc" in any letter case. *)
Definition docNamed (path : jsstring) : Prop :=
  exists base ext slashes,
    path = base ++ ext ++ slashes
    /\ toLowerCase ext = js ".doc"
    /\ forallb (Z.eqb 47) slashes = true
    /\ base <> []
    /\ List.last base 0 <> 47.

(** Tests on the units of a path: all slashes, no slash, no period. *)
Definition allSlash (l : jsstring) : bool := forallb (Z.eqb 47) l.
Definition noSlash (l : jsstring) : bool := forallb (fun c => negb (c =? 47)) l.
Definition noDot (l : jsstring) : bool := forallb (fun c => negb (c =? 46)) l.

(** The invariant of the scan of [extname].  [done] is the part of the
    path already scanned, which starts at index [pos]: either it is made
    of slashes and nothing is recorded yet, or it is a piece [comp] of the
    last portion followed by slashes, [endIdx] is where [comp] ends, and
    [startDot] is the last period of [comp], if it has one, with
    [preDotState] telling whether anything precedes it in [comp]. *)
Definition scanInv (pos : Z) (done : jsstring) (st : extState) : Prop :=
  (endIdx st = -1 /\ startDot st = -1 /\ preDotState st = 0
   /\ matchedSlash st = true /\ allSlash done = true)
  \/ (exists comp slashes,
        done = comp ++ slashes /\ allSlash slashes = true
        /\ comp <> [] /\ noSlash comp = true
        /\ matchedSlash st = false
        /\ endIdx st = pos + Z.of_nat (List.length comp)
        /\ ((startDot st = -1 /\ preDotState st = 0 /\ noDot comp = true)
            \/ (exists x e,
                  comp = x ++ 46 :: e /\ noDot e = true
                  /\ startDot st = pos + Z.of_nat (List.length x)
                  /\ (preDotState st = 0 <-> x = [])))).

End Validation.
Import Validation.

(** ** DOM rewriter: [processHtml] *)

Module Dom.

(** The parsed tree: text nodes and elements.  The root that [parse]
    returns is an element with an empty tag name. *)
#[warnings="-register-all"]
Inductive node : Type :=
  | TextNode (rawText : jsstring)
  | Element (rawTagName : jsstring) (rawAttrs : jsstring) (childNodes : list node).

(** What the program takes from the HTML parser as it is: parsing, the
    decoded text of a subtree, and the nodes the [innerHTML] setter
    installs for a piece of markup. *)
Record parserApi : Type := ParserApi {
  parse : jsstring -> node;
  textContent : node -> jsstring;
  parseFragment : jsstring -> list node
}.

Definition childrenOf (n : node) : list node :=
  match n with
  | TextNode _ => []
  | Element _ _ cs => cs
  end.

(** Selectors match tag names without regard to case. *)
Definition hasTag (name : string) (n : node) : bool :=
  match n with
  | TextNode _ => false
  | Element t _ _ => str_eqb (toLowerCase t) (js name)
  end.

(** The descendants of a node in document order, the node itself left
    out. *)
Fixpoint descendants (n : node) : list node :=
  match n with
  | TextNode _ => []
  | Element _ _ cs => flat_map (fun c => c :: descendants c) cs
  end.

(** [n.querySelectorAll(tag)] and [n.querySelector(tag)] for a tag-name
    selector. *)
Definition querySelectorAll (name : string) (n : node) : list node :=
  List.filter (hasTag name) (descendants n).
Definition querySelector (name : string) (n : node) : option node :=
  head (querySelectorAll name n).

(** [cell.tagName = name] applied to every descendant with tag [from]:
    [row.querySelectorAll(from).forEach(...)]. *)
Fixpoint retagAll (from to : string) (n : node) : node :=
  match n with
  | TextNode _ => n
  | Element t a cs =>
      Element t a
        (map (fun c =>
                match retagAll from to c with
                | Element t' a' cs' =>
                    if hasTag from c then Element (js to) a' cs' else Element t' a' cs'
                | x => x
                end) cs)
  end.

(** The first descendant in document order that satisfies [p], rewritten
    by [f]; [f] returning [None] detaches it ([remove()]).  [None] when no
    descendant satisfies [p]. *)
Fixpoint updateFirst (p : node -> bool) (f : node -> option node) (n : node) : option node :=
  match n with
  | TextNode _ => None
  | Element t a cs =>
      option_map (Element t a)
        ((fix go (l : list node) : option (list node) :=
            match l with
            | [] => None
            | c :: l' =>
                if p c then
                  Some (match f c with Some c' => c' :: l' | None => l' end)
                else
                  match updateFirst p f c with
                  | Some c' => Some (c' :: l')
                  | None => option_map (cons c) (go l')
                  end
            end) cs)
  end.

Definition orSelf (n : node) (r : option node) : node :=
  match r with Some n' => n' | None => n end.

Section WithParser.
Variable api : parserApi.

(** [cells.length === 0 || cells.every((cell) => !cell.textContent?.trim())]. *)
Definition isEmptyRow (firstRow : node) : bool :=
  let cells := querySelectorAll "td" firstRow in
  (Nat.eqb (List.length cells) 0)
  || forallb (fun cell => str_eqb (trim (textContent api cell)) []) cells.

(** The callback of [root.querySelectorAll('table').forEach]. *)
Definition promoteTableHeader (table : node) : node :=
  match querySelector "tr" table with
  | None => table
  | Some firstRow =>
      match querySelector "th" firstRow with
      | Some _ => table
      | None =>
          if isEmptyRow firstRow then
            let removed := orSelf table (updateFirst (hasTag "tr") (fun _ => None) table) in
            orSelf removed
              (updateFirst (hasTag "tr")
                 (fun nextRow => Some (retagAll "td" "th" nextRow)) removed)
          else
            orSelf table
              (updateFirst (hasTag "tr") (fun row => Some (retagAll "td" "th" row)) table)
      end
  end.

(** The table pass.  The tables are visited in document order, an outer
    table before the tables nested in it, and a callback only touches the
    subtree of its table: the callback runs at a table, then the pass
    descends into the children it left.  [fuel] bounds the depth. *)
Fixpoint processTablesFrom (fuel : nat) (n : node) : node :=
  match fuel with
  | O => n
  | S fuel' =>
      match (if hasTag "table" n then promoteTableHeader n else n) with
      | TextNode _ as x => x
      | Element t a cs => Element t a (map (processTablesFrom fuel') cs)
      end
  end.

Fixpoint height (n : node) : nat :=
  match n with
  | TextNode _ => O
  | Element _ _ cs => S (fold_right (fun c h => Nat.max (height c) h) O cs)
  end.

Definition processTables (root : node) : node :=
  processTablesFrom (S (height root)) root.

End WithParser.

(** Elements serialised without content or end tag. *)
Definition voidTags : list string :=
  [ "area"; "base"; "br"; "col"; "embed"; "hr"; "img"; "input"; "link"; "meta";
    "param"; "source"; "track"; "wbr" ]%string.

(** [node.toString()]; the root, whose tag name is empty, serialises as
    its content. *)
Fixpoint toString (n : node) : jsstring :=
  match n with
  | TextNode raw => raw
  | Element t a cs =>
      let inner := flat_map toString cs in
      match t with
      | [] => inner
      | _ =>
          let attrs := match a with [] => [] | _ => js " " ++ a end in
          if existsb (fun v => str_eqb (toLowerCase t) (js v)) voidTags
          then js "<" ++ t ++ attrs ++ js ">"
          else js "<" ++ t ++ attrs ++ js ">" ++ inner ++ js "</" ++ t ++ js ">"
      end
  end.

(** The [innerHTML] getter. *)
Definition innerHTML (n : node) : jsstring := flat_map toString (childrenOf n).

(** [unicodeBullets]. *)
Definition unicodeBullets : list Z := [8226; 9702; 9642; 9643; 8227; 8259; 8729; 183].
Definition isBullet (c : Z) : bool := existsb (Z.eqb c) unicodeBullets.

(** [s.replace(bulletRegex, '')]: white space, one bullet glyph and white
    space again, at the very start of [s]. *)
Definition stripBullet (s : jsstring) : jsstring :=
  match snd (span isSpace s) with
  | b :: r => if isBullet b then snd (span isSpace r) else s
  | [] => s
  end.

Section Lists.
Variable api : parserApi.

(** The list pass, [root.querySelectorAll('ul li').forEach]: [inUl] says
    that an ancestor of [n] is a [ul].  An item whose markup changes gets
    the nodes parsed from the cleaned markup; its former descendants are
    detached, so the items among them no longer reach the tree. *)
Fixpoint stripBullets (inUl : bool) (n : node) : node :=
  match n with
  | TextNode _ => n
  | Element t a cs =>
      let textContent := innerHTML n in
      let cleanedContent := stripBullet textContent in
      if inUl && hasTag "li" n && negb (str_eqb cleanedContent textContent)
      then Element t a (parseFragment api cleanedContent)
      else Element t a (map (stripBullets (inUl || hasTag "ul" n)) cs)
  end.

Definition processHtml (html : jsstring) : jsstring :=
  toString (stripBullets false (processTables api (parse api html))).

End Lists.

(** The descendants of a list of siblings, in document order. *)
Definition descendantsOfAll (l : list node) : list node :=
  flat_map (fun c => c :: descendants c) l.

(** [updateFirst] on a list of children: the loop inside it. *)
Fixpoint updateFirstList (p : node -> bool) (f : node -> option node) (l : list node)
  : option (list node) :=
  match l with
  | [] => None
  | c :: l' =>
      if p c then Some (match f c with Some c' => c' :: l' | None => l' end)
      else
        match updateFirst p f c with
        | Some c' => Some (c' :: l')
        | None => option_map (cons c) (updateFirstList p f l')
        end
  end.

(** [detached r n n']: [n'] is [n] with one occurrence of the subtree [r]
    taken out of its parent's children, everything else in place. *)
Inductive detached (r : node) : node -> node -> Prop :=
  | detached_child t a pre post :
      detached r (Element t a (pre ++ r :: post)) (Element t a (pre ++ post))
  | detached_below t a pre c c' post :
      detached r c c' ->
      detached r (Element t a (pre ++ c :: post)) (Element t a (pre ++ c' :: post)).

(** A parser that keeps markup as one text node and decodes nothing; it
    serves to run the rewrites on trees built by hand. *)
Definition rawTextOf : node -> jsstring :=
  fix go (n : node) : jsstring :=
    match n with
    | TextNode raw => raw
    | Element _ _ cs => flat_map go cs
    end.
Definition textOnlyParser : parserApi :=
  ParserApi (fun s => Element [] [] [TextNode s]) rawTextOf
            (fun s => match s with [] => [] | _ => [TextNode s] end).

(** A table has no row after its first one: every row of the table is
    the first row or lies inside it. *)
Definition noSubsequentRow (table firstRow : node) : Prop :=
  querySelectorAll "tr" table = firstRow :: querySelectorAll "tr" firstRow.

(** The table [<table><tr><td></td></tr></table>] and its row. *)
Definition blankRow : node := Element (js "tr") [] [Element (js "td") [] []].
Definition blankRowTable : node := Element (js "table") [] [blankRow].

(** The subtree at a position: [path] gives, from the node down, the
    index of the child to enter. *)
Fixpoint subtreeAt (path : list nat) (n : node) : option node :=
  match path with
  | [] => Some n
  | i :: rest =>
      match nth_error (childrenOf n) i with
      | Some c => subtreeAt rest c
      | None => None
      end
  end.

(** Whether the position lies inside a table: the node or a node on the
    way down to the position, the position itself left out, is a
    [table]. *)
Fixpoint insideTable (path : list nat) (n : node) : bool :=
  match path with
  | [] => false
  | i :: rest =>
      hasTag "table" n
      || match nth_error (childrenOf n) i with
         | Some c => insideTable rest c
         | None => false
         end
  end.

(** The table [<table><tr><td>k<table><tr><td></td></tr></table></td></tr>
    </table>] under the root: the table [blankRowTable] inside the first
    row of another table. *)
Definition nestedBlankRowTable : node :=
  Element [] []
    [Element (js "table") []
       [Element (js "tr") [] [Element (js "td") [] [TextNode (js "k"); blankRowTable]]]].

(** What [retagAll] makes of a child: the child with its own descendants
    retagged, and retagged itself when its tag is [from]. *)
Definition retagNode (from to : string) (c : node) : node :=
  match retagAll from to c with
  | Element t' a' cs' =>
      if hasTag from c then Element (js to) a' cs' else Element t' a' cs'
  | x => x
  end.

(** The table [<table><tr><td>Name</td><td>Age</td></tr><tr><td>Ada</td>
    <td>36</td></tr></table>] and its first row; the same table with the
    row [<tr><td></td></tr>] in front. *)
Definition nameRow : node :=
  Element (js "tr") []
    [Element (js "td") [] [TextNode (js "Name")]; Element (js "td") [] [TextNode (js "Age")]].
Definition adaRow : node :=
  Element (js "tr") []
    [Element (js "td") [] [TextNode (js "Ada")]; Element (js "td") [] [TextNode (js "36")]].
Definition nameTable : node := Element (js "table") [] [nameRow; adaRow].

(** The list [<ul><li><ol><li>(bullet) x</li></ol></li></ul>] under the
    root, and the list [<ol><li>(bullet) x</li></ol>] under the root. *)
Definition bulletItem : node := Element (js "li") [] [TextNode ([8226] ++ js " x")].
Definition orderedInUnordered : node :=
  Element [] []
    [Element (js "ul") [] [Element (js "li") [] [Element (js "ol") [] [bulletItem]]]].
Definition orderedAlone : node := Element [] [] [Element (js "ol") [] [bulletItem]].

End Dom.
Import Dom.

(** ** Markdown renderer: [getTurndownService], [htmlToMd] *)

Module Renderer.

(** The values an options object may hold. *)
Inductive jsvalue : Type :=
  | VString (s : string)
  | VNumber (n : Z)
  | VBool (b : bool)
  | VUndefined.

(** [defaultTurndownOptions]. *)
Definition defaultTurndownOptions : gmap string jsvalue :=
  {[ "headingStyle" := VString "atx";
     "codeBlockStyle" := VString "fenced";
     "bulletListMarker" := VString "-" ]}.

(** [{ ...first, ...second }]: the properties of both, those of [second]
    winning where both have the key. *)
Definition spread (first second : gmap string jsvalue) : gmap string jsvalue :=
  second ∪ first.

Inductive plugin : Type := gfm.

(** A [TurndownService] object: the options it was constructed with and
    the plugins given to [use]. *)
Record turndownService : Type := TurndownService {
  serviceOptions : gmap string jsvalue;
  servicePlugins : list plugin
}.

(** What a call does to the module variable and to the object store. *)
Inductive access : Type :=
  | ReadInstance
  | WriteInstance (ref : nat)
  | Construct (ref : nat).

(** The state of the module: the objects constructed so far (a reference
    is an index into them), the variable [turndownServiceInstance], and
    the record of accesses made. *)
Record world : Type := World {
  objects : list turndownService;
  turndownServiceInstance : option nat;
  accesses : list access
}.

Definition initialWorld : world := World [] None [].

Definition M (A : Type) : Type := world -> A * world.
Definition ret {A : Type} (a : A) : M A := fun w => (a, w).
Definition bind {A B : Type} (m : M A) (k : A -> M B) : M B :=
  fun w => let (a, w') := m w in k a w'.

Notation "'let*' x := m 'in' k" := (bind m (fun x => k))
  (at level 10, x name, m at level 100, k at level 200).
Notation "'do' m 'then' k" := (bind m (fun _ => k))
  (at level 10, m at level 100, k at level 200).

(** [new TurndownService(options)]. *)
Definition newTurndownService (options : gmap string jsvalue) : M nat :=
  fun w =>
    let ref := List.length (objects w) in
    (ref, World (objects w ++ [TurndownService options []])
                (turndownServiceInstance w)
                (accesses w ++ [Construct ref])).

(** [service.use(plugin)]: updates the object in place. *)
Definition use (ref : nat) (p : plugin) : M unit :=
  fun w =>
    (tt, World (alter (fun s => TurndownService (serviceOptions s) (servicePlugins s ++ [p]))
                  ref (objects w))
               (turndownServiceInstance w) (accesses w)).

Definition readInstance : M (option nat) :=
  fun w => (turndownServiceInstance w,
            World (objects w) (turndownServiceInstance w) (accesses w ++ [ReadInstance])).

Definition writeInstance (ref : nat) : M unit :=
  fun w => (tt, World (objects w) (Some ref) (accesses w ++ [WriteInstance ref])).

(** [Object.keys(options).length > 0]. *)
Definition hasKeys (options : gmap string jsvalue) : bool :=
  negb (Nat.eqb (size options) 0).

Definition getTurndownService (options : gmap string jsvalue) : M nat :=
  if hasKeys options then
    let* service := newTurndownService (spread options defaultTurndownOptions) in
    do use service gfm then
    ret service
  else
    let* instance := readInstance in
    match instance with
    | None =>
        let* service := newTurndownService defaultTurndownOptions in
        do writeInstance service then
        let* created := readInstance in
        do match created with
           | Some ref => use ref gfm
           | None => ret tt
           end then
        let* result := readInstance in
        ret (default service result)
    | Some _ =>
        let* result := readInstance in
        ret (default 0%nat result)
    end.

(** A sequence of calls, one per conversion, each with the render options
    of its conversion; the references returned, in order. *)
Fixpoint getTurndownServices (calls : list (gmap string jsvalue)) : M (list nat) :=
  match calls with
  | [] => ret []
  | options :: more =>
      let* service := getTurndownService options in
      let* rest := getTurndownServices more in
      ret (service :: rest)
  end.

(** The external render engine: the Markdown a service object produces
    for a piece of HTML. *)
Definition engine : Type := turndownService -> jsstring -> jsstring.

Definition htmlToMd (turndown : engine) (html : jsstring) (options : gmap string jsvalue)
  : M jsstring :=
  let decodedHtml := decodeHtmlEntities html in
  let* service := getTurndownService options in
  fun w =>
    (trim (turndown (default (TurndownService ∅ []) (objects w !! service)) decodedHtml), w).

(** The writes to the module variable that a record of accesses holds. *)
Definition isWrite (a : access) : bool :=
  match a with WriteInstance _ => true | _ => false end.
Definition isRead (a : access) : bool :=
  match a with ReadInstance => true | _ => false end.
Definition writes (l : list access) : nat := List.length (List.filter isWrite l).

(** The invariant of the cache: the variable is unset and was never
    written, or it holds a constructed object and was written once. *)
Definition cacheInv (w : world) : Prop :=
  match turndownServiceInstance w with
  | None => writes (accesses w) = 0%nat
  | Some ref => writes (accesses w) = 1%nat /\ (ref < List.length (objects w))%nat
  end.

(** A service object as every call leaves it: the plugin added once, and
    every default option at its default value. *)
Definition configured (s : turndownService) : Prop :=
  servicePlugins s = [gfm]
  /\ forall k v, defaultTurndownOptions !! k = Some v -> serviceOptions s !! k = Some v.

Definition isSet (w : world) : bool :=
  match turndownServiceInstance w with Some _ => true | None => false end.

(** The invariant of the object store: the invariant of the cache, every
    object configured, and the variable, when set, holding the object made
    from the defaults alone. *)
Definition storeInv (w : world) : Prop :=
  cacheInv w
  /\ Forall configured (objects w)
  /\ match turndownServiceInstance w with
     | Some ref => objects w !! ref = Some (TurndownService defaultTurndownOptions [gfm])
     | None => True
     end.

End Renderer.
Import Renderer.

(** ** Pipeline orchestrator: [convert] *)

Module Pipeline.

(** [input: string | ArrayBuffer]. *)
Inductive input : Type :=
  | PathInput (path : jsstring)
  | BufferInput (arrayBuffer : list Z).

(** [{ path } | { arrayBuffer }]. *)
Inductive inputObj : Type :=
  | WithPath (path : jsstring)
  | WithArrayBuffer (arrayBuffer : list Z).

Record convertOptions : Type := ConvertOptions {
  mammothOptions : option (gmap string jsvalue);
  turndownOptions : option (gmap string jsvalue)
}.

(** The external engines the pipeline calls after extraction. *)
Record engines : Type := Engines {
  html : parserApi;
  turndown : engine;
  applyLintFixes : jsstring -> jsstring
}.

(** [lint]: the fixes of the linter applied, the result trimmed. *)
Definition lint (e : engines) (md : jsstring) : jsstring :=
  trim (applyLintFixes e md).

(** The statements of [convert] after the extraction has resolved with
    [value]. *)
Definition afterExtraction (e : engines) (options : convertOptions) (value : jsstring)
  : M jsstring :=
  let processedHtml := processHtml (html e) value in
  let* md := htmlToMd (turndown e) processedHtml (default ∅ (turndownOptions options)) in
  let mdWithBullets := convertNumberedListsToBullets md in
  let normalizedMd := normalizeText mdWithBullets in
  ret (lint e normalizedMd).

(** A run of [convert] up to its first suspension: it has thrown, or it
    has called the extraction with an input object and options and waits
    for the HTML to resume with. *)
Inductive conversion : Type :=
  | Rejected (e : error)
  | Extraction (obj : inputObj) (options : option (gmap string jsvalue))
      (resume : jsstring -> M jsstring).

Definition convert (pathModule : option (jsstring -> jsstring)) (e : engines)
    (i : input) (options : convertOptions) : conversion :=
  match i with
  | PathInput path =>
      match validateFileExtension pathModule path with
      | Throws err => Rejected err
      | Returns _ =>
          Extraction (WithPath path) (mammothOptions options) (afterExtraction e options)
      end
  | BufferInput buffer =>
      Extraction (WithArrayBuffer buffer) (mammothOptions options) (afterExtraction e options)
  end.

(** The extraction calls a run has made. *)
Definition extractionCalls (c : conversion) : list inputObj :=
  match c with
  | Rejected _ => []
  | Extraction obj _ _ => [obj]
  end.

End Pipeline.
Import Pipeline.

(** ** HTTP endpoints: [escapeHtml] and the two upload handlers *)

Module Server.

(** [s.replace(/c/g, replacement)] for a one-unit pattern. *)
Definition replaceUnit (c : Z) (replacement : jsstring) (s : jsstring) : jsstring :=
  flat_map (fun x => if x =? c then replacement else [x]) s.

(** [escapeHtml]: the five replacements in the order of the source, the
    ampersand first; a falsy argument gives the empty string. *)
Definition escapeHtml (str : jsstring) : jsstring :=
  match str with
  | [] => []
  | _ =>
      replaceUnit 39 (js "&#39;")
        (replaceUnit 34 (js "&quot;")
           (replaceUnit 62 (js "&gt;")
              (replaceUnit 60 (js "&lt;")
                 (replaceUnit 38 (js "&amp;") str))))
  end.

(** [req.file] as the upload middleware leaves it. *)
Record upload : Type := Upload {
  uploadPath : jsstring;
  originalname : jsstring;
  uploadSize : Z
}.

(** What a handler sends. *)
Inductive body : Type :=
  | Html (text : jsstring)
  | PlainText (text : jsstring)
  | JsonFailure (errorText messageText : jsstring)
  | JsonSuccess (markdown originalFilename : jsstring) (size : Z).

Record response : Type := Response { status : Z; sent : body }.

(** A handler ends by sending a response or by throwing on to the
    framework. *)
Inductive served : Type :=
  | Sent (r : response)
  | Uncaught.

(** How the promise of [convert] settles: with the Markdown, with an
    error of the program, or with a failure of the extraction. *)
Inductive settled : Type :=
  | Fulfilled (md : jsstring)
  | RejectedWith (err : error)
  | RejectedOther.

(** [await convert(input, options)]: [extract] is the external extraction,
    [None] when it fails. *)
Definition awaitConvert (pathModule : option (jsstring -> jsstring)) (e : engines)
    (extract : inputObj -> option (gmap string jsvalue) -> option jsstring)
    (i : input) (options : convertOptions) (w : world) : settled * world :=
  match convert pathModule e i options with
  | Rejected err => (RejectedWith err, w)
  | Extraction obj mammoth resume =>
      match extract obj mammoth with
      | Some value => let (md, w') := resume value w in (Fulfilled md, w')
      | None => (RejectedOther, w)
      end
  end.

(** [!s] for a string. *)
Definition falsy (s : jsstring) : bool :=
  match s with [] => true | _ => false end.

(** The guard both handlers start with: the file of the request when it
    is there with a path and a name. *)
Definition uploaded (file : option upload) : option upload :=
  match file with
  | Some f => if falsy (uploadPath f) || falsy (originalname f) then None else Some f
  | None => None
  end.

Definition messageOf (err : error) : jsstring :=
  match err with UnsupportedFileError message => js message end.

(** The handler of [POST /raw]. *)
Definition rawHandler (pathModule : option (jsstring -> jsstring)) (e : engines)
    (extract : inputObj -> option (gmap string jsvalue) -> option jsstring)
    (file : option upload) (w : world) : served * world :=
  match uploaded file with
  | None => (Sent (Response 400 (Html (js "You must upload a document to convert."))), w)
  | Some f =>
      match (if falsy (originalname f) then Returns tt
             else validateFileExtension pathModule (originalname f)) with
      | Throws err => (Sent (Response 400 (Html (escapeHtml (messageOf err)))), w)
      | Returns _ =>
          match awaitConvert pathModule e extract (PathInput (uploadPath f))
                  (ConvertOptions None None) w with
          | (Fulfilled md, w') => (Sent (Response 200 (PlainText md)), w')
          | (RejectedWith err, w') =>
              (Sent (Response 400 (Html (escapeHtml (messageOf err)))), w')
          | (RejectedOther, w') => (Uncaught, w')
          end
      end
  end.

(** The handler of [POST /api/convert]. *)
Definition apiHandler (pathModule : option (jsstring -> jsstring)) (e : engines)
    (extract : inputObj -> option (gmap string jsvalue) -> option jsstring)
    (file : option upload) (w : world) : served * world :=
  match uploaded file with
  | None =>
      (Sent (Response 400
               (JsonFailure (js "You must upload a file to convert.")
                  (js "No file provided in the request."))), w)
  | Some f =>
      match (if falsy (originalname f) then Returns tt
             else validateFileExtension pathModule (originalname f)) with
      | Throws err =>
          (Sent (Response 400 (JsonFailure (js "Invalid file type") (messageOf err))), w)
      | Returns _ =>
          match awaitConvert pathModule e extract (PathInput (uploadPath f))
                  (ConvertOptions None None) w with
          | (Fulfilled markdown, w') =>
              (Sent (Response 200
                       (JsonSuccess markdown (originalname f) (uploadSize f))), w')
          | (RejectedWith err, w') =>
              (Sent (Response 400 (JsonFailure (js "Conversion failed") (messageOf err))), w')
          | (RejectedOther, w') =>
              (Sent (Response 500
                       (JsonFailure (js "Internal server error")
                          (js "An unexpected error occurred during conversion."))), w')
          end
      end
  end.

(** What the five replacements of [escapeHtml] make of one unit. *)
Definition escapeUnit (c : Z) : jsstring :=
  if c =? 38 then js "&amp;"
  else if c =? 60 then js "&lt;"
  else if c =? 62 then js "&gt;"
  else if c =? 34 then js "&quot;"
  else if c =? 39 then js "&#39;"
  else [c].

(** The units that open or close markup or an attribute value. *)
Definition markupUnit (c : Z) : bool :=
  (c =? 60) || (c =? 62) || (c =? 34) || (c =? 39).

(** The units other than the ampersand, the less-than and the
    greater-than sign: [escapeHtml] writes entities for these three that
    [decodeHtmlEntities] does not read back. *)
Definition plainUnit (c : Z) : bool :=
  negb ((c =? 38) || (c =? 60) || (c =? 62)).

End Server.
Import Server.

(** * Properties *)

Example normalizer_tests :
  convertNumberedListsToBullets (js "  3. Buy milk") = js "  - Buy milk"
  /\ convertNumberedListsToBullets (js "Not a list: 3. foo") = js "Not a list: 3. foo"
  /\ convertNumberedListsToBullets (js "1. a" ++ [10] ++ js "22. b" ++ [10] ++ js "x 3. c")
     = js "- a" ++ [10] ++ js "- b" ++ [10] ++ js "x 3. c"
  /\ convertNumberedListsToBullets (js "1." ++ [9] ++ js "foo") = js "- foo"
  /\ convertNumberedListsToBullets (js "1." ++ [10] ++ js "2. x") = js "- - x"
  /\ textNormalizer ([8288] ++ js "1. x") = js "1. x"
  /\ textNormalizer (js "1. x") = js "- x"
  /\ normalizeText ([8220] ++ js "a" ++ [8221; 8212; 160] ++ js "b") = [34] ++ js "a" ++ [34] ++ js "- b".
Proof. vm_compute. repeat split. Qed.

Example decode_tests :
  decodeHtmlEntities (js "a &#65;&#x42;&#X43; &lt; &foo; &#39;&nbsp;&quot;")
  = js "a ABC &lt; &foo; ' " ++ [34]
  /\ decodeHtmlEntities (js "no entity") = js "no entity"
  /\ decodePasses (js "no entity") = []
  /\ decodePasses (js "&amp;amp;amp;amp;") = [js "&amp;amp;amp;"; js "&amp;amp;"; js "&amp;"].
Proof. vm_compute. repeat split. Qed.

(** References above 2^53: [parseInt] returns the nearest double, and the
    unit is taken from that number. *)
Example rounded_reference_tests :
  toNumber (2 ^ 53 + 1) = Finite (2 ^ 53)
  /\ toNumber (2 ^ 53 + 3) = Finite (2 ^ 53 + 4)
  /\ toNumber (2 ^ 1024 - 2 ^ 970 - 1) = Finite (2 ^ 1024 - 2 ^ 971)
  /\ toNumber (2 ^ 1024 - 2 ^ 970) = Infinity
  /\ decodeHtmlEntities (js "&#9007199254740993;") = [0]
  /\ decodeHtmlEntities (js "&#x20000000000001;") = [0]
  /\ decodeHtmlEntities (js "&#9007199254740995;") = [4]
  /\ decodeHtmlEntities (js "&#0000000000000000000065;") = js "A".
Proof. vm_compute. repeat split. Qed.

Example extname_tests :
  extname (js "index.html") = js ".html"
  /\ extname (js "index.coffee.md") = js ".md"
  /\ extname (js "index.") = js "."
  /\ extname (js "index") = []
  /\ extname (js ".index") = []
  /\ extname (js ".index.md") = js ".md"
  /\ extname (js "/tmp/a.b/file") = []
  /\ extname (js "dir/report.DOC") = js ".DOC"
  /\ extname (js "report.doc/") = js ".doc"
  /\ extname (js "..") = []
  /\ extname (js "..doc") = js ".doc"
  /\ extname (js "dir/.doc") = []
  /\ fileExtension inBrowser (js "dir/.DOC") = js ".doc"
  /\ fileExtension inBrowser (js "a.doc/b") = js ".doc/b".
Proof. vm_compute. repeat split. Qed.

(** ** The entity-decoding loop *)

Section DecodeLoop.

(** What the loop guarantees for any bound and any initial flag: at most
    [maxIterations] passes, each pass scans the output of the one before,
    every pass but the last changed the text, and a false flag means no
    pass. *)
Lemma decodeLoop_spec (maxIterations : nat) :
  forall (hasEntities : bool) (decoded : jsstring),
    let passes := decodeLoop maxIterations hasEntities decoded in
    (List.length passes <= maxIterations)%nat
    /\ (forall i, (i < List.length passes)%nat ->
          nth i passes [] = decodePass (nth i (decoded :: passes) []))
    /\ (forall i, (S i < List.length passes)%nat ->
          nth i passes [] <> nth i (decoded :: passes) [])
    /\ (hasEntities = false -> passes = []).
Proof.
  induction maxIterations as [|m IH]; intros b s; cbn zeta.
  - destruct b; cbn; repeat split; intros; try lia; reflexivity.
  - destruct b; cbn [decodeLoop].
    2:{ cbn; repeat split; intros; try lia; reflexivity. }
    set (d := decodePass s).
    set (b' := negb (str_eqb d s) && includes 38 d).
    destruct (IH b' d) as (Hlen & Hscan & Hchg & Hnone).
    repeat split.
    + cbn [List.length]. lia.
    + intros [|j] Hj.
      * reflexivity.
      * cbn [List.length] in Hj. cbn [nth]. apply Hscan. lia.
    + intros [|j] Hj; cbn [List.length] in Hj.
      * cbn [nth]. intros Heq.
        destruct b' eqn:Eb.
        -- subst b'. apply andb_true_iff in Eb as [Eb _].
           apply negb_true_iff in Eb. unfold str_eqb in Eb.
           apply bool_decide_eq_false in Eb. contradiction.
        -- rewrite (Hnone eq_refl) in Hj. cbn in Hj. lia.
      * cbn [nth]. apply Hchg. lia.
    + discriminate.
Qed.

Lemma decodePasses_no_ampersand (html : jsstring) :
  includes 38 html = false -> decodePasses html = [] /\ decodeHtmlEntities html = html.
Proof.
  intros H. unfold decodeHtmlEntities, decodePasses. rewrite H.
  split; reflexivity.
Qed.

End DecodeLoop.

(** C7: for every input the loop of [decodeHtmlEntities] runs at most 3
    scan-and-replace passes, each on the output of the pass before; a pass
    that leaves the text unchanged is the last one (every pass that is
    followed by another changed the text); and an input without an
    ampersand gets no pass and is returned as it is. *)
Theorem decode_loop_at_most_three_passes (html : jsstring) :
  let passes := decodePasses html in
  (List.length passes <= 3)%nat
  /\ (forall i, (i < List.length passes)%nat ->
        nth i passes [] = decodePass (nth i (html :: passes) []))
  /\ (forall i, (S i < List.length passes)%nat ->
        nth i passes [] <> nth i (html :: passes) [])
  /\ (includes 38 html = false -> passes = [] /\ decodeHtmlEntities html = html).
Proof.
  cbn zeta. unfold decodePasses.
  destruct (decodeLoop_spec 3 (includes 38 html) html) as (Hlen & Hscan & Hchg & _).
  repeat split; auto; apply decodePasses_no_ampersand; assumption.
Qed.

(** C10: each pass of [decodeHtmlEntities] scans the output of the pass
    before, so an ampersand encoded twice or three times is decoded all the
    way: "&amp;amp;" and "&amp;amp;amp;" both give "&". *)
Theorem decode_rescans_nested_ampersands :
  (forall html i, (i < List.length (decodePasses html))%nat ->
     nth i (decodePasses html) [] = decodePass (nth i (html :: decodePasses html) []))
  /\ decodePasses (js "&amp;amp;") = [js "&amp;"; js "&"; js "&"]
  /\ decodeHtmlEntities (js "&amp;amp;") = js "&"
  /\ decodePasses (js "&amp;amp;amp;") = [js "&amp;amp;"; js "&amp;"; js "&"]
  /\ decodeHtmlEntities (js "&amp;amp;amp;") = js "&".
Proof.
  split.
  - intros html i Hi. unfold decodePasses in *.
    destruct (decodeLoop_spec 3 (includes 38 html) html) as (_ & Hscan & _).
    apply Hscan, Hi.
  - vm_compute. repeat split.
Qed.

(** C5, at the input "&#128512;" (and its hexadecimal form "&#x1F600;"):
    the reference names the code point U+1F600, whose UTF-16 form is the
    pair D83D DE00; [decodeHtmlEntities] returns the single unit F600, the
    number taken modulo 2^16 by [String.fromCharCode]. *)
Theorem decode_astral_reference_truncated :
  decodeHtmlEntities (js "&#128512;") = [62976]
  /\ decodeHtmlEntities (js "&#x1F600;") = [62976]
  /\ 128512 mod 65536 = 62976
  /\ decodeHtmlEntities (js "&#128512;") <> [55357; 56832].
Proof.
  vm_compute. repeat split; discriminate.
Qed.

(** ** The renderer cache *)

Section RendererCache.

Implicit Types (options : gmap string jsvalue) (w : world).

Lemma hasKeys_true options : hasKeys options = true <-> options <> ∅.
Proof.
  unfold hasKeys. rewrite negb_true_iff, Nat.eqb_neq.
  split; intros H E; apply H.
  - subst. apply map_size_empty.
  - apply map_size_empty_iff. exact E.
Qed.

Lemma hasKeys_false options : hasKeys options = false <-> options = ∅.
Proof.
  unfold hasKeys. rewrite negb_false_iff, Nat.eqb_eq. apply map_size_empty_iff.
Qed.

Lemma alter_last (f : turndownService -> turndownService) (l : list turndownService) x :
  alter f (List.length l) (l ++ [x]) = l ++ [f x].
Proof. induction l as [|y l IH]; cbn; [reflexivity | f_equal; exact IH]. Qed.

(** A call with options: one object constructed from the spread, the
    plugin added, the variable neither read nor written. *)
Lemma getTurndownService_custom options w :
  options <> ∅ ->
  getTurndownService options w
  = (List.length (objects w),
     World (objects w ++ [TurndownService (spread options defaultTurndownOptions) [gfm]])
           (turndownServiceInstance w)
           (accesses w ++ [Construct (List.length (objects w))])).
Proof.
  intros H. apply hasKeys_true in H. unfold getTurndownService. rewrite H.
  unfold bind, newTurndownService, use, ret. cbn.
  rewrite alter_last. reflexivity.
Qed.

Lemma writes_app l1 l2 : writes (l1 ++ l2) = (writes l1 + writes l2)%nat.
Proof. unfold writes. rewrite List.filter_app, List.length_app. reflexivity. Qed.

(** A call without options when the variable is unset. *)
Lemma getTurndownService_first w :
  turndownServiceInstance w = None ->
  getTurndownService ∅ w
  = (List.length (objects w),
     World (objects w ++ [TurndownService defaultTurndownOptions [gfm]])
           (Some (List.length (objects w)))
           (accesses w ++ [ReadInstance] ++ [Construct (List.length (objects w))]
              ++ [WriteInstance (List.length (objects w))] ++ [ReadInstance] ++ [ReadInstance])).
Proof.
  intros H. unfold getTurndownService.
  replace (hasKeys ∅) with false by (symmetry; apply hasKeys_false; reflexivity).
  unfold bind, readInstance, newTurndownService, writeInstance, use, ret. cbn.
  rewrite H. cbn. rewrite alter_last.
  repeat rewrite <- app_assoc. reflexivity.
Qed.

(** A call without options when the variable is set. *)
Lemma getTurndownService_cached w ref :
  turndownServiceInstance w = Some ref ->
  getTurndownService ∅ w
  = (ref, World (objects w) (Some ref) (accesses w ++ [ReadInstance] ++ [ReadInstance])).
Proof.
  intros H. unfold getTurndownService.
  replace (hasKeys ∅) with false by (symmetry; apply hasKeys_false; reflexivity).
  unfold bind, readInstance, ret. cbn. rewrite H. cbn.
  repeat rewrite <- app_assoc. reflexivity.
Qed.

(** One call keeps the invariant and the objects, keeps a set variable as
    it is, and returns what the variable holds when it has no options;
    with options it returns a new object and leaves the variable alone. *)
Lemma getTurndownService_step options w :
  cacheInv w ->
  let r := getTurndownService options w in
  cacheInv r.2
  /\ (List.length (objects w) <= List.length (objects r.2))%nat
  /\ (forall ref, turndownServiceInstance w = Some ref ->
        turndownServiceInstance r.2 = Some ref)
  /\ (forall ref, turndownServiceInstance w = None ->
        turndownServiceInstance r.2 = Some ref -> (List.length (objects w) <= ref)%nat)
  /\ (options = ∅ -> turndownServiceInstance r.2 = Some r.1)
  /\ (options <> ∅ ->
        turndownServiceInstance r.2 = turndownServiceInstance w
        /\ r.1 = List.length (objects w)
        /\ (r.1 < List.length (objects r.2))%nat).
Proof.
  intros Hinv. cbn zeta.
  destruct (decide (options = ∅)) as [-> | Hne].
  - destruct (turndownServiceInstance w) as [ref|] eqn:Ew.
    + rewrite (getTurndownService_cached w ref Ew).
      cbn [fst snd accesses objects turndownServiceInstance].
      unfold cacheInv in *. rewrite Ew in Hinv.
      cbn [accesses objects turndownServiceInstance].
      rewrite writes_app. cbn.
      repeat split; try lia; try congruence; tauto.
    + rewrite (getTurndownService_first w Ew).
      cbn [fst snd accesses objects turndownServiceInstance].
      unfold cacheInv in *. rewrite Ew in Hinv.
      cbn [accesses objects turndownServiceInstance].
      rewrite writes_app, length_app. cbn.
      repeat split; try lia; try congruence; try tauto.
      intros ref _ E. inversion E. lia.
  - rewrite (getTurndownService_custom options w Hne).
    cbn [fst snd accesses objects turndownServiceInstance].
    unfold cacheInv in *. cbn [accesses objects turndownServiceInstance].
    rewrite writes_app, length_app. cbn.
    destruct (turndownServiceInstance w) as [ref|] eqn:Ew.
    + destruct Hinv as [Hw Hr]. repeat split; try lia; try congruence.
    + repeat split; try lia; try congruence.
Qed.

Lemma getTurndownServices_cons options (calls : list (gmap string jsvalue)) w :
  getTurndownServices (options :: calls) w
  = (let (service, w1) := getTurndownService options w in
     let (rest, w2) := getTurndownServices calls w1 in
     (service :: rest, w2)).
Proof.
  cbn [getTurndownServices]. unfold bind, ret.
  destruct (getTurndownService options w) as [service w1].
  destruct (getTurndownServices calls w1). reflexivity.
Qed.

(** A sequence of calls from a state that satisfies the invariant. *)
Lemma getTurndownServices_inv (calls : list (gmap string jsvalue)) :
  forall w, cacheInv w ->
    let r := getTurndownServices calls w in
    cacheInv r.2
    /\ (List.length (objects w) <= List.length (objects r.2))%nat
    /\ List.length r.1 = List.length calls
    /\ (forall ref, turndownServiceInstance w = Some ref ->
          turndownServiceInstance r.2 = Some ref)
    /\ (forall ref, turndownServiceInstance w = None ->
          turndownServiceInstance r.2 = Some ref -> (List.length (objects w) <= ref)%nat)
    /\ (forall i ref, calls !! i = Some ∅ -> r.1 !! i = Some ref ->
          turndownServiceInstance r.2 = Some ref)
    /\ (forall i o ref, calls !! i = Some o -> o <> ∅ -> r.1 !! i = Some ref ->
          turndownServiceInstance r.2 <> Some ref)
    /\ (Forall (fun o => o <> ∅) calls ->
          turndownServiceInstance r.2 = turndownServiceInstance w).
Proof.
  induction calls as [|o calls IH]; intros w Hinv; cbn zeta.
  - cbn. repeat split; auto; intros; try discriminate; try congruence.
  - rewrite getTurndownServices_cons.
    pose proof (getTurndownService_step o w Hinv) as Hstep. cbn zeta in Hstep.
    destruct (getTurndownService o w) as [ref1 w1] eqn:E1. cbn [fst snd] in Hstep.
    destruct Hstep as (Hinv1 & Hmono1 & Hkeep1 & Hnew1 & Hdef1 & Hcus1).
    specialize (IH w1 Hinv1). cbn zeta in IH.
    destruct (getTurndownServices calls w1) as [refs w2] eqn:E2. cbn [fst snd] in IH.
    destruct IH as (Hinv2 & Hmono2 & Hlen & Hkeep2 & Hnew2 & Hdef2 & Hcus2 & Hall2).
    cbn [fst snd].
    repeat split.
    + exact Hinv2.
    + lia.
    + cbn. f_equal. exact Hlen.
    + intros ref Hw. apply Hkeep2, Hkeep1, Hw.
    + intros ref Hw Hfin.
      destruct (turndownServiceInstance w1) as [s|] eqn:Es.
      * rewrite (Hkeep2 s eq_refl) in Hfin. inversion Hfin; subst s.
        apply (Hnew1 ref Hw eq_refl).
      * specialize (Hnew2 ref eq_refl Hfin). lia.
    + intros [|i] ref Hc Hr; cbn in Hc, Hr.
      * inversion Hc; subst o. inversion Hr; subst ref.
        apply Hkeep2, Hdef1. reflexivity.
      * eapply Hdef2; eassumption.
    + intros [|i] o' ref Hc Hne Hr; cbn in Hc, Hr.
      * inversion Hc; subst o'. inversion Hr; subst ref.
        destruct (Hcus1 Hne) as (Hsame & Hfresh & Hlt).
        destruct (turndownServiceInstance w1) as [s|] eqn:Es.
        -- rewrite (Hkeep2 s eq_refl). intros E. inversion E; subst s.
           unfold cacheInv in Hinv. rewrite <- Hsame in Hinv. lia.
        -- intros Hfin. specialize (Hnew2 ref1 eq_refl Hfin). lia.
      * eapply Hcus2; eassumption.
    + intros Hall. inversion Hall as [|? ? Ho Hrest]; subst.
      rewrite (Hall2 Hrest). apply (Hcus1 Ho).
Qed.

End RendererCache.

(** C8: a call of [getTurndownService] with a non-empty options object
    constructs a new service whose options are the supplied ones merged
    with the defaults, every key of the defaults keeping its default value
    and every other key its supplied value. *)
Theorem custom_options_defaults_take_precedence
    (options : gmap string jsvalue) (w : world) :
  options <> ∅ ->
  exists merged,
    (objects (getTurndownService options w).2 !! (getTurndownService options w).1
     = Some (TurndownService merged [gfm]))
    /\ objects w !! (getTurndownService options w).1 = None
    /\ merged = spread options defaultTurndownOptions
    /\ (forall k v, defaultTurndownOptions !! k = Some v -> merged !! k = Some v)
    /\ (forall k, defaultTurndownOptions !! k = None -> merged !! k = options !! k)
    /\ merged !! "headingStyle"%string = Some (VString "atx")
    /\ merged !! "codeBlockStyle"%string = Some (VString "fenced")
    /\ merged !! "bulletListMarker"%string = Some (VString "-").
Proof.
  intros H. rewrite (getTurndownService_custom options w H). cbn [fst snd objects].
  exists (spread options defaultTurndownOptions).
  assert (Hd : forall k v, defaultTurndownOptions !! k = Some v ->
                 spread options defaultTurndownOptions !! k = Some v).
  { intros k v Hk. unfold spread. apply lookup_union_Some_l. exact Hk. }
  repeat split.
  - rewrite lookup_app_r by lia. rewrite Nat.sub_diag. reflexivity.
  - apply lookup_ge_None_2. lia.
  - exact Hd.
  - intros k Hk. unfold spread. apply lookup_union_r. exact Hk.
  - apply Hd. reflexivity.
  - apply Hd. reflexivity.
  - apply Hd. reflexivity.
Qed.

Lemma custom_options_witness :
  exists merged,
    (objects (getTurndownService {[ "headingStyle"%string := VString "setext" ]} initialWorld).2
       !! (getTurndownService {[ "headingStyle"%string := VString "setext" ]} initialWorld).1
     = Some (TurndownService merged [gfm]))
    /\ objects initialWorld
         !! (getTurndownService {[ "headingStyle"%string := VString "setext" ]} initialWorld).1 = None
    /\ merged = spread {[ "headingStyle"%string := VString "setext" ]} defaultTurndownOptions
    /\ (forall k v, defaultTurndownOptions !! k = Some v -> merged !! k = Some v)
    /\ (forall k, defaultTurndownOptions !! k = None ->
          merged !! k = ({[ "headingStyle"%string := VString "setext" ]} : gmap string jsvalue) !! k)
    /\ merged !! "headingStyle"%string = Some (VString "atx")
    /\ merged !! "codeBlockStyle"%string = Some (VString "fenced")
    /\ merged !! "bulletListMarker"%string = Some (VString "-").
Proof.
  apply (custom_options_defaults_take_precedence
           {[ "headingStyle"%string := VString "setext" ]} initialWorld).
  intros E. apply (f_equal (fun m => m !! "headingStyle"%string)) in E.
  vm_compute in E. discriminate.
Defined.

(** C9: over every sequence of calls from the initial state, every call
    returns a reference; the module variable is written at most once and
    stays unset while no call without options has been made; all calls
    without options return the same reference, the one the variable
    holds; a call with options returns another reference; and a call with
    options, from any state, leaves the variable as it is and makes no
    access to it (its only recorded access is the construction of its own
    object). *)
Theorem renderer_singleton_invariant (calls : list (gmap string jsvalue)) :
  let r := getTurndownServices calls initialWorld in
  List.length r.1 = List.length calls
  /\ (writes (accesses r.2) <= 1)%nat
  /\ (forall i j ri rj,
        calls !! i = Some ∅ -> calls !! j = Some ∅ ->
        r.1 !! i = Some ri -> r.1 !! j = Some rj ->
        ri = rj /\ turndownServiceInstance r.2 = Some ri)
  /\ (Forall (fun o => o <> ∅) calls ->
        turndownServiceInstance r.2 = None /\ writes (accesses r.2) = 0%nat)
  /\ (forall i o ref,
        calls !! i = Some o -> o <> ∅ -> r.1 !! i = Some ref ->
        turndownServiceInstance r.2 <> Some ref)
  /\ (forall options w,
        options <> ∅ ->
        turndownServiceInstance (getTurndownService options w).2 = turndownServiceInstance w
        /\ accesses (getTurndownService options w).2
           = accesses w ++ [Construct (List.length (objects w))]).
Proof.
  cbn zeta.
  assert (Hinit : cacheInv initialWorld) by reflexivity.
  destruct (getTurndownServices_inv calls initialWorld Hinit)
    as (Hinv & _ & Hlen & _ & _ & Hdef & Hcus & Hall).
  split; [exact Hlen|].
  split; [|split; [|split; [|split]]].
  - unfold cacheInv in Hinv.
    destruct (turndownServiceInstance _); [destruct Hinv|]; lia.
  - intros i j ri rj Hi Hj Hri Hrj.
    pose proof (Hdef i ri Hi Hri) as Ei. pose proof (Hdef j rj Hj Hrj) as Ej.
    split; congruence.
  - intros Hc. split.
    + rewrite (Hall Hc). reflexivity.
    + unfold cacheInv in Hinv. rewrite (Hall Hc) in Hinv. exact Hinv.
  - intros i o ref Hi Ho Hr. eapply Hcus; eassumption.
  - intros options w Ho.
    rewrite (getTurndownService_custom options w Ho). split; reflexivity.
Qed.

(** ** The table pass *)

Section NodeInduction.

Variable P : node -> Prop.
Hypothesis P_text : forall raw, P (TextNode raw).
Hypothesis P_element : forall t a cs, Forall P cs -> P (Element t a cs).

Fixpoint node_rect_nested (n : node) : P n :=
  match n with
  | TextNode raw => P_text raw
  | Element t a cs =>
      P_element t a cs
        ((fix all (l : list node) : Forall P l :=
            match l with
            | [] => @List.Forall_nil node P
            | c :: l' => @List.Forall_cons node P c l' (node_rect_nested c) (all l')
            end) cs)
  end.

End NodeInduction.

Section UpdateFirst.

Variable p : node -> bool.
(** The selector looks at the tag of a node only. *)
Hypothesis p_tag : forall t a cs cs', p (Element t a cs) = p (Element t a cs').

Lemma updateFirst_Element f t a cs :
  updateFirst p f (Element t a cs) = option_map (Element t a) (updateFirstList p f cs).
Proof using Type.
  cbn [updateFirst]. f_equal.
  induction cs as [|c cs IH]; cbn [updateFirstList]; [reflexivity|].
  destruct (p c); [reflexivity|].
  destruct (updateFirst p f c); [reflexivity|].
  rewrite IH. reflexivity.
Qed.

Lemma descendantsOfAll_cons c l :
  descendantsOfAll (c :: l) = c :: descendants c ++ descendantsOfAll l.
Proof using Type. reflexivity. Qed.

Lemma descendants_Element t a cs : descendants (Element t a cs) = descendantsOfAll cs.
Proof using Type. reflexivity. Qed.

(** No descendant matches exactly when [updateFirst] finds nothing. *)
Lemma updateFirst_None f (n : node) :
  updateFirst p f n = None <-> List.filter p (descendants n) = [].
Proof using Type.
  induction n as [raw | t a cs IH] using node_rect_nested.
  - cbn. tauto.
  - rewrite updateFirst_Element, descendants_Element.
    assert (L : updateFirstList p f cs = None <-> List.filter p (descendantsOfAll cs) = []).
    { induction IH as [|c cs Hc _ IHcs].
      - cbn. tauto.
      - rewrite descendantsOfAll_cons. cbn [updateFirstList List.filter].
        destruct (p c); [split; discriminate|].
        rewrite List.filter_app.
        destruct (updateFirst p f c) as [c'|] eqn:E.
        + split; [discriminate|]. intros H.
          apply app_eq_nil in H as [H _]. apply Hc in H. discriminate.
        + rewrite (proj1 Hc eq_refl). cbn [app].
          destruct (updateFirstList p f cs); cbn [option_map].
          * split; [discriminate|]. intros H. apply IHcs in H. discriminate.
          * split; [intros _; apply IHcs; reflexivity | reflexivity]. }
    destruct (updateFirstList p f cs); cbn [option_map].
    + split; [discriminate|]. intros H. apply L in H. discriminate.
    + split; [intros _; apply L; reflexivity | reflexivity].
Qed.

(** Detaching the first match: the matches of the tree are that node, the
    matches below it, and the matches of the tree that is left. *)
Lemma updateFirst_detach (n n' : node) :
  updateFirst p (fun _ => None) n = Some n' ->
  exists r,
    List.filter p (descendants n) = r :: List.filter p (descendants r) ++ List.filter p (descendants n')
    /\ detached r n n'.
Proof using p_tag.
  revert n'. induction n as [raw | t a cs IH] using node_rect_nested; intros n'.
  - cbn. discriminate.
  - rewrite updateFirst_Element.
    assert (L : forall l', updateFirstList p (fun _ => None) cs = Some l' ->
              exists r pre mid post,
                List.filter p (descendantsOfAll cs)
                = r :: List.filter p (descendants r) ++ List.filter p (descendantsOfAll l')
                /\ cs = pre ++ mid :: post
                /\ ((mid = r /\ l' = pre ++ post)
                    \/ (exists mid', detached r mid mid' /\ l' = pre ++ mid' :: post))).
    { induction IH as [|c cs Hc _ IHcs]; intros l'.
      - cbn. discriminate.
      - rewrite descendantsOfAll_cons. cbn [updateFirstList List.filter].
        destruct (p c) eqn:Ep.
        + intros E. inversion E; subst l'. exists c, [], c, cs.
          rewrite List.filter_app. repeat split. left. split; reflexivity.
        + destruct (updateFirst p (fun _ => None) c) as [c'|] eqn:E.
          * intros E'. inversion E'; subst l'.
            destruct (Hc c' eq_refl) as (r & Hm & Hd).
            exists r, [], c, cs. split; [|split; [reflexivity|]].
            -- rewrite descendantsOfAll_cons. cbn [List.filter].
               assert (Ep' : p c' = false).
               { inversion Hd; subst; rewrite <- Ep; apply p_tag. }
               rewrite Ep'. rewrite !List.filter_app, Hm. cbn [app].
               rewrite <- !app_assoc. reflexivity.
            -- right. exists c'. split; [exact Hd | reflexivity].
          * destruct (updateFirstList p (fun _ => None) cs) as [l0|] eqn:El;
              cbn [option_map]; [|discriminate].
            intros E'. inversion E'; subst l'.
            destruct (IHcs l0 eq_refl) as (r & pre & mid & post & Hm & Hcs & Hcase).
            exists r, (c :: pre), mid, post. split; [|split].
            -- rewrite descendantsOfAll_cons. cbn [List.filter]. rewrite Ep.
               rewrite !List.filter_app.
               rewrite (proj1 (updateFirst_None _ c) E). cbn [app]. exact Hm.
            -- rewrite Hcs. reflexivity.
            -- destruct Hcase as [[-> ->] | (mid' & Hd & ->)].
               ++ left. split; reflexivity.
               ++ right. exists mid'. split; [exact Hd | reflexivity]. }
    destruct (updateFirstList p (fun _ => None) cs) as [l'|]; cbn [option_map];
      [|discriminate].
    intros E. inversion E; subst n'.
    destruct (L l' eq_refl) as (r & pre & mid & post & Hm & Hcs & Hcase).
    exists r. rewrite !descendants_Element. split; [exact Hm|].
    subst cs. destruct Hcase as [[-> ->] | (mid' & Hd & ->)].
    + apply detached_child.
    + apply detached_below. exact Hd.
Qed.

End UpdateFirst.

Lemma hasTag_tag name t a cs cs' :
  hasTag name (Element t a cs) = hasTag name (Element t a cs').
Proof. reflexivity. Qed.

(** C3, as stated, fails: a table whose only row is empty and has no header
    cell does not stay as it is. *)
Lemma empty_only_row_not_kept :
  ~ (forall (api : parserApi) (table firstRow : node),
       querySelector "tr" table = Some firstRow ->
       querySelector "th" firstRow = None ->
       isEmptyRow api firstRow = true ->
       noSubsequentRow table firstRow ->
       promoteTableHeader api table = table).
Proof.
  intros H.
  specialize (H textOnlyParser blankRowTable blankRow eq_refl eq_refl eq_refl eq_refl).
  vm_compute in H. discriminate.
Qed.

Example blank_row_table_loses_its_row :
  promoteTableHeader textOnlyParser blankRowTable = Element (js "table") [] []
  /\ toString (Element [] [] [blankRowTable]) = js "<table><tr><td></td></tr></table>"
  /\ toString
       (stripBullets textOnlyParser false
          (processTables textOnlyParser (Element [] [] [blankRowTable])))
     = js "<table></table>".
Proof. vm_compute. repeat split. Qed.


(** ** The numbered-list pass *)

(** Facts of the character classes, by unfolding them to integer
    comparisons. *)
Ltac classes :=
  unfold isSpace, isDigit, isWord, isLineTerminator, in_range in *;
  repeat match goal with
         | H : _ = false |- _ => apply not_true_iff_false in H
         | |- _ = false => apply not_true_iff_false; intro
         end;
  rewrite ?orb_true_iff, ?andb_true_iff, ?Z.eqb_eq, ?Z.leb_le in *;
  lia.

Section Classes.

Lemma digit_not_space c : isDigit c = true -> isSpace c = false.
Proof. intros H. classes. Qed.

Lemma digit_not_terminator c : isDigit c = true -> isLineTerminator c = false.
Proof. intros H. classes. Qed.

Lemma terminator_is_space c : isLineTerminator c = true -> isSpace c = true.
Proof. intros H. classes. Qed.

Lemma span_spec (p : Z -> bool) (s : jsstring) :
  s = (span p s).1 ++ (span p s).2
  /\ forallb p (span p s).1 = true
  /\ match (span p s).2 with [] => True | x :: _ => p x = false end.
Proof.
  induction s as [|c t IH]; cbn [span].
  - repeat split.
  - destruct (p c) eqn:E.
    + destruct (span p t) as [a b]. cbn [fst snd] in *.
      destruct IH as (-> & Ha & Hb). cbn. rewrite E. repeat split; assumption.
    + cbn. repeat split. exact E.
Qed.

Lemma span_app (p : Z -> bool) (a b : jsstring) :
  forallb p a = true ->
  match b with [] => True | x :: _ => p x = false end ->
  span p (a ++ b) = (a, b).
Proof.
  intros Ha Hb. induction a as [|c a IH]; cbn [app span].
  - destruct b as [|x b]; cbn; [reflexivity|]. rewrite Hb. reflexivity.
  - cbn in Ha. apply andb_true_iff in Ha as [Hc Ha].
    rewrite Hc, (IH Ha). reflexivity.
Qed.

End Classes.

Section NumberedMatch.

(** The shape the expression matches: white space, digits, a period, one
    white space unit. *)
Lemma match_numbered_intro (g ds : jsstring) (sp : Z) (rest : jsstring) :
  forallb isSpace g = true -> ds <> [] -> forallb isDigit ds = true ->
  isSpace sp = true ->
  match_numbered (g ++ ds ++ 46 :: sp :: rest) = Some (g, g ++ ds ++ [46; sp]).
Proof.
  intros Hg Hne Hds Hsp. unfold match_numbered.
  destruct ds as [|d ds]; [contradiction|].
  cbn in Hds. apply andb_true_iff in Hds as [Hd Hds].
  rewrite (span_app isSpace g ((d :: ds) ++ 46 :: sp :: rest) Hg)
    by (cbn; apply digit_not_space, Hd).
  rewrite (span_app isDigit (d :: ds) (46 :: sp :: rest)) by (cbn; rewrite ?Hd, ?Hds; reflexivity).
  rewrite Hsp. reflexivity.
Qed.

Lemma match_numbered_elim (s g m : jsstring) :
  match_numbered s = Some (g, m) ->
  exists ds sp rest,
    s = g ++ ds ++ 46 :: sp :: rest
    /\ forallb isSpace g = true /\ ds <> [] /\ forallb isDigit ds = true
    /\ isSpace sp = true /\ m = g ++ ds ++ [46; sp].
Proof.
  unfold match_numbered.
  destruct (span_spec isSpace s) as (Hs & Hg & _).
  destruct (span isSpace s) as [ws r]. cbn [fst snd] in *.
  destruct (span_spec isDigit r) as (Hr & Hds & _).
  destruct (span isDigit r) as [ds r2]. cbn [fst snd] in *.
  destruct ds as [|d ds]; [discriminate|].
  destruct r2 as [|dot [|sp rest]]; try discriminate.
  destruct (Z.eqb_spec dot 46) as [->|Hdot]; [|discriminate].
  destruct (isSpace sp) eqn:Hsp; [|discriminate].
  cbn [andb]. intros E. inversion E; subst g m.
  exists (d :: ds), sp, rest. subst r. repeat split; auto; discriminate.
Qed.

Lemma match_numbered_space (c : Z) (t : jsstring) :
  isSpace c = true ->
  match_numbered (c :: t)
  = option_map (fun gm => (c :: fst gm, c :: snd gm)) (match_numbered t).
Proof.
  intros Hc. unfold match_numbered. cbn [span]. rewrite Hc.
  destruct (span isSpace t) as [ws r].
  destruct (span isDigit r) as [ds r2].
  destruct ds as [|d ds]; [reflexivity|].
  destruct r2 as [|dot [|sp rest]]; try reflexivity.
  destruct ((dot =? 46) && isSpace sp); reflexivity.
Qed.

End NumberedMatch.

Section ReplaceNumbered.

Lemma replaceNumbered_skip (m : jsstring) :
  forall prev r,
    replaceNumbered prev (List.length m) (m ++ r) = replaceNumbered (lastOr prev m) 0 r.
Proof.
  induction m as [|c m IH]; intros prev r.
  - reflexivity.
  - cbn [List.length app replaceNumbered]. rewrite IH. reflexivity.
Qed.

(** The scan at a position where the expression does not match, or that
    is not at the start of a line: the unit is copied. *)
Lemma replaceNumbered_copy prev c t :
  (if atLineStart prev then match_numbered (c :: t) else None) = None ->
  replaceNumbered prev 0 (c :: t) = c :: replaceNumbered (Some c) 0 t.
Proof. intros H. cbn [replaceNumbered]. rewrite H. reflexivity. Qed.

(** The scan at the start of a line that has the shape. *)
Lemma replaceNumbered_match prev g ds sp rest :
  atLineStart prev = true ->
  forallb isSpace g = true -> ds <> [] -> forallb isDigit ds = true ->
  isSpace sp = true ->
  replaceNumbered prev 0 (g ++ ds ++ 46 :: sp :: rest)
  = g ++ js "- " ++ replaceNumbered (Some sp) 0 rest.
Proof.
  intros Hp Hg Hne Hds Hsp.
  pose proof (match_numbered_intro g ds sp rest Hg Hne Hds Hsp) as Hm.
  assert (Hs : g ++ ds ++ 46 :: sp :: rest = (g ++ ds ++ [46; sp]) ++ rest).
  { rewrite <- !app_assoc. reflexivity. }
  assert (Hlast : forall q, lastOr q (g ++ ds ++ [46; sp]) = Some sp).
  { intros q. unfold lastOr. rewrite !fold_left_app. reflexivity. }
  remember (g ++ ds ++ [46; sp]) as m eqn:Em.
  destruct m as [|c m'].
  { destruct g; [destruct ds; [contradiction|]|]; discriminate. }
  rewrite Hs in *. cbn [app] in *. cbn [replaceNumbered].
  rewrite Hp, Hm. cbn [List.length Nat.pred].
  rewrite replaceNumbered_skip. rewrite <- (Hlast prev). reflexivity.
Qed.

(** White space followed by a hyphen is copied: the replacement text never
    matches again. *)
Lemma replaceNumbered_hyphen (g : jsstring) :
  forall prev y,
    forallb isSpace g = true ->
    replaceNumbered prev 0 (g ++ 45 :: y) = g ++ 45 :: replaceNumbered (Some 45) 0 y.
Proof.
  induction g as [|c g IH]; intros prev y Hg.
  - cbn [app]. apply replaceNumbered_copy.
    destruct (atLineStart prev); reflexivity.
  - cbn in Hg. apply andb_true_iff in Hg as [Hc Hg].
    cbn [app]. rewrite replaceNumbered_copy.
    + rewrite (IH _ _ Hg). reflexivity.
    + destruct (atLineStart prev); [|reflexivity].
      change (c :: g ++ 45 :: y) with ((c :: g) ++ 45 :: y).
      unfold match_numbered.
      rewrite (span_app isSpace (c :: g) (45 :: y)) by (cbn; rewrite ?Hc, ?Hg; reflexivity).
      reflexivity.
Qed.

Lemma match_numbered_digit (c : Z) (t : jsstring) :
  isDigit c = true ->
  match_numbered (c :: t) = None <-> periodFollows t = false.
Proof.
  intros Hc. unfold match_numbered, periodFollows. cbn [span].
  rewrite (digit_not_space c Hc). cbn [span]. rewrite Hc.
  destruct (span isDigit t) as [ds r2]. cbn [snd].
  destruct r2 as [|dot [|sp rest]]; try tauto.
  destruct ((dot =? 46) && isSpace sp); split; congruence.
Qed.

Lemma match_numbered_other (c : Z) (t : jsstring) :
  isDigit c = false -> isSpace c = false -> match_numbered (c :: t) = None.
Proof.
  intros Hd Hs. unfold match_numbered. cbn [span]. rewrite Hs. cbn [span].
  rewrite Hd. reflexivity.
Qed.

(** Away from a line start the scan keeps a failing digit tail failing. *)
Lemma periodFollows_replaceNumbered (t : jsstring) :
  forall prev,
    atLineStart prev = false ->
    periodFollows t = false ->
    periodFollows (replaceNumbered prev 0 t) = false.
Proof.
  induction t as [|x t IH]; intros prev Hp Hf.
  - reflexivity.
  - rewrite replaceNumbered_copy by (rewrite Hp; reflexivity).
    unfold periodFollows in *. cbn [span] in *.
    destruct (isDigit x) eqn:Hx.
    + destruct (span isDigit t) as [ds r] eqn:Et. cbn [snd] in Hf.
      specialize (IH (Some x) (digit_not_terminator x Hx)).
      destruct (span isDigit (replaceNumbered (Some x) 0 t)) as [ds' r'] eqn:Et'.
      cbn [snd] in *. apply IH. exact Hf.
    + cbn [snd] in *.
      destruct (Z.eqb_spec x 46) as [->|Hx46].
      * destruct t as [|sp t']; [reflexivity|].
        rewrite replaceNumbered_copy by reflexivity.
        exact Hf.
      * destruct (replaceNumbered (Some x) 0 t) as [|sp u]; reflexivity.
Qed.

(** A position where the expression fails still fails after the scan. *)
Lemma match_numbered_replaceNumbered (s : jsstring) :
  forall prev,
    match_numbered s = None ->
    match_numbered (replaceNumbered prev 0 s) = None.
Proof.
  induction s as [|c t IH]; intros prev Hm.
  - reflexivity.
  - rewrite replaceNumbered_copy by (rewrite Hm; destruct (atLineStart prev); reflexivity).
    destruct (isSpace c) eqn:Hs.
    + rewrite match_numbered_space in * by exact Hs.
      destruct (match_numbered t) eqn:Et; [discriminate|].
      rewrite (IH (Some c) eq_refl). reflexivity.
    + destruct (isDigit c) eqn:Hd.
      * apply match_numbered_digit; [exact Hd|].
        apply periodFollows_replaceNumbered.
        -- apply digit_not_terminator, Hd.
        -- apply (match_numbered_digit c t Hd), Hm.
      * apply match_numbered_other; assumption.
Qed.

(** The scan is idempotent, also when the second scan starts away from a
    line start. *)
Lemma replaceNumbered_idempotent (n : nat) :
  forall s prev prev',
    (List.length s <= n)%nat ->
    (atLineStart prev' = true -> atLineStart prev = true) ->
    replaceNumbered prev' 0 (replaceNumbered prev 0 s) = replaceNumbered prev 0 s.
Proof.
  induction n as [|n IH]; intros s prev prev' Hlen Himp.
  - destruct s; [reflexivity | cbn in Hlen; lia].
  - destruct s as [|c t]; [reflexivity|].
    destruct (if atLineStart prev then match_numbered (c :: t) else None)
      as [[g m]|] eqn:Em.
    + destruct (atLineStart prev) eqn:Hp; [|discriminate].
      destruct (match_numbered_elim _ _ _ Em) as (ds & sp & rest & Hs & Hg & Hne & Hds & Hsp & _).
      rewrite Hs. rewrite (replaceNumbered_match prev g ds sp rest Hp Hg Hne Hds Hsp).
      change (js "- " ++ ?x) with (45 :: 32 :: x).
      rewrite (replaceNumbered_hyphen g _ _ Hg).
      rewrite replaceNumbered_copy by reflexivity.
      rewrite (IH rest (Some sp) (Some 32)); [reflexivity| |discriminate].
      apply (f_equal (@List.length Z)) in Hs. rewrite !length_app in Hs.
      cbn [List.length] in *. lia.
    + rewrite (replaceNumbered_copy prev c t Em).
      rewrite replaceNumbered_copy.
      * rewrite (IH t (Some c) (Some c)); [reflexivity| |tauto].
        cbn [List.length] in Hlen. lia.
      * destruct (atLineStart prev') eqn:Hp'; [|reflexivity].
        rewrite (Himp eq_refl) in Em.
        rewrite <- (replaceNumbered_copy (Some c) c t) at 1.
        -- apply match_numbered_replaceNumbered. exact Em.
        -- rewrite Em. destruct (atLineStart (Some c)); reflexivity.
Qed.

End ReplaceNumbered.

(** ** The normaliser as a map of units *)

(** Case analysis over the integer tests of a goal. *)
Ltac by_units :=
  repeat match goal with
         | |- context [Z.eqb ?a ?b] =>
             is_var a; destruct (Z.eqb_spec a b); subst; try lia; cbn
         end;
  try reflexivity; try lia.

Section UnitMap.

Lemma normalizeText_unit (c : Z) :
  zeroWidth c = false ->
  replaceChars smartQuotesRegex smartQuoteMap
    (if nonBreakingSpacesRegex c then lookupChar c nonBreakingSpaceMap else [c])
  = [normalizeUnit c].
Proof.
  unfold zeroWidth, replaceChars, smartQuotesRegex, nonBreakingSpacesRegex, normalizeUnit.
  cbn. intros H. by_units; discriminate.
Qed.

Lemma normalizeText_cons (c : Z) (t : jsstring) :
  normalizeText (c :: t)
  = replaceChars smartQuotesRegex smartQuoteMap
      (if nonBreakingSpacesRegex c then lookupChar c nonBreakingSpaceMap else [c])
    ++ normalizeText t.
Proof.
  unfold normalizeText, replaceChars. cbn [flat_map]. rewrite flat_map_app. reflexivity.
Qed.

(** On text without the two zero-width units the normaliser maps unit by
    unit. *)
Lemma normalizeText_map (s : jsstring) :
  forallb (fun c => negb (zeroWidth c)) s = true ->
  normalizeText s = map normalizeUnit s.
Proof.
  induction s as [|c t IH]; intros H.
  - reflexivity.
  - cbn in H. apply andb_true_iff in H as [Hc Ht]. apply negb_true_iff in Hc.
    rewrite normalizeText_cons, (normalizeText_unit c Hc), (IH Ht). reflexivity.
Qed.

Lemma normalizeUnit_idempotent c : normalizeUnit (normalizeUnit c) = normalizeUnit c.
Proof. unfold normalizeUnit. by_units. Qed.

Lemma normalizeUnit_space c : isSpace (normalizeUnit c) = isSpace c.
Proof. unfold normalizeUnit. by_units. Qed.

Lemma normalizeUnit_digit c : isDigit (normalizeUnit c) = isDigit c.
Proof. unfold normalizeUnit. by_units. Qed.

Lemma normalizeUnit_terminator c :
  isLineTerminator (normalizeUnit c) = isLineTerminator c.
Proof. unfold normalizeUnit. by_units. Qed.

Lemma normalizeUnit_period c : (normalizeUnit c =? 46) = (c =? 46).
Proof. unfold normalizeUnit. by_units. Qed.

Lemma normalizeUnit_zeroWidth c : zeroWidth (normalizeUnit c) = zeroWidth c.
Proof. unfold normalizeUnit, zeroWidth. by_units. Qed.

End UnitMap.

(** The numbered-list scan commutes with a map of units that keeps the
    classes the expression tests. *)
Section ScanCommutes.

Variable f : Z -> Z.
Hypothesis f_space : forall c, isSpace (f c) = isSpace c.
Hypothesis f_digit : forall c, isDigit (f c) = isDigit c.
Hypothesis f_terminator : forall c, isLineTerminator (f c) = isLineTerminator c.
Hypothesis f_period : forall c, (f c =? 46) = (c =? 46).
Hypothesis f_hyphen : f 45 = 45.
Hypothesis f_blank : f 32 = 32.

Lemma span_map (p : Z -> bool) (s : jsstring) :
  (forall c, p (f c) = p c) ->
  span p (map f s) = (map f (span p s).1, map f (span p s).2).
Proof using Type.
  intros Hp. induction s as [|c t IH]; cbn [map span].
  - reflexivity.
  - rewrite Hp. destruct (p c).
    + rewrite IH. destruct (span p t). reflexivity.
    + reflexivity.
Qed.

Lemma match_numbered_map (s : jsstring) :
  match_numbered (map f s)
  = option_map (fun gm => (map f gm.1, map f gm.2)) (match_numbered s).
Proof using f_space f_digit f_period.
  unfold match_numbered.
  rewrite (span_map isSpace s f_space).
  destruct (span isSpace s) as [ws r]. cbn [fst snd].
  rewrite (span_map isDigit r f_digit).
  destruct (span isDigit r) as [ds r2]. cbn [fst snd].
  destruct ds as [|d ds]; [reflexivity|].
  destruct r2 as [|dot [|sp rest]]; try reflexivity.
  cbn [map]. rewrite f_period, f_space.
  destruct ((dot =? 46) && isSpace sp) eqn:E; [|reflexivity].
  cbn [option_map fst snd]. rewrite !map_app. reflexivity.
Qed.

Lemma replaceNumbered_map (s : jsstring) :
  forall prev skip,
    replaceNumbered (option_map f prev) skip (map f s)
    = map f (replaceNumbered prev skip s).
Proof using All.
  induction s as [|c t IH]; intros prev skip.
  - reflexivity.
  - cbn [map replaceNumbered].
    destruct skip as [|k].
    + assert (Hp : atLineStart (option_map f prev) = atLineStart prev).
      { destruct prev; [apply f_terminator | reflexivity]. }
      rewrite Hp.
      change (f c :: map f t) with (map f (c :: t)).
      destruct (atLineStart prev).
      * rewrite match_numbered_map.
        destruct (match_numbered (c :: t)) as [[g m]|]; cbn [option_map fst snd].
        -- rewrite !map_app, length_map.
           change (map f (js "- ")) with [f 45; f 32]. rewrite f_hyphen, f_blank.
           rewrite <- (IH (Some c)). reflexivity.
        -- cbn [map]. rewrite <- (IH (Some c)). reflexivity.
      * cbn [map]. rewrite <- (IH (Some c)). reflexivity.
    + rewrite <- (IH (Some c)). reflexivity.
Qed.

End ScanCommutes.

Section ScanKeeps.

Variable P : Z -> bool.
Hypothesis P_hyphen : P 45 = true.
Hypothesis P_blank : P 32 = true.

(** The scan only emits units of its input, a hyphen and a blank. *)
Lemma replaceNumbered_forallb (s : jsstring) :
  forall prev skip,
    forallb P s = true -> forallb P (replaceNumbered prev skip s) = true.
Proof using All.
  induction s as [|c t IH]; intros prev skip Hs.
  - reflexivity.
  - cbn [replaceNumbered]. cbn in Hs. apply andb_true_iff in Hs as [Hc Ht].
    destruct skip as [|k]; [|apply IH, Ht].
    destruct (if atLineStart prev then match_numbered (c :: t) else None)
      as [[g m]|] eqn:Em.
    + destruct (atLineStart prev); [|discriminate].
      destruct (match_numbered_elim _ _ _ Em) as (ds & sp & rest & Hcs & _).
      assert (Hg : forallb P g = true).
      { assert (Hall : forallb P (c :: t) = true) by (cbn; rewrite Hc, Ht; reflexivity).
        rewrite Hcs, forallb_app in Hall. apply andb_true_iff in Hall as [Hg _]. exact Hg. }
      change (js "- ") with [45; 32].
      rewrite !forallb_app, Hg, (IH _ _ Ht). cbn [forallb]. rewrite P_hyphen, P_blank. reflexivity.
    + cbn. rewrite Hc. apply IH, Ht.
Qed.

End ScanKeeps.

(** ** Idempotence of the Text Normalizer *)

Lemma convertNumberedListsToBullets_idempotent (md : jsstring) :
  convertNumberedListsToBullets (convertNumberedListsToBullets md)
  = convertNumberedListsToBullets md.
Proof.
  unfold convertNumberedListsToBullets.
  apply (replaceNumbered_idempotent (List.length md)); [lia | tauto].
Qed.

Lemma map_normalizeUnit_keeps_free (s : jsstring) :
  forallb (fun c => negb (zeroWidth c)) s = true ->
  forallb (fun c => negb (zeroWidth c)) (map normalizeUnit s) = true.
Proof.
  induction s as [|c t IH]; cbn; [reflexivity|].
  intros H. apply andb_true_iff in H as [Hc Ht].
  rewrite normalizeUnit_zeroWidth, Hc, (IH Ht). reflexivity.
Qed.

(** C2, as stated, fails: a word joiner in front of a numbered line hides
    the line from the first run, which deletes the joiner, and the second
    run rewrites the line. *)
Lemma textNormalizer_not_idempotent :
  textNormalizer ([8288] ++ js "1. x") = js "1. x"
  /\ textNormalizer (textNormalizer ([8288] ++ js "1. x")) = js "- x"
  /\ textNormalizer (textNormalizer ([8288] ++ js "1. x"))
     <> textNormalizer ([8288] ++ js "1. x").
Proof. vm_compute. repeat split. discriminate. Qed.

(** C2, amended: on every string that holds neither U+2060 (word joiner)
    nor U+FEFF (zero-width no-break space), the Text Normalizer
    (numbered-to-bullet conversion, then the two substitution passes of
    [normalizeText]) applied twice gives what it gives applied once. *)
Theorem textNormalizer_idempotent (s : jsstring) :
  forallb (fun c => negb (zeroWidth c)) s = true ->
  textNormalizer (textNormalizer s) = textNormalizer s.
Proof.
  intros Hfree. unfold textNormalizer.
  assert (Hconv : forallb (fun c => negb (zeroWidth c)) (convertNumberedListsToBullets s) = true).
  { apply replaceNumbered_forallb; [reflexivity | reflexivity | exact Hfree]. }
  rewrite (normalizeText_map _ Hconv).
  unfold convertNumberedListsToBullets at 1.
  change None with (option_map normalizeUnit None).
  rewrite (replaceNumbered_map normalizeUnit normalizeUnit_space normalizeUnit_digit
             normalizeUnit_terminator normalizeUnit_period eq_refl eq_refl).
  fold (convertNumberedListsToBullets s).
  fold (convertNumberedListsToBullets (convertNumberedListsToBullets s)).
  rewrite convertNumberedListsToBullets_idempotent.
  rewrite (normalizeText_map _ (map_normalizeUnit_keeps_free _ Hconv)).
  rewrite map_map. apply map_ext. intros c. apply normalizeUnit_idempotent.
Qed.

Lemma textNormalizer_idempotent_witness :
  textNormalizer (textNormalizer (js "  3. Buy" ++ [160; 8220] ++ js "milk" ++ [8221; 10] ++ js "4. x"))
  = textNormalizer (js "  3. Buy" ++ [160; 8220] ++ js "milk" ++ [8221; 10] ++ js "4. x").
Proof.
  apply (textNormalizer_idempotent
           (js "  3. Buy" ++ [160; 8220] ++ js "milk" ++ [8221; 10] ++ js "4. x")).
  vm_compute. reflexivity.
Defined.

(** ** The numbered-list pass, line by line *)

Section Lines.

Lemma lastOr_app prev a b : lastOr prev (a ++ b) = lastOr (lastOr prev a) b.
Proof. unfold lastOr. apply fold_left_app. Qed.

Lemma lastOr_not_start prev (l : jsstring) :
  atLineStart prev = false -> noTerminator l = true ->
  atLineStart (lastOr prev l) = false.
Proof.
  revert prev. induction l as [|c l IH]; intros prev Hp Hl.
  - exact Hp.
  - cbn in Hl. apply andb_true_iff in Hl as [Hc Hl]. apply negb_true_iff in Hc.
    apply (IH (Some c)); assumption.
Qed.

(** Away from a line start, a stretch without terminators is copied. *)
Lemma replaceNumbered_run (l : jsstring) :
  forall prev tail,
    atLineStart prev = false -> noTerminator l = true ->
    replaceNumbered prev 0 (l ++ tail) = l ++ replaceNumbered (lastOr prev l) 0 tail.
Proof.
  induction l as [|c l IH]; intros prev tail Hp Hl.
  - reflexivity.
  - cbn in Hl. apply andb_true_iff in Hl as [Hc Hl]. apply negb_true_iff in Hc.
    cbn [app]. rewrite replaceNumbered_copy by (rewrite Hp; reflexivity).
    rewrite (IH (Some c) tail Hc Hl). reflexivity.
Qed.

Lemma match_numbered_spaces (w d : jsstring) :
  forallb isSpace w = true ->
  match_numbered (w ++ d)
  = option_map (fun gm => (w ++ gm.1, w ++ gm.2)) (match_numbered d).
Proof.
  induction w as [|c w IH]; intros Hw.
  - cbn. destruct (match_numbered d) as [[g m]|]; reflexivity.
  - cbn in Hw. apply andb_true_iff in Hw as [Hc Hw].
    cbn [app]. rewrite (match_numbered_space c _ Hc), (IH Hw).
    destruct (match_numbered d) as [[g m]|]; reflexivity.
Qed.

(** White space in front of a text that does not match is copied. *)
Lemma replaceNumbered_spaces (w : jsstring) :
  forall prev d,
    forallb isSpace w = true -> match_numbered d = None ->
    replaceNumbered prev 0 (w ++ d) = w ++ replaceNumbered (lastOr prev w) 0 d.
Proof.
  induction w as [|c w IH]; intros prev d Hw Hd.
  - reflexivity.
  - pose proof (match_numbered_spaces (c :: w) d Hw) as Hm. rewrite Hd in Hm.
    cbn in Hw. apply andb_true_iff in Hw as [Hc Hw].
    cbn [app] in *. rewrite replaceNumbered_copy.
    + rewrite (IH (Some c) d Hw Hd). reflexivity.
    + rewrite Hm. destruct (atLineStart prev); reflexivity.
Qed.

Lemma noTerminator_app a b :
  noTerminator (a ++ b) = noTerminator a && noTerminator b.
Proof. unfold noTerminator. apply forallb_app. Qed.

Lemma replaceNumbered_behind prev tail :
  atLineStart prev = false -> replaceNumbered prev 0 tail = behind tail.
Proof.
  intros Hp. destruct tail as [|t d]; [reflexivity|].
  cbn [behind]. apply replaceNumbered_copy. rewrite Hp. reflexivity.
Qed.

Lemma match_numbered_all_space (l : jsstring) :
  forallb isSpace l = true -> match_numbered l = None.
Proof.
  intros Hl. pose proof (match_numbered_spaces l [] Hl) as H.
  rewrite app_nil_r in H. exact H.
Qed.

Lemma terminator_facts (t : Z) :
  isLineTerminator t = true -> isSpace t = true /\ isDigit t = false /\ (t =? 46) = false.
Proof.
  intros H. repeat split.
  - apply terminator_is_space, H.
  - classes.
  - apply Z.eqb_neq. classes.
Qed.

(** A line that does not match on its own does not match with what
    follows it either, unless it is a bare number and period in front of a
    terminator. *)
Lemma match_numbered_line (l tail : jsstring) :
  match_numbered l = None ->
  (span isSpace l).2 <> [] ->
  match tail with
  | [] => True
  | t :: _ => isLineTerminator t = true /\ numberThenPeriod l = false
  end ->
  match_numbered (l ++ tail) = None.
Proof.
  intros Em Hr Htail. unfold match_numbered, numberThenPeriod in *.
  destruct (span_spec isSpace l) as (Hl & Hws & Hx).
  destruct (span isSpace l) as [ws r]. cbn [fst snd] in *.
  destruct r as [|x r']; [contradiction|].
  rewrite Hl at 1. rewrite <- app_assoc.
  rewrite (span_app isSpace ws ((x :: r') ++ tail) Hws Hx).
  destruct (span_spec isDigit (x :: r')) as (Hd & Hds & Hy).
  destruct (span isDigit (x :: r')) as [ds r2]. cbn [fst snd] in *.
  rewrite Hd. rewrite <- app_assoc.
  destruct r2 as [|y r2'].
  - rewrite app_nil_l.
    destruct tail as [|t d].
    + rewrite (span_app isDigit ds [] Hds I).
      destruct ds; reflexivity.
    + destruct Htail as [Ht _]. destruct (terminator_facts t Ht) as (_ & Hnd & Hn46).
      rewrite (span_app isDigit ds (t :: d) Hds Hnd).
      destruct ds; [reflexivity|]. destruct d; [reflexivity|].
      rewrite Hn46. reflexivity.
  - rewrite (span_app isDigit ds ((y :: r2') ++ tail) Hds Hy).
    destruct ds as [|d0 ds']; [reflexivity|].
    destruct r2' as [|z r2''].
    + destruct tail as [|t d]; [reflexivity|].
      destruct Htail as [_ Hn]. cbn [app]. rewrite Hn. reflexivity.
    + cbn [app]. destruct ((y =? 46) && isSpace z); [discriminate | reflexivity].
Qed.

Lemma skipn_length_app (m rest : jsstring) : skipn (List.length m) (m ++ rest) = rest.
Proof. induction m as [|c m IH]; [reflexivity | exact IH]. Qed.

(** The scan over one line that starts at a line start: the line is
    rewritten as on its own, and the scan goes on behind it. *)
Lemma replaceNumbered_line (l tail : jsstring) (prev : option Z) :
  atLineStart prev = true ->
  noTerminator l = true ->
  match tail with
  | [] => True
  | t :: _ => isLineTerminator t = true /\ numberThenPeriod l = false
  end ->
  replaceNumbered prev 0 (l ++ tail) = rewriteLine l ++ behind tail.
Proof.
  intros Hp Hl Htail. unfold rewriteLine.
  destruct (match_numbered l) as [[g m]|] eqn:Em.
  - destruct (match_numbered_elim _ _ _ Em) as (ds & sp & rest & Hs & Hg & Hne & Hds & Hsp & Hm).
    subst m. rewrite Hs at 2.
    replace (g ++ ds ++ 46 :: sp :: rest) with ((g ++ ds ++ [46; sp]) ++ rest)
      by (rewrite <- !app_assoc; reflexivity).
    rewrite skipn_length_app.
    rewrite Hs in Hl |- *. rewrite !noTerminator_app in Hl.
    apply andb_true_iff in Hl as [_ Hl]. apply andb_true_iff in Hl as [_ Hl].
    cbn in Hl. apply andb_true_iff in Hl as [Hsp' Hrest].
    apply negb_true_iff in Hsp'.
    replace ((g ++ ds ++ 46 :: sp :: rest) ++ tail) with (g ++ ds ++ 46 :: sp :: rest ++ tail)
      by (rewrite <- !app_assoc; reflexivity).
    rewrite (replaceNumbered_match prev g ds sp (rest ++ tail) Hp Hg Hne Hds Hsp).
    rewrite (replaceNumbered_run rest (Some sp) tail Hsp' Hrest).
    rewrite (replaceNumbered_behind _ tail (lastOr_not_start (Some sp) rest Hsp' Hrest)).
    rewrite <- !app_assoc. reflexivity.
  - destruct (span_spec isSpace l) as (Hsplit & Hws & Hx).
    destruct ((span isSpace l).2) as [|x r'] eqn:Er.
    + (* the line is white space *)
      rewrite app_nil_r in Hsplit. rewrite <- Hsplit in Hws.
      destruct tail as [|t d].
      * rewrite (replaceNumbered_spaces l prev [] Hws eq_refl). cbn. reflexivity.
      * destruct Htail as [Ht _]. destruct (terminator_facts t Ht) as (Hts & _ & _).
        assert (Hw : forallb isSpace (l ++ [t]) = true).
        { rewrite forallb_app, Hws. cbn. rewrite Hts. reflexivity. }
        replace (l ++ t :: d) with ((l ++ [t]) ++ d) by (rewrite <- app_assoc; reflexivity).
        cbn [behind].
        destruct (match_numbered d) as [[g m]|] eqn:Ed.
        -- destruct (match_numbered_elim _ _ _ Ed)
             as (ds & sp & rest & Hs & Hg & Hne & Hds & Hsp & _).
           rewrite Hs.
           rewrite (replaceNumbered_match (Some t) g ds sp rest Ht Hg Hne Hds Hsp).
           replace ((l ++ [t]) ++ g ++ ds ++ 46 :: sp :: rest)
             with (((l ++ [t]) ++ g) ++ ds ++ 46 :: sp :: rest)
             by (rewrite <- !app_assoc; reflexivity).
           rewrite (replaceNumbered_match prev ((l ++ [t]) ++ g) ds sp rest Hp); auto.
           ++ rewrite <- !app_assoc. reflexivity.
           ++ rewrite forallb_app, Hw, Hg. reflexivity.
        -- rewrite (replaceNumbered_spaces (l ++ [t]) prev d Hw Ed).
           rewrite lastOr_app. rewrite <- app_assoc. reflexivity.
    + (* the line has a unit that is not white space *)
      assert (Hm : match_numbered (l ++ tail) = None).
      { apply match_numbered_line; [exact Em | rewrite Er; discriminate | exact Htail]. }
      destruct l as [|c l'].
      { cbn in Er. discriminate. }
      cbn in Hl. apply andb_true_iff in Hl as [Hc Hl']. apply negb_true_iff in Hc.
      cbn [app]. rewrite replaceNumbered_copy.
      * rewrite (replaceNumbered_run l' (Some c) tail Hc Hl').
        rewrite (replaceNumbered_behind _ tail (lastOr_not_start (Some c) l' Hc Hl')).
        reflexivity.
      * rewrite Hp. exact Hm.
Qed.

End Lines.

Lemma replaceNumbered_lines (ls : list (jsstring * Z)) (final : jsstring) :
  forall prev,
    atLineStart prev = true ->
    forallb plainLine ls = true ->
    noTerminator final = true ->
    replaceNumbered prev 0 (joinLines ls final)
    = joinLines (map (fun lt => (rewriteLine lt.1, lt.2)) ls) (rewriteLine final).
Proof.
  induction ls as [|[l t] more IH]; intros prev Hp Hls Hfinal.
  - cbn [joinLines map]. rewrite <- (app_nil_r final) at 1.
    rewrite (replaceNumbered_line final [] prev Hp Hfinal I). apply app_nil_r.
  - cbn [forallb] in Hls. apply andb_true_iff in Hls as [Hl Hmore].
    unfold plainLine in Hl. cbn [fst snd] in Hl.
    apply andb_true_iff in Hl as [Hl Hn]. apply andb_true_iff in Hl as [Hl Ht].
    apply negb_true_iff in Hn.
    cbn [joinLines map fst snd].
    rewrite (replaceNumbered_line l (t :: joinLines more final) prev Hp Hl (conj Ht Hn)).
    cbn [behind]. rewrite (IH (Some t) Ht Hmore Hfinal). reflexivity.
Qed.

Lemma rewriteLine_numbered (ws ds : jsstring) (sp : Z) (rest : jsstring) :
  forallb isSpace ws = true -> ds <> [] -> forallb isDigit ds = true ->
  isSpace sp = true ->
  rewriteLine (ws ++ ds ++ 46 :: sp :: rest) = ws ++ js "- " ++ rest.
Proof.
  intros Hws Hne Hds Hsp. unfold rewriteLine.
  rewrite (match_numbered_intro ws ds sp rest Hws Hne Hds Hsp).
  replace (ws ++ ds ++ 46 :: sp :: rest) with ((ws ++ ds ++ [46; sp]) ++ rest)
    by (rewrite <- !app_assoc; reflexivity).
  rewrite skipn_length_app. reflexivity.
Qed.

Lemma rewriteLine_other (line : jsstring) :
  (forall ws ds sp rest,
     forallb isSpace ws = true -> ds <> [] -> forallb isDigit ds = true ->
     isSpace sp = true -> line <> ws ++ ds ++ 46 :: sp :: rest) ->
  rewriteLine line = line.
Proof.
  intros H. unfold rewriteLine.
  destruct (match_numbered line) as [[g m]|] eqn:Em; [|reflexivity].
  destruct (match_numbered_elim _ _ _ Em) as (ds & sp & rest & Hs & Hg & Hne & Hds & Hsp & _).
  exfalso. exact (H g ds sp rest Hg Hne Hds Hsp Hs).
Qed.

(** C6, as stated, fails: a line whose period is followed by a tab, not a
    space, is rewritten all the same. *)
Lemma tab_after_period_is_rewritten :
  convertNumberedListsToBullets (js "1." ++ [9] ++ js "foo") = js "- foo"
  /\ convertNumberedListsToBullets (js "1." ++ [9] ++ js "foo") <> js "1." ++ [9] ++ js "foo".
Proof. vm_compute. split; [reflexivity | discriminate]. Qed.

(** C6, amended: take a text as its lines, none of them a bare number and
    period in front of its line terminator.  The numbered-to-bullet
    conversion rewrites the text line by line: a line made of white space,
    one or more digits, a period, one white space unit of any kind (a
    space, a tab, a no-break space) and the rest becomes the same white
    space, "- " and the rest; every line not of that shape stays as it
    is. *)
Theorem numbered_lines_become_bullets (ls : list (jsstring * Z)) (final : jsstring) :
  forallb plainLine ls = true ->
  noTerminator final = true ->
  convertNumberedListsToBullets (joinLines ls final)
  = joinLines (map (fun lt => (rewriteLine lt.1, lt.2)) ls) (rewriteLine final)
  /\ (forall ws ds sp rest,
        forallb isSpace ws = true -> ds <> [] -> forallb isDigit ds = true ->
        isSpace sp = true ->
        rewriteLine (ws ++ ds ++ 46 :: sp :: rest) = ws ++ js "- " ++ rest)
  /\ (forall line,
        (forall ws ds sp rest,
           forallb isSpace ws = true -> ds <> [] -> forallb isDigit ds = true ->
           isSpace sp = true -> line <> ws ++ ds ++ 46 :: sp :: rest) ->
        rewriteLine line = line).
Proof.
  intros Hls Hfinal. split; [|split].
  - apply replaceNumbered_lines; [reflexivity | exact Hls | exact Hfinal].
  - exact rewriteLine_numbered.
  - exact rewriteLine_other.
Qed.

Lemma numbered_lines_witness :
  convertNumberedListsToBullets
    (joinLines [(js "  3. Buy milk", 10); (js "Not a list: 3. foo", 10)] (js "12." ++ [9] ++ js "x"))
  = joinLines
      (map (fun lt => (rewriteLine lt.1, lt.2))
         [(js "  3. Buy milk", 10); (js "Not a list: 3. foo", 10)])
      (rewriteLine (js "12." ++ [9] ++ js "x"))
  /\ (forall ws ds sp rest,
        forallb isSpace ws = true -> ds <> [] -> forallb isDigit ds = true ->
        isSpace sp = true ->
        rewriteLine (ws ++ ds ++ 46 :: sp :: rest) = ws ++ js "- " ++ rest)
  /\ (forall line,
        (forall ws ds sp rest,
           forallb isSpace ws = true -> ds <> [] -> forallb isDigit ds = true ->
           isSpace sp = true -> line <> ws ++ ds ++ 46 :: sp :: rest) ->
        rewriteLine line = line).
Proof.
  apply (numbered_lines_become_bullets
           [(js "  3. Buy milk", 10); (js "Not a list: 3. foo", 10)]
           (js "12." ++ [9] ++ js "x")); vm_compute; reflexivity.
Defined.

Example numbered_lines_example :
  joinLines
    (map (fun lt => (rewriteLine lt.1, lt.2))
       [(js "  3. Buy milk", 10); (js "Not a list: 3. foo", 10)])
    (rewriteLine (js "12." ++ [9] ++ js "x"))
  = js "  - Buy milk" ++ [10] ++ js "Not a list: 3. foo" ++ [10] ++ js "- x".
Proof. vm_compute. reflexivity. Qed.

(** ** The list pass *)

(** C4, at the input [<ul><li><ol><li>(bullet) x</li></ol></li></ul>]: the
    selector ['ul li'] also selects the item of the ordered list, which
    has a [ul] among its ancestors, and the pass strips its glyph: its
    content becomes what the parser makes of "x".  The same ordered list
    outside an unordered one is left as it is. *)
Theorem ordered_item_under_unordered_list_is_stripped (api : parserApi) :
  innerHTML bulletItem = [8226] ++ js " x"
  /\ stripBullet (innerHTML bulletItem) = js "x"
  /\ stripBullets api false orderedInUnordered
     = Element [] []
         [Element (js "ul") []
            [Element (js "li") []
               [Element (js "ol") [] [Element (js "li") [] (parseFragment api (js "x"))]]]]
  /\ stripBullets api false orderedAlone = orderedAlone.
Proof. repeat split. Qed.

(** ** Extension validation *)

(** Reduces the field accesses and the tests on constants that a step of
    the scan leaves. *)
Ltac fields :=
  repeat (cbn [startDot startPart endIdx matchedSlash preDotState negb];
          progress (change (-1 =? -1) with true; change (46 =? 47) with false;
                    change (46 =? 46) with true; change (0 =? 1) with false;
                    change (47 =? 47) with true));
  cbn [startDot startPart endIdx matchedSlash preDotState negb].

Section ExtnameScan.

Lemma scanInv_inside pos done st comp slashes :
  done = comp ++ slashes -> allSlash slashes = true ->
  comp <> [] -> noSlash comp = true ->
  matchedSlash st = false ->
  endIdx st = pos + Z.of_nat (List.length comp) ->
  ((startDot st = -1 /\ preDotState st = 0 /\ noDot comp = true)
   \/ (exists x e,
         comp = x ++ 46 :: e /\ noDot e = true
         /\ startDot st = pos + Z.of_nat (List.length x)
         /\ (preDotState st = 0 <-> x = []))) ->
  scanInv pos done st.
Proof. intros. right. exists comp, slashes. repeat split; assumption. Qed.

(** One unit that is not a slash keeps the invariant. *)
Lemma scanInv_unit pos done st code :
  0 <= pos ->
  code <> 47 ->
  scanInv (pos + 1) done st ->
  let st1 :=
    if endIdx st =? -1
    then ExtState (startDot st) (startPart st) (pos + 1) false (preDotState st)
    else st in
  let st2 :=
    if code =? 46 then
      if startDot st1 =? -1
      then ExtState pos (startPart st1) (endIdx st1) (matchedSlash st1) (preDotState st1)
      else if negb (preDotState st1 =? 1)
      then ExtState (startDot st1) (startPart st1) (endIdx st1) (matchedSlash st1) 1
      else st1
    else if negb (startDot st1 =? -1)
    then ExtState (startDot st1) (startPart st1) (endIdx st1) (matchedSlash st1) (-1)
    else st1 in
  scanInv pos (code :: done) st2.
Proof.
  intros Hpos Hcode Hinv. cbn zeta.
  assert (Hns : negb (code =? 47) = true) by (apply negb_true_iff, Z.eqb_neq, Hcode).
  destruct st as [sd part ed ms pd]. cbn [startDot startPart endIdx matchedSlash preDotState].
  destruct Hinv as [(He & Hsd & Hpd & Hms & Hall)
                   | (comp & slashes & Hdone & Hsl & Hne & Hnsl & Hms & He & Hdot)];
    cbn [startDot startPart endIdx matchedSlash preDotState] in *.
  - (* nothing recorded yet: this unit is the last one of the portion *)
    subst ed sd pd ms. change (-1 =? -1) with true. cbn iota.
    cbn [startDot startPart endIdx matchedSlash preDotState].
    change (-1 =? -1) with true. cbn [negb]. cbn iota.
    destruct (Z.eqb_spec code 46) as [->|Hc46].
    + apply (scanInv_inside pos (46 :: done) _ [46] done);
        cbn [startDot startPart endIdx matchedSlash preDotState List.length];
        [reflexivity | exact Hall | discriminate | reflexivity | reflexivity | lia |].
      right. exists [], []. cbn [List.length app].
      split; [reflexivity | split; [reflexivity | split; [lia | tauto]]].
    + apply (scanInv_inside pos (code :: done) _ [code] done);
        cbn [startDot startPart endIdx matchedSlash preDotState List.length];
        [reflexivity | exact Hall | discriminate | cbn; rewrite Hns; reflexivity
        | reflexivity | lia |].
      left. split; [reflexivity | split; [reflexivity|]].
      cbn. rewrite (proj2 (Z.eqb_neq code 46) Hc46). reflexivity.
  - (* inside the last portion *)
    subst ms.
    assert (Hend : (ed =? -1) = false) by (apply Z.eqb_neq; lia).
    rewrite Hend. cbn [startDot startPart endIdx matchedSlash preDotState].
    assert (Hin : forall st',
              matchedSlash st' = false -> endIdx st' = ed ->
              ((startDot st' = -1 /\ preDotState st' = 0 /\ noDot (code :: comp) = true)
               \/ (exists x e,
                     code :: comp = x ++ 46 :: e /\ noDot e = true
                     /\ startDot st' = pos + Z.of_nat (List.length x)
                     /\ (preDotState st' = 0 <-> x = []))) ->
              scanInv pos (code :: done) st').
    { intros st' Hms' He' Hd'.
      apply (scanInv_inside pos (code :: done) st' (code :: comp) slashes);
        [rewrite Hdone; reflexivity | exact Hsl | discriminate
        | cbn; rewrite Hns; exact Hnsl | exact Hms'
        | rewrite He', He; cbn [List.length]; lia | exact Hd']. }
    destruct Hdot as [(Hsd & Hpd & Hnd) | (x & e & Hcomp & Hnde & Hsd & Hpd)].
    + subst sd pd. change (-1 =? -1) with true. cbn [negb]. cbn iota.
      destruct (Z.eqb_spec code 46) as [->|Hc46].
      * apply Hin; [reflexivity | reflexivity |].
        right. exists [], comp. cbn [List.length app startDot preDotState].
        split; [reflexivity | split; [exact Hnd | split; [lia | tauto]]].
      * apply Hin; [reflexivity | reflexivity |].
        left. cbn [startDot preDotState].
        split; [reflexivity | split; [reflexivity|]].
        cbn. rewrite (proj2 (Z.eqb_neq code 46) Hc46). exact Hnd.
    + assert (Hsd' : (sd =? -1) = false) by (apply Z.eqb_neq; lia).
      rewrite Hsd'. cbn [negb]. cbn iota.
      destruct (Z.eqb_spec code 46) as [->|Hc46].
      * destruct (Z.eqb_spec pd 1) as [Hp1|Hp1]; cbn [negb]; cbn iota;
          (apply Hin; [reflexivity | reflexivity |]);
          right; exists (46 :: x), e; rewrite Hcomp;
          cbn [List.length app startDot preDotState];
          (split; [reflexivity | split; [exact Hnde | split; [lia|]]]);
          split; intros; try discriminate; lia.
      * apply Hin; [reflexivity | reflexivity |].
        right. exists (code :: x), e. rewrite Hcomp.
        cbn [List.length app startDot preDotState].
        split; [reflexivity | split; [exact Hnde | split; [lia|]]].
        split; intros; try discriminate; lia.
Qed.

(** The scan keeps the invariant up to where it stops. *)
Lemma extnameScan_inv (units : list Z) :
  forall done st,
    scanInv (Z.of_nat (List.length units)) done st ->
    exists pre done',
      rev units ++ done = pre ++ done'
      /\ scanInv (Z.of_nat (List.length pre)) done'
           (extnameScan units (Z.of_nat (List.length units) - 1) st).
Proof.
  induction units as [|code more IH]; intros done st Hinv.
  - exists [], done. split; [reflexivity | exact Hinv].
  - cbn [extnameScan].
    replace (Z.of_nat (List.length (code :: more)) - 1)
      with (Z.of_nat (List.length more)) by (cbn [List.length]; lia).
    assert (Hrev : rev (code :: more) ++ done = rev more ++ code :: done).
    { cbn [rev]. rewrite <- app_assoc. reflexivity. }
    rewrite Hrev.
    replace (Z.of_nat (List.length (code :: more)))
      with (Z.of_nat (List.length more) + 1) in Hinv by (cbn [List.length]; lia).
    destruct (Z.eqb_spec code 47) as [->|Hcode].
    + destruct st as [sd part ed ms pd].
      cbn [startDot startPart endIdx matchedSlash preDotState].
      destruct ms; cbn [negb].
      * (* a trailing slash *)
        apply IH.
        destruct Hinv as [(He & Hsd & Hpd & _ & Hall) | (comp & slashes & _ & _ & _ & _ & Hf & _)];
          [|discriminate].
        left. repeat split; auto.
      * (* the slash in front of the last portion: the scan stops *)
        exists (rev more ++ [47]), done. split.
        -- rewrite <- app_assoc. reflexivity.
        -- rewrite length_app. cbn [List.length].
           replace (Z.of_nat (List.length (rev more) + 1))
             with (Z.of_nat (List.length more) + 1) by (rewrite length_rev; lia).
           exact Hinv.
    + apply IH.
      apply (scanInv_unit (Z.of_nat (List.length more)) done st code); [lia | exact Hcode | exact Hinv].
Qed.

Lemma slice_middle (pre mid post : jsstring) :
  slice (pre ++ mid ++ post) (Z.of_nat (List.length pre))
        (Z.of_nat (List.length pre) + Z.of_nat (List.length mid)) = mid.
Proof.
  unfold slice. rewrite Nat2Z.id.
  replace (Z.to_nat (Z.of_nat (List.length pre) + Z.of_nat (List.length mid) - Z.of_nat (List.length pre)))
    with (List.length mid) by lia.
  rewrite skipn_length_app. rewrite firstn_app, Nat.sub_diag, firstn_all. cbn.
  apply app_nil_r.
Qed.

Lemma last_of_portion (pre x : jsstring) :
  x <> [] -> noSlash x = true -> List.last (pre ++ x) 0 <> 47.
Proof.
  intros Hne Hx.
  destruct (exists_last Hne) as (x' & b & ->).
  rewrite app_assoc, last_last.
  unfold noSlash in Hx. rewrite forallb_app in Hx. apply andb_true_iff in Hx as [_ Hb].
  cbn in Hb. rewrite andb_true_r in Hb. apply negb_true_iff, Z.eqb_neq in Hb. exact Hb.
Qed.

(** What [extname] returns: nothing, or the period and what follows it in
    a last portion that has something in front of that period. *)
Lemma extname_shape (path : jsstring) :
  extname path = []
  \/ exists base e slashes,
       path = base ++ (46 :: e) ++ slashes
       /\ allSlash slashes = true /\ noSlash e = true /\ noDot e = true
       /\ base <> [] /\ List.last base 0 <> 47
       /\ extname path = 46 :: e.
Proof.
  unfold extname.
  assert (Hinit : scanInv (Z.of_nat (List.length (rev path))) [] scanStart).
  { left. repeat split. }
  destruct (extnameScan_inv (rev path) [] scanStart Hinit) as (pre & done' & Hpath & Hinv).
  rewrite rev_involutive, app_nil_r in Hpath. rewrite length_rev in Hinv.
  fold scanStart.
  set (st := extnameScan (rev path) (Z.of_nat (List.length path) - 1) scanStart) in *.
  destruct ((startDot st =? -1) || (endIdx st =? -1) || (preDotState st =? 0)
            || (preDotState st =? 1) && (startDot st =? endIdx st - 1)
               && (startDot st =? startPart st + 1)) eqn:Hcond; [left; reflexivity|].
  right.
  apply orb_false_iff in Hcond as [Hcond _].
  apply orb_false_iff in Hcond as [Hcond Hpd].
  apply orb_false_iff in Hcond as [Hsd He].
  apply Z.eqb_neq in Hsd, He, Hpd.
  destruct Hinv as [(He' & _) | (comp & slashes & Hdone & Hsl & Hne & Hnsl & Hms & Hend & Hdot)];
    [contradiction|].
  destruct Hdot as [(Hsd' & _) | (x & e & Hcomp & Hnde & Hstart & Hpre)]; [contradiction|].
  assert (Hx : x <> []) by (intros E; apply Hpd, Hpre, E).
  subst comp. unfold noSlash in Hnsl. rewrite forallb_app in Hnsl.
  apply andb_true_iff in Hnsl as [Hxs Hes]. cbn in Hes. 
  exists (pre ++ x), e, slashes.
  assert (Hp : path = (pre ++ x) ++ (46 :: e) ++ slashes).
  { rewrite Hpath, Hdone. rewrite <- !app_assoc. reflexivity. }
  split; [exact Hp|]. split; [exact Hsl|]. split; [exact Hes|]. split; [exact Hnde|].
  split; [destruct pre; [exact Hx | discriminate]|].
  split; [apply last_of_portion; assumption|].
  rewrite Hstart, Hend. rewrite Hp at 1.
  rewrite length_app.
  replace (Z.of_nat (List.length pre) + Z.of_nat (List.length x))
    with (Z.of_nat (List.length (pre ++ x))) by (rewrite length_app; lia).
  replace (Z.of_nat (List.length pre) + Z.of_nat (List.length x + List.length (46 :: e)))
    with (Z.of_nat (List.length (pre ++ x)) + Z.of_nat (List.length (46 :: e)))
    by (rewrite length_app; lia).
  apply slice_middle.
Qed.

(** Trailing slashes leave the state as it is. *)
Lemma extnameScan_slashes (sl : jsstring) :
  forall rest i st,
    allSlash sl = true -> matchedSlash st = true ->
    extnameScan (sl ++ rest) i st = extnameScan rest (i - Z.of_nat (List.length sl)) st.
Proof.
  induction sl as [|c sl IH]; intros rest i st Hsl Hms.
  - cbn [app List.length]. f_equal. lia.
  - unfold allSlash in Hsl. cbn [forallb] in Hsl.
    apply andb_true_iff in Hsl as [Hc Hsl]. apply Z.eqb_eq in Hc. subst c.
    cbn [app extnameScan]. change (47 =? 47) with true. cbn iota. rewrite Hms. cbn [negb].
    rewrite (IH rest (i - 1) st Hsl Hms). f_equal. cbn [List.length]. lia.
Qed.

(** Units that are neither slash nor period, once the end of the portion
    is recorded and while no period is: only the index moves. *)
Lemma extnameScan_tail (l : jsstring) :
  forall rest j part E,
    E <> -1 -> noSlash l = true -> noDot l = true ->
    extnameScan (l ++ rest) j (ExtState (-1) part E false 0)
    = extnameScan rest (j - Z.of_nat (List.length l)) (ExtState (-1) part E false 0).
Proof.
  induction l as [|c l IH]; intros rest j part E HE Hs Hd.
  - cbn [app List.length]. f_equal. lia.
  - unfold noSlash, noDot in Hs, Hd. cbn [forallb] in Hs, Hd.
    apply andb_true_iff in Hs as [Hc Hs]. apply andb_true_iff in Hd as [Hc' Hd].
    apply negb_true_iff in Hc, Hc'.
    cbn [app extnameScan]. fields.
    rewrite Hc, Hc', (proj2 (Z.eqb_neq E (-1)) HE). fields.
    rewrite (IH rest (j - 1) part E HE Hs Hd). f_equal. cbn [List.length]. lia.
Qed.

(** Once a period is recorded with something in front of it, the rest of
    the scan keeps it. *)
Lemma extnameScan_rest (more : list Z) :
  forall j st,
    startDot st <> -1 -> endIdx st <> -1 -> preDotState st <> 0 ->
    matchedSlash st = false ->
    startDot (extnameScan more j st) = startDot st
    /\ endIdx (extnameScan more j st) = endIdx st
    /\ preDotState (extnameScan more j st) <> 0.
Proof.
  induction more as [|c more IH]; intros j st Hsd He Hpd Hms.
  - cbn. auto.
  - destruct st as [sd part ed ms pd].
    cbn [startDot startPart endIdx matchedSlash preDotState] in *. subst ms.
    cbn [extnameScan]. fields.
    destruct (c =? 47); [cbn; auto|].
    rewrite (proj2 (Z.eqb_neq ed (-1)) He). fields.
    rewrite (proj2 (Z.eqb_neq sd (-1)) Hsd). fields.
    assert (Hgo : forall pd', pd' <> 0 ->
              startDot (extnameScan more (j - 1) (ExtState sd part ed false pd')) = sd
              /\ endIdx (extnameScan more (j - 1) (ExtState sd part ed false pd')) = ed
              /\ preDotState (extnameScan more (j - 1) (ExtState sd part ed false pd')) <> 0).
    { intros pd' Hpd'.
      apply (IH (j - 1) (ExtState sd part ed false pd')); first [assumption | reflexivity]. }
    destruct (c =? 46).
    + destruct (Z.eqb_spec pd 1) as [Hp|Hp]; fields; apply Hgo; lia.
    + apply Hgo. lia.
Qed.

(** The extension of a name with something in front of its last period. *)
Lemma extname_of_named (base e slashes : jsstring) :
  allSlash slashes = true -> e <> [] -> noSlash e = true -> noDot e = true ->
  base <> [] -> List.last base 0 <> 47 ->
  extname (base ++ (46 :: e) ++ slashes) = 46 :: e.
Proof.
  intros Hsl Hne Hes Hed Hb Hlast.
  destruct (exists_last Hb) as (base' & b & ->). rewrite last_last in Hlast.
  destruct (exists_last Hne) as (e' & c & ->).
  unfold noSlash, noDot in Hes, Hed. rewrite forallb_app in Hes, Hed.
  apply andb_true_iff in Hes as [Hes Hc]. apply andb_true_iff in Hed as [Hed Hc'].
  cbn [forallb] in Hc, Hc'. rewrite andb_true_r in Hc, Hc'. apply negb_true_iff in Hc, Hc'.
  set (path := (base' ++ [b]) ++ (46 :: e' ++ [c]) ++ slashes).
  assert (Hrev : rev path = rev slashes ++ c :: rev e' ++ 46 :: b :: rev base').
  { unfold path. rewrite !rev_app_distr. cbn [rev]. rewrite !rev_app_distr. cbn [rev app].
    repeat (rewrite <- !app_assoc; cbn [app]). reflexivity. }
  assert (Hlen : Z.of_nat (List.length path)
                 = Z.of_nat (List.length base') + 1 + 1 + Z.of_nat (List.length e') + 1
                   + Z.of_nat (List.length slashes)).
  { unfold path. rewrite !length_app. cbn [List.length]. rewrite length_app.
    cbn [List.length]. lia. }
  unfold extname. fold path. rewrite Hrev.
  assert (Hrsl : allSlash (rev slashes) = true).
  { unfold allSlash in *. rewrite forallb_forall in *. intros x Hx. apply Hsl.
    apply in_rev. exact Hx. }
  rewrite (extnameScan_slashes (rev slashes) _ _ scanStart Hrsl eq_refl).
  rewrite length_rev.
  set (i := Z.of_nat (List.length path) - 1 - Z.of_nat (List.length slashes)).
  (* the last unit of the portion records its end *)
  cbn [extnameScan app]. unfold scanStart at 1. fields. rewrite Hc, Hc'. fields.
  assert (Hi : i + 1 <> -1) by (unfold i; lia).
  assert (Hres : noSlash (rev e') = true /\ noDot (rev e') = true).
  { unfold noSlash, noDot. rewrite !forallb_forall in *.
    split; intros x Hx; [apply Hes | apply Hed]; apply in_rev; exact Hx. }
  destruct Hres as [Hres Hred].
  rewrite (extnameScan_tail (rev e') _ _ 0 (i + 1) Hi Hres Hred). rewrite length_rev.
  set (j := i - 1 - Z.of_nat (List.length e')).
  (* the period *)
  cbn [extnameScan]. fields.
  rewrite (proj2 (Z.eqb_neq (i + 1) (-1)) Hi). fields.
  (* the unit in front of the period *)
  assert (Hj : j <> -1) by (unfold j, i; lia).
  cbn [extnameScan]. fields.
  rewrite (proj2 (Z.eqb_neq b 47) Hlast).
  rewrite (proj2 (Z.eqb_neq (i + 1) (-1)) Hi). fields.
  rewrite (proj2 (Z.eqb_neq j (-1)) Hj). fields.
  set (st := if b =? 46 then ExtState j 0 (i + 1) false 1
             else ExtState j 0 (i + 1) false (-1)).
  assert (Hst : startDot st = j /\ endIdx st = i + 1 /\ preDotState st <> 0
                /\ matchedSlash st = false).
  { unfold st. destruct (b =? 46); cbn; repeat split; lia. }
  destruct Hst as (Hsd & He & Hpd & Hms).
  destruct (extnameScan_rest (rev base') (j - 1 - 1) st) as (Hsd' & He' & Hpd');
    [lia | lia | exact Hpd | exact Hms |].
  rewrite Hsd', He', Hsd, He.
  rewrite (proj2 (Z.eqb_neq j (-1)) Hj), (proj2 (Z.eqb_neq (i + 1) (-1)) Hi).
  rewrite (proj2 (Z.eqb_neq _ 0) Hpd').
  assert (Hdd : (j =? i + 1 - 1) = false) by (apply Z.eqb_neq; unfold j; lia).
  rewrite Hdd, andb_false_r. cbn [orb andb].
  replace j with (Z.of_nat (List.length (base' ++ [b])))
    by (unfold j, i; rewrite length_app; cbn [List.length]; lia).
  replace (i + 1)
    with (Z.of_nat (List.length (base' ++ [b])) + Z.of_nat (List.length (46 :: e' ++ [c])))
    by (unfold i; rewrite !length_app; cbn [List.length]; rewrite length_app;
        cbn [List.length]; lia).
  unfold path. apply slice_middle.
Qed.

Lemma lower_unit_cases (c v : Z) :
  lower_unit c = v -> c = v \/ (c = v - 32 /\ 65 <= c <= 90).
Proof.
  unfold lower_unit, in_range.
  destruct (Z.leb_spec 65 c), (Z.leb_spec c 90); cbn; lia.
Qed.

Lemma lower_doc (ext : jsstring) :
  toLowerCase ext = js ".doc" ->
  exists e, ext = 46 :: e /\ e <> [] /\ noSlash e = true /\ noDot e = true.
Proof.
  intros H. destruct ext as [|a [|b [|c [|d [|]]]]]; try discriminate.
  change (js ".doc") with [46; 100; 111; 99] in H.
  cbn [toLowerCase map] in H. inversion H as [[Ha Hb Hc Hd]].
  apply lower_unit_cases in Ha, Hb, Hc, Hd.
  exists [b; c; d].
  assert (a = 46) by lia.
  assert (b = 100 \/ b = 68) by lia.
  assert (c = 111 \/ c = 79) by lia.
  assert (d = 99 \/ d = 67) by lia.
  clear Ha Hb Hc Hd.
  subst a. split; [reflexivity|]. split; [discriminate|].
  unfold noSlash, noDot.
  repeat match goal with H : _ \/ _ |- _ => destruct H; subst end; split; reflexivity.
Qed.

(** Under Node, the extension lower-cases to ".doc" exactly for the paths
    whose last portion is a name in front of ".doc". *)
Lemma extname_doc_iff (path : jsstring) :
  toLowerCase (extname path) = js ".doc" <-> docNamed path.
Proof.
  split.
  - intros H. destruct (extname_shape path) as [E | (base & e & slashes & Hp & Hsl & _ & _ & Hb & Hl & E)].
    + rewrite E in H. discriminate.
    + exists base, (46 :: e), slashes. rewrite E in H. repeat split; assumption.
  - intros (base & ext & slashes & Hp & Hext & Hsl & Hb & Hl).
    destruct (lower_doc ext Hext) as (e & -> & Hne & Hes & Hed).
    rewrite Hp, (extname_of_named base e slashes Hsl Hne Hes Hed Hb Hl). exact Hext.
Qed.

End ExtnameScan.

Section ManualParsing.

Lemma lastIndexOf_none (e : jsstring) : noDot e = true -> lastIndexOf 46 e = None.
Proof.
  induction e as [|x e IH]; intros H; [reflexivity|].
  unfold noDot in H. cbn [forallb] in H. apply andb_true_iff in H as [Hx He].
  apply negb_true_iff in Hx. cbn [lastIndexOf]. rewrite (IH He), Hx. reflexivity.
Qed.

Lemma lastIndexOf_last_dot (p e : jsstring) :
  noDot e = true -> lastIndexOf 46 (p ++ 46 :: e) = Some (List.length p).
Proof.
  intros He. induction p as [|x p IH]; cbn [app lastIndexOf List.length].
  - rewrite (lastIndexOf_none e He). reflexivity.
  - rewrite IH. reflexivity.
Qed.

Lemma endsWith_iff (suffix s : jsstring) :
  endsWith suffix s = true <-> exists p, s = p ++ suffix.
Proof.
  unfold endsWith, str_eqb. rewrite bool_decide_eq_true. split.
  - intros H. exists (firstn (List.length s - List.length suffix) s).
    pose proof (firstn_skipn (List.length s - List.length suffix) s) as E.
    rewrite H in E. symmetry. exact E.
  - intros (p & ->). rewrite length_app.
    replace (List.length p + List.length suffix - List.length suffix)%nat
      with (List.length p) by lia.
    apply skipn_length_app.
Qed.

(** Without the [path] module, the extension is ".doc" exactly when the
    lower-cased name ends in ".doc". *)
Lemma manual_doc_iff (path : jsstring) :
  fileExtension inBrowser path = js ".doc"
  <-> endsWith (js ".doc") (toLowerCase path) = true.
Proof.
  unfold fileExtension, inBrowser. rewrite endsWith_iff. split.
  - destruct (lastIndexOf 46 (toLowerCase path)) as [i|]; [|discriminate].
    intros H. exists (firstn i (toLowerCase path)).
    pose proof (firstn_skipn i (toLowerCase path)) as E.
    rewrite H in E. symmetry. exact E.
  - intros (p & ->).
    change (js ".doc") with (46 :: js "doc").
    rewrite (lastIndexOf_last_dot p (js "doc") eq_refl).
    apply skipn_length_app.
Qed.

End ManualParsing.

(** C1, as stated, fails under Node: the name ".doc" ends in ".doc", has no
    extension for [path.extname], and goes on to the extraction; and
    "report.doc/" does not end in ".doc" and is rejected. *)
Lemma bare_doc_name_not_rejected :
  endsWith (js ".doc") (toLowerCase (js ".doc")) = true
  /\ validateFileExtension onNode (js ".doc") = Returns tt
  /\ (forall e options,
        extractionCalls (convert onNode e (PathInput (js ".doc")) options)
        = [WithPath (js ".doc")])
  /\ endsWith (js ".doc") (toLowerCase (js "report.doc/")) = false
  /\ validateFileExtension onNode (js "report.doc/")
     = Throws (UnsupportedFileError unsupportedMessage).
Proof. repeat split. Qed.

(** C1, amended: [convert] throws [UnsupportedFileError], with no call of
    the extraction, exactly for the paths whose extension, as the program
    takes it, lower-cases to ".doc"; for every other path it throws
    nothing and calls the extraction once, with that path.  Under Node
    the extension is that of [path.extname], and these are the paths whose
    last portion, trailing slashes aside, is a name that is not empty
    followed by ".doc" in any letter case; where the [path] module is
    missing they are the paths whose lower-cased form ends in ".doc". *)
Theorem doc_extension_rejected_before_extraction
    (pathModule : option (jsstring -> jsstring)) (e : engines)
    (options : convertOptions) (path : jsstring) :
  (fileExtension pathModule path = js ".doc" ->
     convert pathModule e (PathInput path) options
     = Rejected (UnsupportedFileError unsupportedMessage)
     /\ extractionCalls (convert pathModule e (PathInput path) options) = [])
  /\ (fileExtension pathModule path <> js ".doc" ->
        convert pathModule e (PathInput path) options
        = Extraction (WithPath path) (mammothOptions options) (afterExtraction e options)
        /\ extractionCalls (convert pathModule e (PathInput path) options) = [WithPath path])
  /\ (fileExtension onNode path = js ".doc" <-> docNamed path)
  /\ (fileExtension inBrowser path = js ".doc"
      <-> endsWith (js ".doc") (toLowerCase path) = true).
Proof.
  split; [|split; [|split]].
  - intros H. unfold convert, validateFileExtension, str_eqb.
    rewrite (bool_decide_eq_true_2 _ H). split; reflexivity.
  - intros H. unfold convert, validateFileExtension, str_eqb.
    rewrite (bool_decide_eq_false_2 _ H). split; reflexivity.
  - apply extname_doc_iff.
  - apply manual_doc_iff.
Qed.

(** ** Adequacy of the bound of the table pass *)

Section TablePassBound.

Variable api : parserApi.

Lemma height_children t a (cs : list node) (c : node) :
  In c cs -> (height c < height (Element t a cs))%nat.
Proof.
  cbn [height]. induction cs as [|x cs IH]; intros Hin; [contradiction|].
  cbn [fold_right]. destruct Hin as [-> | Hin]; [lia|].
  specialize (IH Hin). lia.
Qed.

Lemma height_bound t a (cs : list node) (h : nat) :
  (forall c, In c cs -> (height c <= h)%nat) -> (height (Element t a cs) <= S h)%nat.
Proof.
  cbn [height]. induction cs as [|x cs IH]; intros H; cbn [fold_right]; [lia|].
  pose proof (H x (or_introl eq_refl)).
  assert (forall c, In c cs -> (height c <= h)%nat) by (intros c Hc; apply H; right; exact Hc).
  specialize (IH H1). lia.
Qed.

Lemma height_retagAll from to (n : node) : height (retagAll from to n) = height n.
Proof.
  induction n as [raw | t a cs IH] using node_rect_nested; [reflexivity|].
  cbn [retagAll height]. f_equal.
  induction IH as [|c cs Hc _ IHcs]; [reflexivity|].
  cbn [map fold_right]. rewrite IHcs. f_equal.
  rewrite <- Hc. destruct (retagAll from to c); [reflexivity|].
  destruct (hasTag from c); reflexivity.
Qed.

(** Rewriting or detaching a descendant does not make a tree higher. *)
Lemma height_updateFirst p f (n : node) :
  (forall c c', f c = Some c' -> (height c' <= height c)%nat) ->
  forall n', updateFirst p f n = Some n' -> (height n' <= height n)%nat.
Proof.
  intros Hf. induction n as [raw | t a cs IH] using node_rect_nested; intros n'.
  - cbn. discriminate.
  - rewrite updateFirst_Element.
    destruct (updateFirstList p f cs) as [l'|] eqn:El; cbn [option_map]; [|discriminate].
    intros E. inversion E; subst n'. clear E.
    assert (L : forall h, (forall c, In c cs -> (height c <= h)%nat) ->
                          forall c, In c l' -> (height c <= h)%nat).
    { revert l' El. induction IH as [|x cs Hx _ IHcs]; intros l' El h Hh; [discriminate|].
      cbn [updateFirstList] in El.
      pose proof (Hh x (or_introl eq_refl)) as Hxh.
      assert (Hcs : forall c, In c cs -> (height c <= h)%nat)
        by (intros c Hc; apply Hh; right; exact Hc).
      destruct (p x).
      - destruct (f x) as [x'|] eqn:Ef; inversion El; subst l'.
        + intros c [<- | Hc]; [specialize (Hf _ _ Ef); lia | apply Hcs, Hc].
        + exact Hcs.
      - destruct (updateFirst p f x) as [x'|] eqn:Ex.
        + inversion El; subst l'.
          intros c [<- | Hc]; [specialize (Hx x' eq_refl); lia | apply Hcs, Hc].
        + destruct (updateFirstList p f cs) as [l0|] eqn:E0; cbn [option_map] in El;
            [|discriminate].
          inversion El; subst l'.
          intros c [<- | Hc]; [exact Hxh | exact (IHcs l0 eq_refl h Hcs c Hc)]. }
    destruct (height (Element t a cs)) as [|h] eqn:Eh.
    { cbn [height] in Eh. discriminate. }
    apply height_bound. apply L. intros c Hc.
    pose proof (height_children t a cs c Hc). lia.
Qed.

Lemma height_orSelf p f (n : node) :
  (forall c c', f c = Some c' -> (height c' <= height c)%nat) ->
  (height (orSelf n (updateFirst p f n)) <= height n)%nat.
Proof.
  intros Hf. destruct (updateFirst p f n) as [n'|] eqn:E; cbn [orSelf]; [|lia].
  exact (height_updateFirst p f n Hf n' E).
Qed.

Lemma height_promoteTableHeader (n : node) :
  (height (promoteTableHeader api n) <= height n)%nat.
Proof.
  unfold promoteTableHeader.
  assert (Hretag : forall c c', Some (retagAll "td" "th" c) = Some c' ->
                                (height c' <= height c)%nat).
  { intros c c' E. inversion E. rewrite height_retagAll. lia. }
  destruct (querySelector "tr" n); [|lia].
  destruct (querySelector "th" n0); [lia|].
  destruct (isEmptyRow api n0).
  - etransitivity; [apply height_orSelf, Hretag|].
    apply height_orSelf. discriminate.
  - apply height_orSelf, Hretag.
Qed.

(** Any bound above the height of the tree gives the same result: the
    bound of [processTables] never cuts the pass short. *)
Lemma processTablesFrom_enough (fuel1 : nat) :
  forall fuel2 n,
    (height n < fuel1)%nat -> (height n < fuel2)%nat ->
    processTablesFrom api fuel1 n = processTablesFrom api fuel2 n.
Proof.
  induction fuel1 as [|f1 IH]; intros fuel2 n H1 H2; [lia|].
  destruct fuel2 as [|f2]; [lia|].
  cbn [processTablesFrom].
  assert (Hh : (height (if hasTag "table" n then promoteTableHeader api n else n)
                <= height n)%nat).
  { destruct (hasTag "table" n); [apply height_promoteTableHeader | lia]. }
  destruct (if hasTag "table" n then promoteTableHeader api n else n) as [raw | t a cs];
    [reflexivity|].
  f_equal. apply map_ext_in. intros c Hc.
  pose proof (height_children t a cs c Hc).
  apply IH; lia.
Qed.

End TablePassBound.

(** ** An empty only row *)

Section EmptyOnlyRow.

Variable api : parserApi.

(** The callback on a table whose only row is empty. *)
Lemma promoteTableHeader_empty_only_row (table firstRow : node) :
  querySelector "tr" table = Some firstRow ->
  querySelector "th" firstRow = None ->
  isEmptyRow api firstRow = true ->
  noSubsequentRow table firstRow ->
  detached firstRow table (promoteTableHeader api table)
  /\ querySelectorAll "tr" (promoteTableHeader api table) = []
  /\ promoteTableHeader api table <> table.
Proof.
  intros Hrow Hth Hempty Hlast.
  unfold promoteTableHeader. rewrite Hrow, Hth, Hempty.
  unfold querySelector, querySelectorAll in Hrow.
  unfold noSubsequentRow, querySelectorAll in Hlast.
  destruct (updateFirst (hasTag "tr") (fun _ => None) table) as [removed|] eqn:E.
  2:{ apply updateFirst_None in E. rewrite E in Hrow. discriminate. }
  cbn [orSelf].
  destruct (updateFirst_detach (hasTag "tr") (hasTag_tag "tr") table removed E)
    as (r & Hm & Hd).
  rewrite Hm in Hrow. cbn in Hrow. inversion Hrow; subst r.
  assert (Hnone : List.filter (hasTag "tr") (descendants removed) = []).
  { rewrite Hm in Hlast. inversion Hlast as [Heq].
    rewrite <- (app_nil_r (List.filter (hasTag "tr") (descendants firstRow))) in Heq at 2.
    apply app_inv_head in Heq. exact Heq. }
  rewrite (proj2 (updateFirst_None (hasTag "tr") _ removed) Hnone). cbn [orSelf].
  split; [exact Hd | split; [exact Hnone|]].
  intros Heq. rewrite Heq in Hnone. rewrite Hm in Hnone. discriminate.
Qed.

Lemma rows_of_children (c : node) (cs : list node) :
  List.filter (hasTag "tr") (descendantsOfAll (c :: cs)) = [] ->
  List.filter (hasTag "tr") (descendants c) = []
  /\ List.filter (hasTag "tr") (descendantsOfAll cs) = [].
Proof.
  rewrite descendantsOfAll_cons. cbn [List.filter].
  destruct (hasTag "tr" c); [discriminate|].
  rewrite List.filter_app. apply app_eq_nil.
Qed.

(** The pass changes nothing in a tree without rows: the callback of each
    of its tables returns at once. *)
Lemma processTablesFrom_no_row (fuel : nat) :
  forall n,
    List.filter (hasTag "tr") (descendants n) = [] ->
    processTablesFrom api fuel n = n.
Proof.
  induction fuel as [|fuel IH]; intros n H; [reflexivity|].
  cbn [processTablesFrom].
  assert (Hcb : (if hasTag "table" n then promoteTableHeader api n else n) = n).
  { destruct (hasTag "table" n); [|reflexivity].
    unfold promoteTableHeader, querySelector, querySelectorAll. rewrite H. reflexivity. }
  rewrite Hcb. clear Hcb. destruct n as [raw | t a cs]; [reflexivity|]. f_equal.
  rewrite descendants_Element in H.
  induction cs as [|c cs IHcs]; [reflexivity|].
  apply rows_of_children in H as [Hc Hcs].
  cbn [map]. rewrite (IH c Hc), (IHcs Hcs). reflexivity.
Qed.

(** The pass at a table without rows after its callback: what the
    callback returns. *)
Lemma processTablesFrom_table (fuel : nat) (table : node) :
  hasTag "table" table = true ->
  querySelectorAll "tr" (promoteTableHeader api table) = [] ->
  processTablesFrom api (S fuel) table = promoteTableHeader api table.
Proof.
  intros Ht Hrows. cbn [processTablesFrom]. rewrite Ht.
  unfold querySelectorAll in Hrows.
  destruct (promoteTableHeader api table) as [raw | t a cs]; [reflexivity|]. f_equal.
  rewrite descendants_Element in Hrows.
  induction cs as [|c cs IHcs]; [reflexivity|].
  apply rows_of_children in Hrows as [Hc Hcs].
  cbn [map]. rewrite (processTablesFrom_no_row fuel c Hc), (IHcs Hcs). reflexivity.
Qed.

(** The pass reaches a position that lies in no table with the subtree it
    had before the pass, and with a bound above its height. *)
Lemma processTablesFrom_at (path : list nat) :
  forall (n : node) (fuel : nat) (sub : node),
    (height n < fuel)%nat ->
    subtreeAt path n = Some sub ->
    insideTable path n = false ->
    exists fuel',
      (height sub < fuel')%nat
      /\ subtreeAt path (processTablesFrom api fuel n)
         = Some (processTablesFrom api fuel' sub).
Proof.
  induction path as [|i path IH]; intros n fuel sub Hfuel Hsub Hin.
  - cbn [subtreeAt] in *. inversion Hsub; subst sub. exists fuel. split; [exact Hfuel | reflexivity].
  - cbn [subtreeAt insideTable] in Hsub, Hin.
    apply orb_false_iff in Hin as [Htable Hin].
    destruct fuel as [|fuel]; [lia|].
    cbn [processTablesFrom]. rewrite Htable.
    destruct n as [raw | t a cs].
    { cbn [childrenOf] in Hsub. destruct i; discriminate. }
    cbn [childrenOf] in Hsub, Hin.
    destruct (nth_error cs i) as [c|] eqn:Ec; [|discriminate].
    pose proof (height_children t a cs c (nth_error_In cs i Ec)) as Hc.
    destruct (IH c fuel sub ltac:(lia) Hsub Hin) as (fuel' & Hfuel' & Hres).
    exists fuel'. split; [exact Hfuel'|].
    cbn [subtreeAt childrenOf]. rewrite (map_nth_error _ _ _ Ec). exact Hres.
Qed.

End EmptyOnlyRow.

(** C3, amended.  Take a table whose first row has no header cell and is
    empty, and which has no row after it.  The table callback of
    [processHtml], run on that table, detaches the row and changes nothing
    else: its result is the table with the row taken out of its parent, it
    has no row left (so no cell was retagged), and it differs from the
    table.  And when such a table stands in the parsed tree at a position
    that lies inside no other table, the table pass of [processHtml]
    leaves at that position exactly this result of the callback.  (A table
    inside another table is reached as the callbacks of the enclosing
    tables have left it, which may have retagged its cells.) *)
Theorem empty_only_row_removed (api : parserApi) (table firstRow : node) :
  querySelector "tr" table = Some firstRow ->
  querySelector "th" firstRow = None ->
  isEmptyRow api firstRow = true ->
  noSubsequentRow table firstRow ->
  (detached firstRow table (promoteTableHeader api table)
   /\ querySelectorAll "tr" (promoteTableHeader api table) = []
   /\ promoteTableHeader api table <> table)
  /\ (forall (root : node) (path : list nat),
        hasTag "table" table = true ->
        subtreeAt path root = Some table ->
        insideTable path root = false ->
        subtreeAt path (processTables api root) = Some (promoteTableHeader api table)).
Proof.
  intros Hrow Hth Hempty Hlast.
  pose proof (promoteTableHeader_empty_only_row api table firstRow Hrow Hth Hempty Hlast)
    as Hcb.
  split; [exact Hcb|].
  intros root path Htable Hsub Hin. unfold processTables.
  destruct (processTablesFrom_at api path root (S (height root)) table
              (Nat.lt_succ_diag_r _) Hsub Hin) as (fuel' & Hfuel' & Hres).
  rewrite Hres. f_equal.
  destruct fuel' as [|fuel']; [lia|].
  apply processTablesFrom_table; [exact Htable | apply Hcb].
Qed.

Lemma empty_only_row_removed_witness :
  (detached blankRow blankRowTable (promoteTableHeader textOnlyParser blankRowTable)
   /\ querySelectorAll "tr" (promoteTableHeader textOnlyParser blankRowTable) = []
   /\ promoteTableHeader textOnlyParser blankRowTable <> blankRowTable)
  /\ (forall (root : node) (path : list nat),
        hasTag "table" blankRowTable = true ->
        subtreeAt path root = Some blankRowTable ->
        insideTable path root = false ->
        subtreeAt path (processTables textOnlyParser root)
        = Some (promoteTableHeader textOnlyParser blankRowTable)).
Proof.
  apply (empty_only_row_removed textOnlyParser blankRowTable blankRow);
    vm_compute; reflexivity.
Defined.

(** The table with the empty only row at the top of a document loses the
    row in the pass; the same table inside the first row of another table
    is reached with its cell already retagged by the callback of that
    table, and keeps its row. *)
Example empty_only_row_in_the_pass :
  subtreeAt [0%nat] (processTables textOnlyParser (Element [] [] [blankRowTable]))
  = Some (Element (js "table") [] [])
  /\ subtreeAt [0; 0; 0; 1]%nat nestedBlankRowTable = Some blankRowTable
  /\ insideTable [0; 0; 0; 1]%nat nestedBlankRowTable = true
  /\ subtreeAt [0; 0; 0; 1]%nat (processTables textOnlyParser nestedBlankRowTable)
     = Some (Element (js "table") [] [Element (js "tr") [] [Element (js "th") [] []]]).
Proof. vm_compute. repeat split. Qed.

(** ** Further properties *)

Section NumericReferences.

Lemma numericMatch_digits (ds : jsstring) :
  ds <> [] -> forallb isDigit ds = true ->
  numericMatch (38 :: 35 :: ds ++ [59]) = Some ds.
Proof.
  intros Hne Hds. unfold numericMatch.
  rewrite (span_app isDigit ds [59] Hds eq_refl).
  destruct ds; [contradiction | reflexivity].
Qed.

Lemma assoc_numeric (ds : jsstring) :
  forallb isDigit ds = true ->
  assoc (38 :: 35 :: ds ++ [59]) decodeMap
  = if bool_decide (ds = [51; 57]) then Some [39] else None.
Proof.
  intros Hds.
  let v := eval vm_compute in decodeMap in change decodeMap with v.
  cbn [assoc]. unfold str_eqb.
  rewrite !(bool_decide_eq_false_2 (38 :: 35 :: ds ++ [59] = 38 :: _ :: _)) by discriminate.
  destruct (decide (ds = [51; 57])) as [-> | Hne].
  - reflexivity.
  - rewrite (bool_decide_eq_false_2 (ds = [51; 57])) by exact Hne.
    rewrite (bool_decide_eq_false_2 (_ = [38; 35; 51; 57; 59])).
    2:{ intros E. apply Hne. injection E as E.
        change [51; 57; 59] with ([51; 57] ++ [59]) in E.
        apply app_inj_tail in E as [E _]. exact E. }
    rewrite (bool_decide_eq_false_2 (_ = [38; 35; 120; 50; 55; 59])).
    2:{ intros E. injection E as E.
        change [120; 50; 55; 59] with ([120; 50; 55] ++ [59]) in E.
        apply app_inj_tail in E as [E _]. subst ds. discriminate. }
    rewrite !(bool_decide_eq_false_2 (38 :: 35 :: ds ++ [59] = 38 :: _ :: _)) by discriminate.
    reflexivity.
Qed.

End NumericReferences.

(** A decimal character reference whose number is below 2^53 is replaced
    by the single unit whose value is that number modulo 2^16: the
    character of that code point when the number is at most 65535, another
    character above. *)
Theorem decimal_reference_decodes_modulo_65536 (ds : jsstring) :
  ds <> [] -> forallb isDigit ds = true ->
  mathInt ds 10 < 2 ^ 53 ->
  decodeEntity (js "&#" ++ ds ++ js ";") = [mathInt ds 10 mod 65536].
Proof.
  intros Hne Hds Hsmall. unfold decodeEntity.
  change (js "&#" ++ ds ++ js ";") with (38 :: 35 :: ds ++ [59]).
  rewrite (assoc_numeric ds Hds).
  destruct (decide (ds = [51; 57])) as [-> | Hd].
  - reflexivity.
  - rewrite (bool_decide_eq_false_2 _ Hd), (numericMatch_digits ds Hne Hds).
    unfold parseInt, toNumber. rewrite (proj2 (Z.ltb_lt _ _) Hsmall). reflexivity.
Qed.

Lemma decimal_reference_witness :
  decodeEntity (js "&#" ++ js "128512" ++ js ";") = [mathInt (js "128512") 10 mod 65536].
Proof.
  apply (decimal_reference_decodes_modulo_65536 (js "128512"));
    [discriminate | reflexivity | vm_compute; reflexivity].
Defined.

(** A tree without any [ul] element is left as it is by the list pass: in
    particular the items of an ordered list that is not inside an
    unordered one keep their glyphs. *)
Theorem lists_outside_unordered_untouched (api : parserApi) (n : node) :
  forallb (fun d => negb (hasTag "ul" d)) (n :: descendants n) = true ->
  stripBullets api false n = n.
Proof.
  induction n as [raw | t a cs IH] using node_rect_nested; intros H; [reflexivity|].
  cbn [forallb] in H. apply andb_true_iff in H as [Hn Hd]. apply negb_true_iff in Hn.
  cbn [stripBullets andb]. rewrite Hn. cbn [orb]. f_equal.
  rewrite descendants_Element in Hd. clear Hn.
  induction IH as [|c cs Hc _ IHcs]; [reflexivity|].
  rewrite descendantsOfAll_cons in Hd.
  change (c :: descendants c ++ descendantsOfAll cs)
    with ((c :: descendants c) ++ descendantsOfAll cs) in Hd.
  rewrite forallb_app in Hd. apply andb_true_iff in Hd as [Hcd Hrest].
  cbn [map]. rewrite (Hc Hcd), (IHcs Hrest). reflexivity.
Qed.

Lemma lists_outside_unordered_witness : stripBullets textOnlyParser false orderedAlone = orderedAlone.
Proof.
  apply (lists_outside_unordered_untouched textOnlyParser orderedAlone). reflexivity.
Defined.

(** The numbered-to-bullet conversion alone is idempotent on every
    string. *)
Theorem numbered_conversion_idempotent (md : jsstring) :
  convertNumberedListsToBullets (convertNumberedListsToBullets md)
  = convertNumberedListsToBullets md.
Proof.
  unfold convertNumberedListsToBullets.
  apply (replaceNumbered_idempotent (List.length md)); [lia | tauto].
Qed.

(** The three scenarios of table header promotion: a first row with a
    header cell stays; an empty first row is dropped and the next row is
    promoted; a first row with text is promoted. *)
Theorem table_header_scenarios :
  let td s := Element (js "td") [] (match s with [] => [] | _ => [TextNode s] end) in
  let th s := Element (js "th") [] (match s with [] => [] | _ => [TextNode s] end) in
  let tr cells := Element (js "tr") [] cells in
  let table rows := Element (js "table") [] rows in
  promoteTableHeader textOnlyParser (table [tr [th (js "A")]; tr [td (js "1")]])
  = table [tr [th (js "A")]; tr [td (js "1")]]
  /\ promoteTableHeader textOnlyParser
       (table [tr [td []; td []]; tr [td (js "X"); td (js "Y")]])
     = table [tr [th (js "X"); th (js "Y")]]
  /\ promoteTableHeader textOnlyParser (table [tr [td (js "Name"); td (js "Age")]])
     = table [tr [th (js "Name"); th (js "Age")]].
Proof. vm_compute. repeat split. Qed.

(** The bound of the table pass is adequate: a larger one gives the same
    tree. *)
Theorem table_pass_bound_adequate (api : parserApi) (root : node) (fuel : nat) :
  (height root < fuel)%nat ->
  processTablesFrom api fuel root = processTables api root.
Proof.
  intros H. unfold processTables. apply processTablesFrom_enough; lia.
Qed.

Lemma table_pass_bound_witness :
  processTablesFrom textOnlyParser 7 blankRowTable = processTables textOnlyParser blankRowTable.
Proof.
  apply (table_pass_bound_adequate textOnlyParser blankRowTable 7). vm_compute. lia.
Defined.

(** ** The scan of the entity decoder *)

(** Case analysis on the binary digits of a unit, for the matches on
    literal units. *)
Ltac by_bits c :=
  destruct c as [|c|c]; try reflexivity;
  repeat (destruct c as [c|c|]; try reflexivity).

Section EntityScan.

(** The match of [match_entity] with tests in place of literal patterns. *)
Lemma match_entity_cons (c : Z) (t : jsstring) :
  match_entity (c :: t)
  = if c =? 38 then
      match span isEntityChar t with
      | ((_ :: _) as body, x :: rest) =>
          if x =? 59 then Some (38 :: body ++ [59], rest) else None
      | _ => None
      end
    else None.
Proof.
  destruct (Z.eqb_spec c 38) as [->|Hc].
  - cbn [match_entity]. destruct (span isEntityChar t) as [body r].
    destruct body as [|b body]; [reflexivity|].
    destruct r as [|x rest]; [reflexivity|].
    destruct (Z.eqb_spec x 59) as [->|Hx]; [reflexivity|].
    by_bits x. exfalso. apply Hx. reflexivity.
  - unfold match_entity. by_bits c. exfalso. apply Hc. reflexivity.
Qed.

Lemma match_entity_elim (s entity rest : jsstring) :
  match_entity s = Some (entity, rest) ->
  s = entity ++ rest
  /\ exists body, entity = 38 :: body ++ [59] /\ body <> []
                  /\ forallb isEntityChar body = true.
Proof.
  destruct s as [|c t]; [discriminate|].
  rewrite match_entity_cons.
  destruct (Z.eqb_spec c 38) as [->|Hc]; [|discriminate].
  destruct (span_spec isEntityChar t) as (Ht & Hbody & _).
  destruct (span isEntityChar t) as [body r]. cbn [fst snd] in *.
  destruct body as [|b body]; [discriminate|].
  destruct r as [|x rest']; [discriminate|].
  destruct (Z.eqb_spec x 59) as [->|Hx]; [|discriminate].
  intros E. inversion E; subst entity rest. split.
  - rewrite Ht. cbn [app]. rewrite <- app_assoc. reflexivity.
  - exists (b :: body). repeat split; [discriminate | exact Hbody].
Qed.

(** A position where no entity starts is copied. *)
Lemma replaceEntities_copy (c : Z) (t : jsstring) :
  match_entity (c :: t) = None ->
  replaceEntities 0 (c :: t) = c :: replaceEntities 0 t.
Proof. intros H. cbn [replaceEntities]. rewrite H. reflexivity. Qed.

Lemma replaceEntities_skip (m : jsstring) :
  forall r, replaceEntities (List.length m) (m ++ r) = replaceEntities 0 r.
Proof.
  induction m as [|c m IH]; intros r; [reflexivity|].
  cbn [List.length app replaceEntities]. apply IH.
Qed.

(** A position where an entity starts: its decoding, then the scan goes on
    behind it. *)
Lemma replaceEntities_match (s entity rest : jsstring) :
  match_entity s = Some (entity, rest) ->
  replaceEntities 0 s = decodeEntity entity ++ replaceEntities 0 rest.
Proof.
  intros H. destruct (match_entity_elim s entity rest H) as (Hs & body & He & _).
  destruct s as [|c t]; [discriminate|].
  cbn [replaceEntities]. rewrite H. f_equal.
  subst entity. cbn [app] in Hs. inversion Hs; subst c t.
  cbn [List.length Nat.pred]. apply replaceEntities_skip.
Qed.

(** A pass changes nothing in a text without ampersand, and nothing in a
    text without semicolon. *)
Lemma decodePass_without (c : Z) (s : jsstring) :
  c = 38 \/ c = 59 ->
  forallb (fun x => negb (x =? c)) s = true -> decodePass s = s.
Proof.
  intros Hc. unfold decodePass. induction s as [|x t IH]; intros H; [reflexivity|].
  cbn [forallb] in H. apply andb_true_iff in H as [Hx Ht]. apply negb_true_iff in Hx.
  rewrite replaceEntities_copy; [rewrite (IH Ht); reflexivity|].
  rewrite match_entity_cons.
  destruct (Z.eqb_spec x 38) as [->|Hx38]; [|reflexivity].
  destruct Hc as [-> | ->]; [discriminate|].
  destruct (span_spec isEntityChar t) as (Hsplit & _ & _).
  destruct (span isEntityChar t) as [body r]. cbn [fst snd] in *.
  destruct body as [|b body]; [reflexivity|].
  destruct r as [|y rest]; [reflexivity|].
  destruct (Z.eqb_spec y 59) as [->|Hy]; [|reflexivity].
  rewrite Hsplit, forallb_app in Ht. apply andb_true_iff in Ht as [_ Ht].
  cbn in Ht. discriminate.
Qed.

(** A text that a pass leaves as it is comes out of the loop as it is. *)
Lemma decodeHtmlEntities_fixed (s : jsstring) :
  decodePass s = s -> decodeHtmlEntities s = s.
Proof.
  intros H. unfold decodeHtmlEntities, decodePasses.
  destruct (includes 38 s); [|reflexivity].
  cbn [decodeLoop]. rewrite H.
  unfold str_eqb. rewrite (bool_decide_eq_true_2 (s = s) eq_refl). reflexivity.
Qed.

Lemma includes_false (c : Z) (s : jsstring) :
  includes c s = false -> forallb (fun x => negb (x =? c)) s = true.
Proof.
  unfold includes. induction s as [|x t IH]; intros H; [reflexivity|].
  cbn [existsb forallb] in *. apply orb_false_iff in H as [Hx Ht].
  rewrite Z.eqb_sym, Hx, (IH Ht). reflexivity.
Qed.

End EntityScan.

(** [decodeHtmlEntities] returns its argument unchanged whenever it
    contains no semicolon, also when it contains ampersands. *)
Theorem decode_without_semicolon_unchanged (html : jsstring) :
  includes 59 html = false -> decodeHtmlEntities html = html.
Proof.
  intros H. apply decodeHtmlEntities_fixed, (decodePass_without 59); [right; reflexivity|].
  apply includes_false, H.
Qed.

Lemma decode_without_semicolon_witness :
  decodeHtmlEntities (js "Tom & Jerry &amp no end") = js "Tom & Jerry &amp no end".
Proof.
  apply (decode_without_semicolon_unchanged (js "Tom & Jerry &amp no end")). reflexivity.
Defined.

Section DecodeFixedPoint.

Lemma last_cons_default (l : list jsstring) :
  forall x d, List.last (x :: l) d = List.last l x.
Proof.
  intros x d. destruct l as [|y l]; [reflexivity|].
  change (List.last (x :: y :: l) d) with (List.last (y :: l) d).
  revert y. induction l as [|z l IH]; intros y; [reflexivity|].
  change (List.last (y :: z :: l) d) with (List.last (z :: l) d).
  change (List.last (y :: z :: l) x) with (List.last (z :: l) x).
  apply IH.
Qed.

(** While the flag of the loop is off, the text is a fixed point of the
    pass; a run that ends before its bound ends on such a text. *)
Lemma decodeLoop_fixed (maxIterations : nat) :
  forall (hasEntities : bool) (decoded : jsstring),
    (hasEntities = false -> decodePass decoded = decoded) ->
    (List.length (decodeLoop maxIterations hasEntities decoded) < maxIterations)%nat ->
    decodePass (List.last (decodeLoop maxIterations hasEntities decoded) decoded)
    = List.last (decodeLoop maxIterations hasEntities decoded) decoded.
Proof.
  induction maxIterations as [|m IH]; intros b s Hq Hlen; [cbn in Hlen; lia|].
  destruct b.
  - cbn [decodeLoop] in *.
    set (d := decodePass s) in *.
    set (b' := negb (str_eqb d s) && includes 38 d) in *.
    assert (Hq' : b' = false -> decodePass d = d).
    { unfold b'. intros Hb. apply andb_false_iff in Hb as [Hb | Hb].
      - apply negb_false_iff in Hb. unfold str_eqb in Hb.
        apply bool_decide_eq_true in Hb. rewrite Hb. exact Hb.
      - apply (decodePass_without 38); [left; reflexivity|].
        apply includes_false, Hb. }
    cbn [List.length] in Hlen.
    rewrite last_cons_default. apply (IH b' d Hq'). lia.
  - cbn [decodeLoop List.last]. apply Hq. reflexivity.
Qed.

End DecodeFixedPoint.

(** When the decoding loop ends before its cap of three passes, its result
    is fully decoded: another pass changes nothing, and decoding the result
    again returns it. *)
Theorem decode_idempotent_below_cap (html : jsstring) :
  (List.length (decodePasses html) < 3)%nat ->
  decodePass (decodeHtmlEntities html) = decodeHtmlEntities html
  /\ decodeHtmlEntities (decodeHtmlEntities html) = decodeHtmlEntities html.
Proof.
  intros Hlen.
  assert (H : decodePass (decodeHtmlEntities html) = decodeHtmlEntities html).
  { unfold decodeHtmlEntities, decodePasses in *.
    apply decodeLoop_fixed; [|exact Hlen].
    intros Hb. apply (decodePass_without 38); [left; reflexivity|].
    apply includes_false, Hb. }
  split; [exact H | apply decodeHtmlEntities_fixed, H].
Qed.

Lemma decode_idempotent_witness :
  decodePass (decodeHtmlEntities (js "&copy; 2024 &amp; &lt;b&gt;"))
  = decodeHtmlEntities (js "&copy; 2024 &amp; &lt;b&gt;")
  /\ decodeHtmlEntities (decodeHtmlEntities (js "&copy; 2024 &amp; &lt;b&gt;"))
     = decodeHtmlEntities (js "&copy; 2024 &amp; &lt;b&gt;").
Proof.
  apply (decode_idempotent_below_cap (js "&copy; 2024 &amp; &lt;b&gt;")).
  vm_compute. lia.
Defined.

Section DecodeLength.

Lemma assoc_In (k v : jsstring) (m : list (jsstring * jsstring)) :
  assoc k m = Some v -> In (k, v) m.
Proof.
  induction m as [|[k' v'] m IH]; [discriminate|].
  cbn [assoc]. unfold str_eqb. destruct (bool_decide_reflect (k = k')) as [->|_].
  - intros E. inversion E. left. reflexivity.
  - intros E. right. apply IH, E.
Qed.

(** No replacement is longer than the token it replaces. *)
Lemma decodeEntity_length (entity : jsstring) :
  (List.length (decodeEntity entity) <= List.length entity)%nat.
Proof.
  unfold decodeEntity.
  destruct (assoc entity decodeMap) as [v|] eqn:Ea.
  - apply assoc_In in Ea.
    assert (Hall : List.Forall (fun kv => (List.length kv.2 <= List.length kv.1)%nat) decodeMap)
      by (repeat constructor; cbn; lia).
    rewrite List.Forall_forall in Hall. apply (Hall _ Ea).
  - destruct (numericMatch entity) eqn:En.
    + destruct entity; [discriminate | cbn; lia].
    + destruct (hexMatch entity) eqn:Eh; [|lia].
      destruct entity; [discriminate | cbn; lia].
Qed.

Lemma replaceEntities_length (s : jsstring) :
  forall skip,
    (skip <= List.length s)%nat ->
    (List.length (replaceEntities skip s) <= List.length s - skip)%nat.
Proof.
  induction s as [|c t IH]; intros skip Hskip; [cbn; lia|].
  cbn [replaceEntities]. destruct skip as [|k].
  - destruct (match_entity (c :: t)) as [[entity rest]|] eqn:Em.
    + destruct (match_entity_elim _ _ _ Em) as (Hs & body & He & _).
      pose proof (decodeEntity_length entity) as Hd.
      apply (f_equal (@List.length Z)) in Hs. rewrite length_app in Hs.
      cbn [List.length] in *.
      assert (Hk : (Nat.pred (List.length entity) <= List.length t)%nat) by lia.
      specialize (IH _ Hk). rewrite length_app.
      assert (List.length entity <> 0%nat) by (subst entity; cbn; lia).
      lia.
    + specialize (IH 0%nat (Nat.le_0_l _)). cbn [List.length]. lia.
  - cbn [List.length] in *. apply IH. lia.
Qed.

Lemma decodeLoop_length (maxIterations : nat) :
  forall hasEntities decoded,
    (List.length (List.last (decodeLoop maxIterations hasEntities decoded) decoded)
     <= List.length decoded)%nat.
Proof.
  induction maxIterations as [|m IH]; intros b s.
  - destruct b; cbn; lia.
  - destruct b; [|cbn; lia].
    cbn [decodeLoop]. rewrite last_cons_default.
    etransitivity; [apply IH|].
    unfold decodePass.
    pose proof (replaceEntities_length s 0 (Nat.le_0_l _)). lia.
Qed.

End DecodeLength.

(** Entity decoding never lengthens the text: every recognised reference
    is at least as long as the unit that replaces it, and the rest is
    copied. *)
Theorem decode_never_lengthens (html : jsstring) :
  (List.length (decodeHtmlEntities html) <= List.length html)%nat.
Proof. unfold decodeHtmlEntities, decodePasses. apply decodeLoop_length. Qed.

Section HexReferences.

Lemma hexMatch_digits (x : Z) (hs : jsstring) :
  x = 120 \/ x = 88 -> hs <> [] -> forallb isHexDigit hs = true ->
  hexMatch (38 :: 35 :: x :: hs ++ [59]) = Some hs
  /\ numericMatch (38 :: 35 :: x :: hs ++ [59]) = None.
Proof.
  intros Hx Hne Hhs.
  assert (Hsp : span isHexDigit (hs ++ [59]) = (hs, [59]))
    by (apply span_app; [exact Hhs | reflexivity]).
  destruct Hx as [-> | ->]; cbn [hexMatch numericMatch Z.eqb Pos.eqb orb];
    change (120 =? 120) with true; change (88 =? 88) with true;
    change (88 =? 120) with false; cbn [orb]; rewrite Hsp;
    (destruct hs; [contradiction|]); split; reflexivity.
Qed.

Lemma assoc_hex (x : Z) (hs : jsstring) :
  x = 120 \/ x = 88 ->
  assoc (38 :: 35 :: x :: hs ++ [59]) decodeMap
  = if bool_decide (x = 120 /\ hs = [50; 55]) then Some [39] else None.
Proof.
  intros Hx.
  let v := eval vm_compute in decodeMap in change decodeMap with v.
  cbn [assoc]. unfold str_eqb.
  destruct (decide (x = 120 /\ hs = [50; 55])) as [[-> ->] | Hne].
  - reflexivity.
  - rewrite (bool_decide_eq_false_2 (x = 120 /\ hs = [50; 55])) by exact Hne.
    rewrite (bool_decide_eq_false_2 (_ = [38; 35; 120; 50; 55; 59])).
    2:{ intros E. apply Hne. injection E as Ex E.
        change [50; 55; 59] with ([50; 55] ++ [59]) in E.
        apply app_inj_tail in E as [E _]. split; assumption. }
    destruct Hx as [-> | ->];
      rewrite !(bool_decide_eq_false_2 (38 :: 35 :: _ :: hs ++ [59] = 38 :: _ :: _))
        by discriminate; reflexivity.
Qed.

End HexReferences.

(** A hexadecimal character reference, written with [x] or [X], whose
    number is below 2^53 is replaced by the single unit whose value is
    that number modulo 2^16. *)
Theorem hex_reference_decodes_modulo_65536 (x : Z) (hs : jsstring) :
  x = 120 \/ x = 88 -> hs <> [] -> forallb isHexDigit hs = true ->
  mathInt hs 16 < 2 ^ 53 ->
  decodeEntity (js "&#" ++ [x] ++ hs ++ js ";") = [mathInt hs 16 mod 65536].
Proof.
  intros Hx Hne Hhs Hsmall. unfold decodeEntity.
  change (js "&#" ++ [x] ++ hs ++ js ";") with (38 :: 35 :: x :: hs ++ [59]).
  rewrite (assoc_hex x hs Hx).
  destruct (hexMatch_digits x hs Hx Hne Hhs) as [Hh Hn].
  destruct (decide (x = 120 /\ hs = [50; 55])) as [[-> ->] | Hd].
  - reflexivity.
  - rewrite (bool_decide_eq_false_2 _ Hd), Hn, Hh.
    unfold parseInt, toNumber. rewrite (proj2 (Z.ltb_lt _ _) Hsmall). reflexivity.
Qed.

Lemma hex_reference_witness :
  decodeEntity (js "&#" ++ [88] ++ js "1F600" ++ js ";") = [mathInt (js "1F600") 16 mod 65536].
Proof.
  apply (hex_reference_decodes_modulo_65536 88 (js "1F600"));
    [right; reflexivity | discriminate | reflexivity | vm_compute; reflexivity].
Defined.

(** ** [escapeHtml] *)

Section Escape.

Lemma replaceUnit_app (c : Z) (r a b : jsstring) :
  replaceUnit c r (a ++ b) = replaceUnit c r a ++ replaceUnit c r b.
Proof. unfold replaceUnit. apply flat_map_app. Qed.

(** The five passes on the text of one unit. *)
Lemma escape_one (c : Z) :
  replaceUnit 39 (js "&#39;")
    (replaceUnit 34 (js "&quot;")
       (replaceUnit 62 (js "&gt;")
          (replaceUnit 60 (js "&lt;")
             (replaceUnit 38 (js "&amp;") [c]))))
  = escapeUnit c.
Proof. unfold replaceUnit, escapeUnit. cbn. by_units. Qed.

(** The five passes in a row amount to one pass that replaces each unit
    on its own: no pass escapes what an earlier one has written. *)
Lemma escapeHtml_units (s : jsstring) : escapeHtml s = flat_map escapeUnit s.
Proof.
  assert (H : forall t,
            replaceUnit 39 (js "&#39;")
              (replaceUnit 34 (js "&quot;")
                 (replaceUnit 62 (js "&gt;")
                    (replaceUnit 60 (js "&lt;")
                       (replaceUnit 38 (js "&amp;") t))))
            = flat_map escapeUnit t).
  { induction t as [|c t IH]; [reflexivity|].
    change (c :: t) with ([c] ++ t). rewrite !replaceUnit_app, IH, escape_one.
    reflexivity. }
  destruct s as [|c t]; [reflexivity|]. apply H.
Qed.

Lemma escapeUnit_safe (c : Z) :
  forallb (fun x => negb (markupUnit x)) (escapeUnit c) = true.
Proof. unfold escapeUnit, markupUnit. by_units. Qed.

End Escape.

(** [escapeHtml] never returns a text that holds a less-than sign, a
    greater-than sign, a double quote or an apostrophe; and its five
    replacements in a row equal a single pass that replaces each unit on
    its own, so nothing is escaped twice. *)
Theorem escapeHtml_leaves_no_markup (str : jsstring) :
  forallb (fun x => negb (markupUnit x)) (escapeHtml str) = true
  /\ escapeHtml str = flat_map escapeUnit str.
Proof.
  split; [|apply escapeHtml_units].
  rewrite escapeHtml_units.
  induction str as [|c t IH]; [reflexivity|].
  cbn [flat_map]. rewrite forallb_app, escapeUnit_safe, IH. reflexivity.
Qed.

Section EscapeDecode.

Lemma decodePass_escaped (s : jsstring) :
  forallb plainUnit s = true -> decodePass (flat_map escapeUnit s) = s.
Proof.
  unfold decodePass. induction s as [|c t IH]; intros H; [reflexivity|].
  cbn [forallb] in H. apply andb_true_iff in H as [Hc Ht].
  specialize (IH Ht). cbn [flat_map].
  unfold plainUnit in Hc. apply negb_true_iff in Hc.
  apply orb_false_iff in Hc as [Hc H62]. apply orb_false_iff in Hc as [H38 H60].
  assert (E : escapeUnit c
              = if c =? 34 then js "&quot;" else if c =? 39 then js "&#39;" else [c]).
  { unfold escapeUnit. rewrite H38, H60, H62. reflexivity. }
  rewrite E. clear E.
  destruct (Z.eqb_spec c 34) as [->|H34].
  - rewrite (replaceEntities_match _ (js "&quot;") (flat_map escapeUnit t)) by reflexivity.
    rewrite IH. reflexivity.
  - destruct (Z.eqb_spec c 39) as [->|H39].
    + rewrite (replaceEntities_match _ (js "&#39;") (flat_map escapeUnit t)) by reflexivity.
      rewrite IH. reflexivity.
    + cbn [app]. rewrite replaceEntities_copy.
      * rewrite IH. reflexivity.
      * rewrite match_entity_cons, H38. reflexivity.
Qed.

End EscapeDecode.

(** Round trip: for a text without ampersand, less-than and greater-than
    sign, decoding what [escapeHtml] returns gives the text back. *)
Theorem decode_undoes_escape (s : jsstring) :
  forallb plainUnit s = true ->
  decodeHtmlEntities (escapeHtml s) = s.
Proof.
  intros H. rewrite escapeHtml_units.
  pose proof (decodePass_escaped s H) as Hpass.
  assert (Hno : includes 38 s = false).
  { clear Hpass. induction s as [|c t IH]; [reflexivity|].
    cbn [forallb] in H. apply andb_true_iff in H as [Hc Ht].
    unfold plainUnit in Hc. apply negb_true_iff in Hc.
    apply orb_false_iff in Hc as [Hc _]. apply orb_false_iff in Hc as [H38 _].
    cbn [includes existsb]. rewrite Z.eqb_sym, H38. apply (IH Ht). }
  unfold decodeHtmlEntities, decodePasses.
  destruct (includes 38 (flat_map escapeUnit s)) eqn:Hinc.
  - cbn [decodeLoop]. rewrite Hpass, Hno, andb_false_r. reflexivity.
  - cbn [decodeLoop List.last].
    rewrite <- Hpass at 2. symmetry.
    apply (decodePass_without 38); [left; reflexivity | apply includes_false, Hinc].
Qed.

Lemma decode_undoes_escape_witness :
  decodeHtmlEntities (escapeHtml (js "it's a " ++ [34] ++ js "test" ++ [34]))
  = js "it's a " ++ [34] ++ js "test" ++ [34].
Proof.
  apply (decode_undoes_escape (js "it's a " ++ [34] ++ js "test" ++ [34])). reflexivity.
Defined.

(** ** [normalizeText] *)

Section NormalizeText.

Lemma normalizeText_zeroWidth (c : Z) :
  zeroWidth c = true ->
  replaceChars smartQuotesRegex smartQuoteMap
    (if nonBreakingSpacesRegex c then lookupChar c nonBreakingSpaceMap else [c])
  = [].
Proof.
  unfold zeroWidth, replaceChars, smartQuotesRegex, nonBreakingSpacesRegex.
  cbn. intros H. by_units; discriminate.
Qed.

(** The two passes as one: the zero-width units go, every other unit is
    mapped on its own. *)
Lemma normalizeText_filter (s : jsstring) :
  normalizeText s = map normalizeUnit (List.filter (fun c => negb (zeroWidth c)) s).
Proof.
  induction s as [|c t IH]; [reflexivity|].
  rewrite normalizeText_cons, IH. cbn [List.filter].
  destruct (zeroWidth c) eqn:Hz; cbn [negb].
  - rewrite (normalizeText_zeroWidth c Hz). reflexivity.
  - rewrite (normalizeText_unit c Hz). reflexivity.
Qed.

Lemma normalizeUnit_clean (c : Z) :
  zeroWidth c = false ->
  nonBreakingSpacesRegex (normalizeUnit c) || smartQuotesRegex (normalizeUnit c) = false.
Proof.
  unfold zeroWidth, normalizeUnit, nonBreakingSpacesRegex, smartQuotesRegex.
  intros H. by_units; discriminate.
Qed.

Lemma normalizeUnit_plain (c : Z) :
  nonBreakingSpacesRegex c || smartQuotesRegex c = false ->
  zeroWidth c = false /\ normalizeUnit c = c.
Proof.
  unfold zeroWidth, normalizeUnit, nonBreakingSpacesRegex, smartQuotesRegex.
  intros H. split; by_units; discriminate.
Qed.

Lemma normalizeText_plain (s : jsstring) :
  forallb (fun c => negb (nonBreakingSpacesRegex c || smartQuotesRegex c)) s = true ->
  normalizeText s = s.
Proof.
  rewrite normalizeText_filter.
  induction s as [|c t IH]; intros H; [reflexivity|].
  cbn [forallb] in H. apply andb_true_iff in H as [Hc Ht]. apply negb_true_iff in Hc.
  destruct (normalizeUnit_plain c Hc) as [Hz Hu].
  cbn [List.filter]. rewrite Hz. cbn [negb map]. rewrite Hu, (IH Ht). reflexivity.
Qed.

Lemma normalizeText_clean (s : jsstring) :
  forallb (fun c => negb (nonBreakingSpacesRegex c || smartQuotesRegex c))
    (normalizeText s) = true.
Proof.
  rewrite normalizeText_filter.
  induction s as [|c t IH]; [reflexivity|].
  cbn [List.filter]. destruct (zeroWidth c) eqn:Hz; cbn [negb]; [exact IH|].
  cbn [map forallb]. rewrite (normalizeUnit_clean c Hz), IH. reflexivity.
Qed.

End NormalizeText.

(** What [normalizeText] returns holds none of the eleven code points of
    its two character classes (the five non-breaking or zero-width spaces
    and the six typographic quotes and dashes), and is never longer than
    its argument. *)
Theorem normalizeText_removes_typographic_units (md : jsstring) :
  forallb (fun c => negb (nonBreakingSpacesRegex c || smartQuotesRegex c))
    (normalizeText md) = true
  /\ (List.length (normalizeText md) <= List.length md)%nat.
Proof.
  split; [apply normalizeText_clean|].
  rewrite normalizeText_filter, length_map.
  induction md as [|c t IH]; [apply le_n|].
  cbn [List.filter]. destruct (negb (zeroWidth c)); cbn [List.length]; lia.
Qed.

(** A text with none of the eleven code points, plain ASCII for one, comes
    out of [normalizeText] as it went in. *)
Theorem normalizeText_keeps_plain_text (md : jsstring) :
  forallb (fun c => negb (nonBreakingSpacesRegex c || smartQuotesRegex c)) md = true ->
  normalizeText md = md.
Proof. apply normalizeText_plain. Qed.

Lemma normalizeText_keeps_plain_text_witness :
  normalizeText (js "# Title - it's 'plain'") = js "# Title - it's 'plain'".
Proof. apply (normalizeText_keeps_plain_text (js "# Title - it's 'plain'")). reflexivity. Defined.

(** [normalizeText] alone is idempotent on every text: a second run finds
    nothing left to replace. *)
Theorem normalizeText_idempotent (md : jsstring) :
  normalizeText (normalizeText md) = normalizeText md.
Proof. apply normalizeText_plain, normalizeText_clean. Qed.

(** ** More on the numbered-to-bullet conversion *)

Section NumberedEdges.

(** Only the unit class of [prev] matters to the scan. *)
Lemma replaceNumbered_prev (p q : option Z) (s : jsstring) :
  atLineStart p = atLineStart q ->
  replaceNumbered p 0 s = replaceNumbered q 0 s.
Proof. intros H. destruct s as [|c t]; [reflexivity|]. cbn [replaceNumbered]. rewrite H. reflexivity. Qed.

Lemma replaceNumbered_length (s : jsstring) :
  forall prev skip,
    (List.length (replaceNumbered prev skip s) <= List.length s - skip)%nat.
Proof.
  induction s as [|c t IH]; intros prev skip; [cbn; lia|].
  destruct skip as [|k].
  - cbn [replaceNumbered].
    destruct (if atLineStart prev then match_numbered (c :: t) else None)
      as [[g m]|] eqn:Em.
    + assert (Hm : match_numbered (c :: t) = Some (g, m)).
      { destruct (atLineStart prev); [exact Em | discriminate]. }
      destruct (match_numbered_elim _ _ _ Hm) as (ds & sp & rest & Hs & _ & Hne & _ & _ & ->).
      pose proof (IH (Some c) (Nat.pred (List.length (g ++ ds ++ [46; sp])))) as Hl.
      apply (f_equal (@List.length Z)) in Hs.
      change (js "- ") with [45; 32].
      rewrite !length_app in *. cbn [List.length] in *.
      destruct ds as [|d ds]; [contradiction|]. cbn [List.length] in *. lia.
    + cbn [List.length]. specialize (IH (Some c) 0%nat). lia.
  - cbn [replaceNumbered List.length]. specialize (IH (Some c) k). lia.
Qed.

Lemma match_numbered_needs (s : jsstring) :
  forallb (fun c => negb (c =? 46)) s = true
  \/ forallb (fun c => negb (isDigit c)) s = true ->
  match_numbered s = None.
Proof.
  intros H. destruct (match_numbered s) as [[g m]|] eqn:Em; [|reflexivity].
  destruct (match_numbered_elim _ _ _ Em) as (ds & sp & rest & -> & _ & Hne & Hds & _ & _).
  exfalso. destruct H as [H|H]; rewrite !forallb_app in H.
  - apply andb_true_iff in H as [_ H]. apply andb_true_iff in H as [_ H].
    cbn in H. discriminate.
  - apply andb_true_iff in H as [_ H]. apply andb_true_iff in H as [H _].
    destruct ds as [|d ds]; [contradiction|]. cbn [forallb] in *.
    apply andb_true_iff in Hds as [Hd _]. rewrite Hd in H. discriminate.
Qed.

Lemma replaceNumbered_needs (p : Z -> bool) (s : jsstring) :
  (forall t, forallb p t = true -> match_numbered t = None) ->
  forall prev, forallb p s = true -> replaceNumbered prev 0 s = s.
Proof.
  intros Hp. induction s as [|c t IH]; intros prev H; [reflexivity|].
  rewrite replaceNumbered_copy.
  - cbn [forallb] in H. apply andb_true_iff in H as [_ Ht]. rewrite (IH _ Ht). reflexivity.
  - rewrite (Hp _ H). destruct (atLineStart prev); reflexivity.
Qed.

End NumberedEdges.

(** Neither the numbered-to-bullet conversion nor the Text Normalizer as a
    whole ever returns a text longer than its argument. *)
Theorem text_normalizer_never_lengthens (md : jsstring) :
  (List.length (convertNumberedListsToBullets md) <= List.length md)%nat
  /\ (List.length (textNormalizer md) <= List.length md)%nat.
Proof.
  assert (H : (List.length (convertNumberedListsToBullets md) <= List.length md)%nat).
  { unfold convertNumberedListsToBullets.
    pose proof (replaceNumbered_length md None 0). lia. }
  split; [exact H|].
  unfold textNormalizer. rewrite normalizeText_filter, length_map.
  pose proof (filter_length_le (fun c => negb (zeroWidth c)) (convertNumberedListsToBullets md)).
  lia.
Qed.

(** A text without a period, and a text without a digit, is returned by
    the numbered-to-bullet conversion as it is. *)
Theorem numbered_conversion_needs_digit_and_period (md : jsstring) :
  forallb (fun c => negb (c =? 46)) md = true
  \/ forallb (fun c => negb (isDigit c)) md = true ->
  convertNumberedListsToBullets md = md.
Proof.
  unfold convertNumberedListsToBullets. intros [H|H].
  - apply (replaceNumbered_needs (fun c => negb (c =? 46))); [|exact H].
    intros t Ht. apply match_numbered_needs. left. exact Ht.
  - apply (replaceNumbered_needs (fun c => negb (isDigit c))); [|exact H].
    intros t Ht. apply match_numbered_needs. right. exact Ht.
Qed.

Lemma numbered_conversion_needs_witness :
  convertNumberedListsToBullets (js "Chapter 12 - no list here") = js "Chapter 12 - no list here".
Proof.
  apply (numbered_conversion_needs_digit_and_period (js "Chapter 12 - no list here")).
  left. reflexivity.
Defined.

(** A number and a period alone on a line: the white space unit the
    expression asks for after the period is then the line terminator
    itself, so the terminator goes with the number and the next line moves
    up behind the hyphen; the conversion goes on with that next line as
    with the start of a text. *)
Theorem number_alone_on_line_takes_next_line (ws ds : jsstring) (t : Z) (rest : jsstring) :
  forallb isSpace ws = true -> ds <> [] -> forallb isDigit ds = true ->
  isLineTerminator t = true ->
  convertNumberedListsToBullets (ws ++ ds ++ 46 :: t :: rest)
  = ws ++ js "- " ++ convertNumberedListsToBullets rest.
Proof.
  intros Hws Hne Hds Ht. unfold convertNumberedListsToBullets.
  rewrite (replaceNumbered_match None ws ds t rest eq_refl Hws Hne Hds
             (terminator_is_space t Ht)).
  rewrite (replaceNumbered_prev (Some t) None rest); [reflexivity|].
  cbn [atLineStart]. exact Ht.
Qed.

Lemma number_alone_on_line_witness :
  convertNumberedListsToBullets (js "1." ++ [10] ++ js "Introduction")
  = js "- " ++ convertNumberedListsToBullets (js "Introduction").
Proof.
  apply (number_alone_on_line_takes_next_line [] (js "1") 10 (js "Introduction"));
    [reflexivity | discriminate | reflexivity | reflexivity].
Defined.

(** ** Header promotion *)

Section Retag.

Lemma retagAll_Element from to t a cs :
  retagAll from to (Element t a cs) = Element t a (map (retagNode from to) cs).
Proof. reflexivity. Qed.

Lemma retagNode_Element from to t a cs :
  retagNode from to (Element t a cs)
  = Element (if hasTag from (Element t a cs) then js to else t) a
      (map (retagNode from to) cs).
Proof.
  unfold retagNode. rewrite retagAll_Element.
  destruct (hasTag from (Element t a cs)); reflexivity.
Qed.

Lemma descendants_retagNode from to (c : node) :
  descendants (retagNode from to c) = descendants (retagAll from to c).
Proof.
  destruct c as [raw | t a cs]; [reflexivity|].
  rewrite retagNode_Element, retagAll_Element. reflexivity.
Qed.

(** No tag is both [td] and [th]. *)
Lemma td_not_th (c : node) : hasTag "td" c = true -> hasTag "th" c = false.
Proof.
  destruct c as [raw | t a cs]; [discriminate|]. unfold hasTag, str_eqb.
  intros H. apply bool_decide_eq_true_1 in H. rewrite H. reflexivity.
Qed.

Lemma retagNode_tags (c : node) :
  hasTag "td" (retagNode "td" "th" c) = false
  /\ hasTag "th" (retagNode "td" "th" c) = hasTag "td" c || hasTag "th" c.
Proof.
  destruct c as [raw | t a cs]; [split; reflexivity|].
  rewrite retagNode_Element.
  destruct (hasTag "td" (Element t a cs)) eqn:E.
  - split; reflexivity.
  - split; [exact E | reflexivity].
Qed.

(** The cells under retagged children: no data cell is left, and the
    header cells are the former cells of either kind. *)
Lemma retagNode_cells (c : node) :
  List.filter (hasTag "td") (retagNode "td" "th" c :: descendants (retagNode "td" "th" c)) = []
  /\ List.length
       (List.filter (hasTag "th")
          (retagNode "td" "th" c :: descendants (retagNode "td" "th" c)))
     = List.length
         (List.filter (fun d => hasTag "td" d || hasTag "th" d) (c :: descendants c)).
Proof.
  induction c as [raw | t a cs IH] using node_rect_nested; [split; reflexivity|].
  destruct (retagNode_tags (Element t a cs)) as [Htd Hth].
  cbn [List.filter]. rewrite Htd, Hth.
  rewrite descendants_retagNode, retagAll_Element, !descendants_Element.
  assert (L : List.filter (hasTag "td") (descendantsOfAll (map (retagNode "td" "th") cs)) = []
              /\ List.length
                   (List.filter (hasTag "th")
                      (descendantsOfAll (map (retagNode "td" "th") cs)))
                 = List.length
                     (List.filter (fun d => hasTag "td" d || hasTag "th" d)
                        (descendantsOfAll cs))).
  { clear Htd Hth. induction IH as [|c cs [Hc1 Hc2] _ [IH1 IH2]]; [split; reflexivity|].
    cbn [map]. rewrite !descendantsOfAll_cons.
    change (retagNode "td" "th" c
              :: descendants (retagNode "td" "th" c)
                 ++ descendantsOfAll (map (retagNode "td" "th") cs))
      with ((retagNode "td" "th" c :: descendants (retagNode "td" "th" c))
              ++ descendantsOfAll (map (retagNode "td" "th") cs)).
    change (c :: descendants c ++ descendantsOfAll cs)
      with ((c :: descendants c) ++ descendantsOfAll cs).
    rewrite !List.filter_app, !length_app, Hc1, Hc2, IH1, IH2. split; reflexivity. }
  destruct L as [L1 L2]. rewrite L1.
  split; [reflexivity|].
  destruct (hasTag "td" (Element t a cs) || hasTag "th" (Element t a cs));
    cbn [List.length]; rewrite L2; reflexivity.
Qed.

Lemma retagAll_cells (row : node) :
  querySelectorAll "td" (retagAll "td" "th" row) = []
  /\ List.length (querySelectorAll "th" (retagAll "td" "th" row))
     = List.length
         (List.filter (fun d => hasTag "td" d || hasTag "th" d) (descendants row)).
Proof.
  unfold querySelectorAll.
  destruct row as [raw | t a cs]; [split; reflexivity|].
  destruct (retagNode_cells (Element t a cs)) as [H1 H2].
  rewrite descendants_retagNode in H1, H2.
  destruct (retagNode_tags (Element t a cs)) as [Htd Hth].
  cbn [List.filter] in H1, H2. rewrite Htd in H1. rewrite Hth in H2.
  split; [exact H1|].
  destruct (hasTag "td" (Element t a cs) || hasTag "th" (Element t a cs));
    cbn [List.length] in H2; lia.
Qed.

(** Without header cell below the row, the cells of either kind are the
    data cells. *)
Lemma cells_without_header (l : list node) :
  List.filter (hasTag "th") l = [] ->
  List.filter (fun d => hasTag "td" d || hasTag "th" d) l = List.filter (hasTag "td") l.
Proof.
  induction l as [|c l IH]; [reflexivity|]. cbn [List.filter].
  destruct (hasTag "th" c) eqn:E; [discriminate|].
  intros H. rewrite orb_false_r, (IH H). reflexivity.
Qed.

Lemma retagAll_tag name (n : node) : hasTag name (retagAll "td" "th" n) = hasTag name n.
Proof. destruct n; reflexivity. Qed.

End Retag.

Section UpdateFirstHead.

Variable p : node -> bool.
Hypothesis p_tag : forall t a cs cs', p (Element t a cs) = p (Element t a cs').
Variable g : node -> node.
Hypothesis p_g : forall x, p (g x) = p x.

Lemma updateFirst_root (f : node -> option node) (n n' : node) :
  updateFirst p f n = Some n' -> p n' = p n.
Proof using p_tag.
  destruct n as [raw | t a cs]; [discriminate|].
  rewrite updateFirst_Element.
  destruct (updateFirstList p f cs); cbn [option_map]; [|discriminate].
  intros E. inversion E. apply p_tag.
Qed.

(** Rewriting the first match by [g], which keeps the selector: the tree
    changes exactly when there is a match, and the first match of the new
    tree is the rewritten one. *)
Lemma updateFirst_head (n : node) :
  match head (List.filter p (descendants n)) with
  | Some r =>
      exists n', updateFirst p (fun x => Some (g x)) n = Some n'
                 /\ head (List.filter p (descendants n')) = Some (g r)
  | None => updateFirst p (fun x => Some (g x)) n = None
  end.
Proof using p_tag p_g.
  induction n as [raw | t a cs IH] using node_rect_nested; [reflexivity|].
  rewrite updateFirst_Element, descendants_Element.
  assert (L : match head (List.filter p (descendantsOfAll cs)) with
              | Some r =>
                  exists l', updateFirstList p (fun x => Some (g x)) cs = Some l'
                             /\ head (List.filter p (descendantsOfAll l')) = Some (g r)
              | None => updateFirstList p (fun x => Some (g x)) cs = None
              end).
  { induction IH as [|c cs Hc _ IHcs]; [reflexivity|].
    rewrite descendantsOfAll_cons. cbn [List.filter updateFirstList].
    destruct (p c) eqn:Ep.
    - cbn [head]. exists (g c :: cs). split; [reflexivity|].
      rewrite descendantsOfAll_cons. cbn [List.filter]. rewrite p_g, Ep. reflexivity.
    - rewrite List.filter_app.
      destruct (List.filter p (descendants c)) as [|r0 rs] eqn:Ec.
      + cbn [head] in Hc. rewrite Hc. cbn [app].
        destruct (head (List.filter p (descendantsOfAll cs))) as [r|].
        * destruct IHcs as (l' & El & Hl). rewrite El. cbn [option_map].
          exists (c :: l'). split; [reflexivity|].
          rewrite descendantsOfAll_cons. cbn [List.filter]. rewrite Ep.
          rewrite List.filter_app, Ec. exact Hl.
        * rewrite IHcs. reflexivity.
      + cbn [head app] in *. destruct Hc as (c' & Ec' & Hc').
        rewrite Ec'. exists (c' :: cs). split; [reflexivity|].
        rewrite descendantsOfAll_cons. cbn [List.filter].
        rewrite (updateFirst_root _ c c' Ec'), Ep, List.filter_app.
        destruct (List.filter p (descendants c')) as [|x xs]; [discriminate|].
        exact Hc'. }
  destruct (head (List.filter p (descendantsOfAll cs))) as [r|].
  - destruct L as (l' & El & Hl). rewrite El. cbn [option_map].
    exists (Element t a l'). split; [reflexivity|]. rewrite descendants_Element. exact Hl.
  - rewrite L. reflexivity.
Qed.

End UpdateFirstHead.

Section Promotion.

Variable api : parserApi.

Lemma promote_first (n r : node) :
  querySelector "tr" n = Some r ->
  querySelector "tr"
    (orSelf n (updateFirst (hasTag "tr") (fun row => Some (retagAll "td" "th" row)) n))
  = Some (retagAll "td" "th" r).
Proof.
  unfold querySelector, querySelectorAll. intros H.
  pose proof (updateFirst_head (hasTag "tr") (hasTag_tag "tr") (retagAll "td" "th")
                (retagAll_tag "tr") n) as U.
  rewrite H in U. destruct U as (n' & E & Hn'). rewrite E. exact Hn'.
Qed.


End Promotion.



(** A first row with text in a cell and without header cell: after the
    table callback the first row of the table is that row with every data
    cell below it turned into a header cell, as many header cells as it
    had data cells. *)
Theorem first_row_with_text_becomes_header (api : parserApi) (table firstRow : node) :
  querySelector "tr" table = Some firstRow ->
  querySelector "th" firstRow = None ->
  isEmptyRow api firstRow = false ->
  querySelector "tr" (promoteTableHeader api table) = Some (retagAll "td" "th" firstRow)
  /\ List.length (querySelectorAll "th" (retagAll "td" "th" firstRow))
     = List.length (querySelectorAll "td" firstRow).
Proof.
  intros Hrow Hth Hfull. unfold promoteTableHeader. rewrite Hrow, Hth, Hfull.
  split; [apply (promote_first table firstRow Hrow)|].
  destruct (retagAll_cells firstRow) as [_ H]. rewrite H.
  unfold querySelectorAll. rewrite cells_without_header; [reflexivity|].
  unfold querySelector, querySelectorAll in Hth.
  destruct (List.filter (hasTag "th") (descendants firstRow)); [reflexivity | discriminate].
Qed.

Lemma first_row_with_text_witness :
  querySelector "tr" (promoteTableHeader textOnlyParser nameTable)
  = Some (retagAll "td" "th" nameRow)
  /\ List.length (querySelectorAll "th" (retagAll "td" "th" nameRow))
     = List.length (querySelectorAll "td" nameRow).
Proof.
  apply (first_row_with_text_becomes_header textOnlyParser nameTable nameRow); reflexivity.
Defined.

(** ** Markup without tables and unordered lists *)

Section Untouched.

Variable api : parserApi.

Lemma forallb_descendants_child (q : node -> bool) (c : node) (cs : list node) :
  forallb q (descendantsOfAll (c :: cs)) = true ->
  forallb q (c :: descendants c) = true /\ forallb q (descendantsOfAll cs) = true.
Proof.
  rewrite descendantsOfAll_cons.
  change (c :: descendants c ++ descendantsOfAll cs)
    with ((c :: descendants c) ++ descendantsOfAll cs).
  rewrite forallb_app. apply andb_true_iff.
Qed.

Lemma processTablesFrom_no_table (fuel : nat) :
  forall n,
    forallb (fun d => negb (hasTag "table" d)) (n :: descendants n) = true ->
    processTablesFrom api fuel n = n.
Proof.
  induction fuel as [|fuel IH]; intros n H; [reflexivity|].
  cbn [forallb] in H. apply andb_true_iff in H as [Hn Hd]. apply negb_true_iff in Hn.
  cbn [processTablesFrom]. rewrite Hn.
  destruct n as [raw | t a cs]; [reflexivity|]. f_equal.
  rewrite descendants_Element in Hd. clear Hn.
  induction cs as [|c cs IHcs]; [reflexivity|].
  apply forallb_descendants_child in Hd as [Hc Hcs].
  cbn [map]. rewrite (IH c Hc), (IHcs Hcs). reflexivity.
Qed.

Lemma stripBullets_no_ul (n : node) :
  forallb (fun d => negb (hasTag "ul" d)) (n :: descendants n) = true ->
  stripBullets api false n = n.
Proof.
  induction n as [raw | t a cs IH] using node_rect_nested; intros H; [reflexivity|].
  cbn [forallb] in H. apply andb_true_iff in H as [Hn Hd]. apply negb_true_iff in Hn.
  cbn [stripBullets andb]. rewrite Hn. cbn [orb]. f_equal.
  rewrite descendants_Element in Hd. clear Hn.
  induction IH as [|c cs Hc _ IHcs]; [reflexivity|].
  apply forallb_descendants_child in Hd as [Hcd Hrest].
  cbn [map]. rewrite (Hc Hcd), (IHcs Hrest). reflexivity.
Qed.

End Untouched.

(** Markup in which the parser finds neither a [table] nor a [ul] element
    goes through [processHtml] untouched: the result is the serialisation
    of the parsed tree. *)
Theorem markup_without_tables_and_lists_only_reserialised
    (api : parserApi) (html : jsstring) :
  forallb (fun d => negb (hasTag "table" d) && negb (hasTag "ul" d))
    (parse api html :: descendants (parse api html)) = true ->
  processHtml api html = toString (parse api html).
Proof.
  intros H. unfold processHtml, processTables.
  assert (Ht : forallb (fun d => negb (hasTag "table" d))
                 (parse api html :: descendants (parse api html)) = true).
  { apply forallb_forall. intros d Hd.
    apply (proj1 (forallb_forall _ _) H) in Hd. apply andb_true_iff in Hd. tauto. }
  assert (Hu : forallb (fun d => negb (hasTag "ul" d))
                 (parse api html :: descendants (parse api html)) = true).
  { apply forallb_forall. intros d Hd.
    apply (proj1 (forallb_forall _ _) H) in Hd. apply andb_true_iff in Hd. tauto. }
  rewrite (processTablesFrom_no_table api _ _ Ht), (stripBullets_no_ul api _ Hu).
  reflexivity.
Qed.

Lemma markup_without_tables_witness :
  processHtml textOnlyParser (js "<p>Hello</p>")
  = toString (parse textOnlyParser (js "<p>Hello</p>")).
Proof.
  apply (markup_without_tables_and_lists_only_reserialised textOnlyParser (js "<p>Hello</p>")).
  reflexivity.
Defined.

(** ** The supported extension *)

Section Docx.

Lemma lower_docx (ext : jsstring) :
  toLowerCase ext = js ".docx" ->
  exists front x, ext = front ++ [x] /\ toLowerCase front = js ".doc" /\ lower_unit x = 120.
Proof.
  intros H. destruct ext as [|a [|b [|c [|d [|x [|]]]]]]; try discriminate.
  change (js ".docx") with [46; 100; 111; 99; 120] in H.
  cbn [toLowerCase map] in H. injection H as Ha Hb Hc Hd Hx.
  exists [a; b; c; d], x. split; [reflexivity | split; [|exact Hx]].
  cbn [toLowerCase map]. rewrite Ha, Hb, Hc, Hd. reflexivity.
Qed.

Lemma allSlash_last (l : jsstring) (s : Z) :
  forallb (Z.eqb 47) (l ++ [s]) = true -> s = 47.
Proof.
  rewrite forallb_app. intros H. apply andb_true_iff in H as [_ H].
  cbn [forallb] in H. rewrite andb_true_r in H. apply Z.eqb_eq in H. lia.
Qed.

Lemma docx_not_docNamed (stem ext : jsstring) :
  toLowerCase ext = js ".docx" -> ~ docNamed (stem ++ ext).
Proof.
  intros Hext (base & ext0 & slashes & Hp & Hlow & Hsl & _ & _).
  destruct (lower_docx ext Hext) as (front & x & -> & _ & Hx).
  destruct slashes as [|s0 sl] using rev_ind.
  - rewrite app_nil_r in Hp.
    destruct ext0 as [|a [|b [|c [|d [|]]]]]; try discriminate.
    change (js ".doc") with [46; 100; 111; 99] in Hlow.
    cbn [toLowerCase map] in Hlow. inversion Hlow as [[Ha Hb Hc Hd]].
    change (base ++ [a; b; c; d]) with (base ++ [a; b; c] ++ [d]) in Hp.
    rewrite !app_assoc in Hp. apply app_inj_tail in Hp as [_ ->]. lia.
  - apply allSlash_last in Hsl. subst s0.
    rewrite !app_assoc in Hp. apply app_inj_tail in Hp as [_ ->].
    vm_compute in Hx. discriminate.
Qed.

Lemma docx_not_suffix (stem ext : jsstring) :
  toLowerCase ext = js ".docx" ->
  endsWith (js ".doc") (toLowerCase (stem ++ ext)) <> true.
Proof.
  intros Hext H. apply endsWith_iff in H as (p & Hp).
  unfold toLowerCase in Hp. rewrite map_app in Hp.
  fold (toLowerCase ext) in Hp. rewrite Hext in Hp.
  change (js ".docx") with ([46; 100; 111; 99] ++ [120]) in Hp.
  change (js ".doc") with ([46; 100; 111] ++ [99]) in Hp.
  rewrite !app_assoc in Hp. apply app_inj_tail in Hp as [_ Hp]. discriminate.
Qed.

End Docx.

(** The supported format is never turned away: a path that ends in
    ".docx", in any letter case, passes [validateFileExtension] under Node
    and where the [path] module is missing, whatever precedes the
    extension. *)
Theorem docx_never_rejected (stem ext : jsstring) :
  toLowerCase ext = js ".docx" ->
  validateFileExtension onNode (stem ++ ext) = Returns tt
  /\ validateFileExtension inBrowser (stem ++ ext) = Returns tt.
Proof.
  intros Hext. unfold validateFileExtension, str_eqb. split.
  - rewrite bool_decide_eq_false_2; [reflexivity|].
    intros H. apply (docx_not_docNamed stem ext Hext).
    apply extname_doc_iff. exact H.
  - rewrite bool_decide_eq_false_2; [reflexivity|].
    intros H. apply (docx_not_suffix stem ext Hext).
    apply manual_doc_iff. exact H.
Qed.

Lemma docx_never_rejected_witness :
  validateFileExtension onNode (js "/tmp/old.doc/Report" ++ js ".DocX") = Returns tt
  /\ validateFileExtension inBrowser (js "/tmp/old.doc/Report" ++ js ".DocX") = Returns tt.
Proof. apply (docx_never_rejected (js "/tmp/old.doc/Report") (js ".DocX")). reflexivity. Defined.

(** ** The object store of the renderer *)

Section RendererStore.

Implicit Types (options : gmap string jsvalue) (w : world).

Lemma spread_empty : spread ∅ defaultTurndownOptions = defaultTurndownOptions.
Proof. unfold spread. apply map_eq. intros k. rewrite lookup_union_l; reflexivity. Qed.

Lemma configured_spread options :
  configured (TurndownService (spread options defaultTurndownOptions) [gfm]).
Proof.
  split; [reflexivity|]. intros k v Hk. cbn [serviceOptions].
  unfold spread. apply lookup_union_Some_l. exact Hk.
Qed.

(** One call: the store grows at its end by at most the one object of the
    call, and the reference returned designates an object with the merged
    options and the plugin. *)
Lemma getTurndownService_store options w :
  storeInv w ->
  let r := getTurndownService options w in
  storeInv r.2
  /\ (exists new, objects r.2 = objects w ++ new)
  /\ objects r.2 !! r.1 = Some (TurndownService (spread options defaultTurndownOptions) [gfm])
  /\ List.length (objects r.2)
     = (List.length (objects w)
        + (if hasKeys options then 1 else if isSet w then 0 else 1))%nat
  /\ isSet r.2 = isSet w || negb (hasKeys options).
Proof.
  intros (Hc & Hobj & Hdef). cbn zeta.
  pose proof (getTurndownService_step options w Hc) as Hstep. cbn zeta in Hstep.
  destruct Hstep as (Hc' & _).
  destruct (decide (options = ∅)) as [-> | Hne].
  - replace (hasKeys ∅) with false by (symmetry; apply hasKeys_false; reflexivity).
    rewrite spread_empty. unfold isSet.
    destruct (turndownServiceInstance w) as [ref|] eqn:Ew.
    + rewrite (getTurndownService_cached w ref Ew) in *.
      cbn [fst snd objects turndownServiceInstance].
      split; [split; [exact Hc' | split; [exact Hobj | exact Hdef]]|].
      split; [exists []; rewrite app_nil_r; reflexivity|].
      split; [exact Hdef|]. split; [lia | reflexivity].
    + rewrite (getTurndownService_first w Ew) in *.
      cbn [fst snd objects turndownServiceInstance].
      assert (Hl : (objects w ++ [TurndownService defaultTurndownOptions [gfm]])
                     !! List.length (objects w)
                   = Some (TurndownService defaultTurndownOptions [gfm])).
      { rewrite lookup_app_r by lia. rewrite Nat.sub_diag. reflexivity. }
      split; [split; [exact Hc' | split; [|exact Hl]]|].
      * apply Forall_app. split; [exact Hobj|].
        apply List.Forall_cons; [|apply List.Forall_nil].
        rewrite <- spread_empty. apply configured_spread.
      * split; [eexists; reflexivity|]. split; [exact Hl|].
        rewrite length_app. cbn [List.length]. split; [lia | reflexivity].
  - pose proof (proj2 (hasKeys_true options) Hne) as Hk. rewrite Hk.
    rewrite (getTurndownService_custom options w Hne) in *.
    cbn [fst snd objects turndownServiceInstance]. unfold isSet.
    cbn [turndownServiceInstance].
    split; [split; [exact Hc' | split]|].
    + apply Forall_app. split; [exact Hobj|].
      apply List.Forall_cons; [apply configured_spread | apply List.Forall_nil].
    + destruct (turndownServiceInstance w) as [ref|]; [|exact I].
      apply lookup_app_l_Some. exact Hdef.
    + split; [eexists; reflexivity|]. split.
      * rewrite lookup_app_r by lia. rewrite Nat.sub_diag. reflexivity.
      * rewrite length_app. cbn [List.length negb]. rewrite orb_false_r.
        split; [lia | reflexivity].
Qed.

(** A sequence of calls. *)
Lemma getTurndownServices_store (calls : list (gmap string jsvalue)) :
  forall w, storeInv w ->
    let r := getTurndownServices calls w in
    storeInv r.2
    /\ (exists new, objects r.2 = objects w ++ new)
    /\ (forall i o ref, calls !! i = Some o -> r.1 !! i = Some ref ->
          objects r.2 !! ref
          = Some (TurndownService (spread o defaultTurndownOptions) [gfm]))
    /\ List.length (objects r.2)
       = (List.length (objects w) + List.length (List.filter hasKeys calls)
          + (if isSet w || forallb hasKeys calls then 0 else 1))%nat.
Proof.
  induction calls as [|o calls IH]; intros w Hinv; cbn zeta.
  - cbn [getTurndownServices ret fst snd List.filter forallb List.length].
    split; [exact Hinv|]. split; [exists []; rewrite app_nil_r; reflexivity|].
    split; [intros i o ref Hi; destruct i; discriminate|].
    rewrite orb_true_r. lia.
  - rewrite getTurndownServices_cons.
    pose proof (getTurndownService_store o w Hinv) as Hstep. cbn zeta in Hstep.
    destruct (getTurndownService o w) as [ref1 w1]. cbn [fst snd] in Hstep.
    destruct Hstep as (Hinv1 & (new1 & Hnew1) & Hret1 & Hlen1 & Hset1).
    specialize (IH w1 Hinv1). cbn zeta in IH.
    destruct (getTurndownServices calls w1) as [refs w2]. cbn [fst snd] in IH.
    destruct IH as (Hinv2 & (new2 & Hnew2) & Hret2 & Hlen2).
    cbn [fst snd]. split; [exact Hinv2|].
    split; [exists (new1 ++ new2); rewrite Hnew2, Hnew1, app_assoc; reflexivity|].
    split.
    + intros [|i] o' ref Hc Hr; cbn in Hc, Hr.
      * inversion Hc; subst o'. inversion Hr; subst ref.
        rewrite Hnew2. apply lookup_app_l_Some. exact Hret1.
      * apply (Hret2 i o' ref Hc Hr).
    + rewrite Hlen2, Hlen1, Hset1. cbn [List.filter forallb].
      destruct (hasKeys o); cbn [negb List.length andb];
        rewrite ?orb_false_r, ?orb_true_r; cbn [orb];
        destruct (isSet w); cbn [orb]; lia.
Qed.

Lemma storeInv_initial : storeInv initialWorld.
Proof. split; [reflexivity|]. split; [apply List.Forall_nil | exact I]. Qed.

(** [htmlToMd] from a state of the store that satisfies the invariant. *)
Lemma htmlToMd_store (turndown : engine) (html : jsstring) options w :
  storeInv w ->
  (htmlToMd turndown html options w).1
  = trim (turndown (TurndownService (spread options defaultTurndownOptions) [gfm])
            (decodeHtmlEntities html)).
Proof.
  intros Hinv. unfold htmlToMd, bind.
  pose proof (getTurndownService_store options w Hinv) as Hstep. cbn zeta in Hstep.
  destruct (getTurndownService options w) as [service w1]. cbn [fst snd] in *.
  destruct Hstep as (_ & _ & Hret & _). rewrite Hret. reflexivity.
Qed.

End RendererStore.

(** The cache of the renderer is transparent.  After any sequence of
    earlier calls, [htmlToMd] renders the decoded markup with a service
    that holds exactly the options of this call merged with the defaults,
    and the plugin: what it returns, and with it what the statements of
    [convert] behind the extraction return, does not depend on the calls
    made before. *)
Theorem renderer_cache_is_transparent
    (calls : list (gmap string jsvalue)) (e : engines) (markup : jsstring)
    (options : gmap string jsvalue) (opts : convertOptions) :
  let w := (getTurndownServices calls initialWorld).2 in
  (htmlToMd (turndown e) markup options w).1
  = trim (turndown e (TurndownService (spread options defaultTurndownOptions) [gfm])
            (decodeHtmlEntities markup))
  /\ (afterExtraction e opts markup w).1
     = lint e
         (normalizeText
            (convertNumberedListsToBullets
               (trim (turndown e
                        (TurndownService
                           (spread (default ∅ (turndownOptions opts)) defaultTurndownOptions)
                           [gfm])
                        (decodeHtmlEntities (processHtml (html e) markup)))))).
Proof.
  cbn zeta.
  destruct (getTurndownServices_store calls initialWorld storeInv_initial) as (Hinv & _).
  split; [apply htmlToMd_store, Hinv|].
  unfold afterExtraction, bind, ret.
  rewrite <- (htmlToMd_store (turndown e) _ _ _ Hinv).
  destruct (htmlToMd (turndown e) (processHtml (html e) markup)
              (default ∅ (turndownOptions opts))
              (getTurndownServices calls initialWorld).2) as [md w'].
  reflexivity.
Qed.

(** The objects of the store after any sequence of calls: each of them
    has the plugin exactly once and every default option at its default
    value; the reference a call returned still designates an object with
    the options of that call merged with the defaults; and there is one
    object for each call with options, and one more when some call had
    none. *)
Theorem every_service_keeps_its_configuration (calls : list (gmap string jsvalue)) :
  let r := getTurndownServices calls initialWorld in
  Forall configured (objects r.2)
  /\ (forall i o ref, calls !! i = Some o -> r.1 !! i = Some ref ->
        objects r.2 !! ref
        = Some (TurndownService (spread o defaultTurndownOptions) [gfm]))
  /\ List.length (objects r.2)
     = (List.length (List.filter hasKeys calls)
        + (if forallb hasKeys calls then 0 else 1))%nat.
Proof.
  cbn zeta.
  destruct (getTurndownServices_store calls initialWorld storeInv_initial)
    as ((_ & Hobj & _) & _ & Hret & Hlen).
  split; [exact Hobj|]. split; [exact Hret|].
  rewrite Hlen. reflexivity.
Qed.

(** ** Trimmed output *)

Section Trim.

Lemma trimStart_head (s : jsstring) :
  match trimStart s with [] => True | c :: _ => isSpace c = false end.
Proof.
  induction s as [|c t IH]; [exact I|]. cbn [trimStart].
  destruct (isSpace c) eqn:E; [exact IH | exact E].
Qed.

Lemma trimStart_suffix (s : jsstring) : exists p, s = p ++ trimStart s.
Proof.
  induction s as [|c t [p IH]]; [exists []; reflexivity|]. cbn [trimStart].
  destruct (isSpace c).
  - exists (c :: p). cbn [app]. rewrite <- IH. reflexivity.
  - exists []. reflexivity.
Qed.

Lemma trimStart_fixed (s : jsstring) :
  match s with [] => True | c :: _ => isSpace c = false end -> trimStart s = s.
Proof. destruct s as [|c t]; [reflexivity|]. cbn [trimStart]. intros ->. reflexivity. Qed.

(** [trim] leaves white space at neither end, and so changes nothing when
    applied again. *)
Lemma trim_ends (s : jsstring) :
  trim (trim s) = trim s
  /\ (forall c t, trim s = c :: t -> isSpace c = false)
  /\ (forall t c, trim s = t ++ [c] -> isSpace c = false).
Proof.
  unfold trim.
  pose proof (trimStart_head s) as Hhead.
  pose proof (trimStart_head (rev (trimStart s))) as Hlast.
  destruct (trimStart_suffix (rev (trimStart s))) as [p Hp].
  set (u := trimStart (rev (trimStart s))) in *.
  assert (Hfront : forall c t, rev u = c :: t -> isSpace c = false).
  { intros c t E.
    apply (f_equal (@rev Z)) in Hp. rewrite rev_involutive, rev_app_distr, E in Hp.
    rewrite Hp in Hhead. exact Hhead. }
  assert (Hback : forall t c, rev u = t ++ [c] -> isSpace c = false).
  { intros t c E. apply (f_equal (@rev Z)) in E.
    rewrite rev_involutive, rev_app_distr in E. cbn [rev app] in E.
    rewrite E in Hlast. exact Hlast. }
  split; [|split; [exact Hfront | exact Hback]].
  rewrite (trimStart_fixed (rev u)).
  - rewrite rev_involutive, (trimStart_fixed u Hlast). reflexivity.
  - destruct (rev u) as [|c t] eqn:E; [exact I|]. apply (Hfront c t eq_refl).
Qed.

End Trim.

(** The Markdown a conversion resolves with has white space at neither
    end, whatever the external engines return, and so has what [htmlToMd]
    returns. *)
Theorem converted_markdown_is_trimmed
    (e : engines) (options : convertOptions) (value : jsstring) (w : world) :
  let md := (afterExtraction e options value w).1 in
  let rendered :=
    (htmlToMd (turndown e) value (default ∅ (turndownOptions options)) w).1 in
  (trim md = md
   /\ (forall c t, md = c :: t -> isSpace c = false)
   /\ (forall t c, md = t ++ [c] -> isSpace c = false))
  /\ (trim rendered = rendered
      /\ (forall c t, rendered = c :: t -> isSpace c = false)
      /\ (forall t c, rendered = t ++ [c] -> isSpace c = false)).
Proof.
  cbn zeta. split.
  - unfold afterExtraction, bind, ret.
    destruct (htmlToMd (turndown e) (processHtml (html e) value)
                (default ∅ (turndownOptions options)) w) as [md w'].
    cbn [fst]. unfold lint. apply trim_ends.
  - unfold htmlToMd, bind.
    destruct (getTurndownService (default ∅ (turndownOptions options)) w) as [service w'].
    cbn [fst]. apply trim_ends.
Qed.

(** ** The upload handlers *)

Section Handlers.

Lemma escapeHtml_safe (s : jsstring) :
  forallb (fun x => negb (markupUnit x)) (escapeHtml s) = true.
Proof.
  rewrite escapeHtml_units.
  induction s as [|c t IH]; [reflexivity|].
  cbn [flat_map]. rewrite forallb_app, escapeUnit_safe, IH. reflexivity.
Qed.

End Handlers.

(** The two endpoints agree.  On the same request and state they leave
    the same state and answer with the same status, 200 with the same
    Markdown or 400, except where the conversion fails with an error that
    is not of the program: there [/raw] throws it on and [/api/convert]
    answers 500.  [/api/convert] itself never throws. *)
Theorem endpoints_agree
    (pathModule : option (jsstring -> jsstring)) (e : engines)
    (extract : inputObj -> option (gmap string jsvalue) -> option jsstring)
    (file : option upload) (w : world) :
  (rawHandler pathModule e extract file w).2 = (apiHandler pathModule e extract file w).2
  /\ match (rawHandler pathModule e extract file w).1,
           (apiHandler pathModule e extract file w).1 with
     | Sent r, Sent a =>
         status r = status a
         /\ (status r = 200 \/ status r = 400)
         /\ (forall md,
               sent r = PlainText md
               <-> exists name size, sent a = JsonSuccess md name size)
         /\ (status r = 200 <-> exists md, sent r = PlainText md)
     | Uncaught, Sent a => status a = 500
     | _, Uncaught => False
     end.
Proof.
  unfold rawHandler, apiHandler.
  destruct (uploaded file) as [f|].
  2:{ cbn. split; [reflexivity|]. split; [reflexivity|]. split; [right; reflexivity|].
      split; [intros md; split; [discriminate | intros (? & ? & ?); discriminate]|].
      split; [discriminate | intros (? & ?); discriminate]. }
  destruct (if falsy (originalname f) then Returns tt
            else validateFileExtension pathModule (originalname f)) as [[]|err].
  2:{ cbn. split; [reflexivity|]. split; [reflexivity|]. split; [right; reflexivity|].
      split; [intros md; split; [discriminate | intros (? & ? & ?); discriminate]|].
      split; [discriminate | intros (? & ?); discriminate]. }
  destruct (awaitConvert pathModule e extract (PathInput (uploadPath f))
              (ConvertOptions None None) w) as [[md|err|] w'].
  - cbn. split; [reflexivity|]. split; [reflexivity|]. split; [left; reflexivity|].
    split.
    + intros md'. split.
      * intros E. inversion E; subst md'. eexists _, _. reflexivity.
      * intros (name & size & E). inversion E. reflexivity.
    + split; [intros _; eexists; reflexivity | reflexivity].
  - cbn. split; [reflexivity|]. split; [reflexivity|]. split; [right; reflexivity|].
    split; [intros md; split; [discriminate | intros (? & ? & ?); discriminate]|].
    split; [discriminate | intros (? & ?); discriminate].
  - cbn. split; reflexivity.
Qed.

(** What the handler of [/raw] sends itself: a page with status 400 that
    holds no less-than sign, greater-than sign, double quote or
    apostrophe, whatever the message of the error was, or plain text with
    status 200.  It sends nothing only when a file was uploaded, its name
    passed the validation and the conversion failed with an error that is
    not of the program: that error is thrown on to the framework, whose
    answer is not the handler's. *)
Theorem raw_error_pages_hold_no_markup
    (pathModule : option (jsstring -> jsstring)) (e : engines)
    (extract : inputObj -> option (gmap string jsvalue) -> option jsstring)
    (file : option upload) (w : world) :
  match (rawHandler pathModule e extract file w).1 with
  | Sent (Response st (Html text)) =>
      st = 400 /\ forallb (fun x => negb (markupUnit x)) text = true
  | Sent (Response st (PlainText _)) => st = 200
  | Sent _ => False
  | Uncaught =>
      exists f,
        uploaded file = Some f
        /\ validateFileExtension pathModule (originalname f) = Returns tt
        /\ (awaitConvert pathModule e extract (PathInput (uploadPath f))
              (ConvertOptions None None) w).1 = RejectedOther
  end.
Proof.
  unfold rawHandler.
  destruct (uploaded file) as [f|] eqn:Eup; [|split; reflexivity].
  assert (Hname : falsy (originalname f) = false).
  { unfold uploaded in Eup. destruct file as [f0|]; [|discriminate].
    destruct (falsy (uploadPath f0) || falsy (originalname f0)) eqn:E; [discriminate|].
    inversion Eup; subst f0. apply orb_false_iff in E. apply E. }
  rewrite Hname.
  destruct (validateFileExtension pathModule (originalname f)) as [[]|err] eqn:Ev.
  2:{ cbn. split; [reflexivity | apply escapeHtml_safe]. }
  destruct (awaitConvert pathModule e extract (PathInput (uploadPath f))
              (ConvertOptions None None) w) as [[md|err|] w'] eqn:Ec.
  - reflexivity.
  - cbn. split; [reflexivity | apply escapeHtml_safe].
  - cbn. exists f. split; [reflexivity|]. split; [exact Ev|]. rewrite Ec. reflexivity.
Qed.

(** An upload whose original name has the extension ".doc", in any letter
    case, is answered with status 400 and the message of the program by
    both endpoints under Node: the uploaded file is not looked at, no
    extraction is called and the state stays as it was. *)
Theorem doc_upload_answered_without_conversion
    (e : engines)
    (extract : inputObj -> option (gmap string jsvalue) -> option jsstring)
    (f : upload) (w : world) :
  uploadPath f <> [] ->
  docNamed (originalname f) ->
  rawHandler onNode e extract (Some f) w
  = (Sent (Response 400 (Html (js unsupportedMessage))), w)
  /\ apiHandler onNode e extract (Some f) w
     = (Sent (Response 400 (JsonFailure (js "Invalid file type") (js unsupportedMessage))), w).
Proof.
  intros Hpath Hdoc.
  assert (Hname : originalname f <> []).
  { destruct Hdoc as (base & ext & slashes & Hp & _ & _ & Hb & _).
    rewrite Hp. destruct base; [contradiction | discriminate]. }
  assert (Hup : uploaded (Some f) = Some f).
  { unfold uploaded, falsy.
    destruct (uploadPath f); [contradiction|].
    destruct (originalname f); [contradiction|]. reflexivity. }
  assert (Hv : (if falsy (originalname f) then Returns tt
                else validateFileExtension onNode (originalname f))
               = Throws (UnsupportedFileError unsupportedMessage)).
  { assert (Hf : falsy (originalname f) = false).
    { unfold falsy. destruct (originalname f); [contradiction | reflexivity]. }
    rewrite Hf.
    unfold validateFileExtension, fileExtension, onNode, str_eqb.
    rewrite bool_decide_eq_true_2; [reflexivity|].
    apply extname_doc_iff. exact Hdoc. }
  unfold rawHandler, apiHandler. rewrite Hup, Hv. split; reflexivity.
Qed.

Lemma doc_upload_witness :
  rawHandler onNode (Engines textOnlyParser (fun _ s => s) (fun s => s)) (fun _ _ => None)
    (Some (Upload (js "/tmp/3f9a") (js "Report.DOC") 1024)) initialWorld
  = (Sent (Response 400 (Html (js unsupportedMessage))), initialWorld)
  /\ apiHandler onNode (Engines textOnlyParser (fun _ s => s) (fun s => s)) (fun _ _ => None)
       (Some (Upload (js "/tmp/3f9a") (js "Report.DOC") 1024)) initialWorld
     = (Sent (Response 400 (JsonFailure (js "Invalid file type") (js unsupportedMessage))),
        initialWorld).
Proof.
  apply (doc_upload_answered_without_conversion
           (Engines textOnlyParser (fun _ s => s) (fun s => s)) (fun _ _ => None)
           (Upload (js "/tmp/3f9a") (js "Report.DOC") 1024) initialWorld).
  - discriminate.
  - exists (js "Report"), (js ".DOC"), [].
    split; [reflexivity|]. split; [reflexivity|]. split; [reflexivity|].
    split; [discriminate|]. vm_compute. discriminate.
Defined.

(** ** The two steps of the Text Normalizer *)

(** On a text without the two zero-width units the steps of the Text
    Normalizer commute: replacing the typographic units first and
    converting the numbered lines afterwards gives the same text. *)
Theorem normalizer_steps_commute (md : jsstring) :
  forallb (fun c => negb (zeroWidth c)) md = true ->
  normalizeText (convertNumberedListsToBullets md)
  = convertNumberedListsToBullets (normalizeText md).
Proof.
  intros Hfree.
  assert (Hconv : forallb (fun c => negb (zeroWidth c)) (convertNumberedListsToBullets md) = true).
  { apply replaceNumbered_forallb; [reflexivity | reflexivity | exact Hfree]. }
  rewrite (normalizeText_map _ Hconv), (normalizeText_map _ Hfree).
  unfold convertNumberedListsToBullets.
  change None with (option_map normalizeUnit None) at 2.
  rewrite (replaceNumbered_map normalizeUnit normalizeUnit_space normalizeUnit_digit
             normalizeUnit_terminator normalizeUnit_period eq_refl eq_refl).
  reflexivity.
Qed.

Lemma normalizer_steps_commute_witness :
  normalizeText (convertNumberedListsToBullets (js "1." ++ [160] ++ [8220] ++ js "a" ++ [8221]))
  = convertNumberedListsToBullets (normalizeText (js "1." ++ [160] ++ [8220] ++ js "a" ++ [8221])).
Proof.
  apply (normalizer_steps_commute (js "1." ++ [160] ++ [8220] ++ js "a" ++ [8221])).
  reflexivity.
Defined.

(** ** Lists without glyphs *)

(** The list pass leaves a tree as it is when no list item in it starts
    with a bullet glyph, that is, when the expression of the pass changes
    the markup of none of its [li] elements; no item is parsed again. *)
Theorem lists_without_glyphs_untouched (api : parserApi) (n : node) (inUl : bool) :
  forallb (fun d => negb (hasTag "li" d) || str_eqb (stripBullet (innerHTML d)) (innerHTML d))
    (n :: descendants n) = true ->
  stripBullets api inUl n = n.
Proof.
  revert inUl.
  induction n as [raw | t a cs IH] using node_rect_nested; intros inUl H; [reflexivity|].
  cbn [forallb] in H. apply andb_true_iff in H as [Hn Hd].
  cbn [stripBullets].
  assert (Hkeep : inUl && hasTag "li" (Element t a cs)
                  && negb (str_eqb (stripBullet (innerHTML (Element t a cs)))
                             (innerHTML (Element t a cs))) = false).
  { destruct (hasTag "li" (Element t a cs)); cbn [negb orb] in Hn.
    - rewrite Hn. cbn [negb]. apply andb_false_r.
    - rewrite andb_false_r. reflexivity. }
  rewrite Hkeep. f_equal.
  rewrite descendants_Element in Hd. clear Hn Hkeep.
  generalize (inUl || hasTag "ul" (Element t a cs)). intros below.
  induction IH as [|c cs Hc _ IHcs]; [reflexivity|].
  apply forallb_descendants_child in Hd as [Hcd Hrest].
  cbn [map]. rewrite (Hc _ Hcd), (IHcs Hrest). reflexivity.
Qed.

Lemma lists_without_glyphs_witness :
  stripBullets textOnlyParser false
    (Element [] [] [Element (js "ul") [] [Element (js "li") [] [TextNode (js "x")]]])
  = Element [] [] [Element (js "ul") [] [Element (js "li") [] [TextNode (js "x")]]].
Proof.
  apply (lists_without_glyphs_untouched textOnlyParser
           (Element [] [] [Element (js "ul") [] [Element (js "li") [] [TextNode (js "x")]]])
           false).
  reflexivity.
Defined.
